(** * A shallow embedding of the HTTP protocol layer of http-cpp-server

    The development follows [src/src/http_server.cpp] and
    [src/include/http_server.h].  A [std::string] is a [string] (a sequence of
    8-bit characters, NUL included), a [std::map] keyed by strings is an
    association list kept in increasing key order (the order in which the
    C++ container is iterated), and the blocking socket is the list of the
    results of the successive [recv] calls. *)

From Stdlib Require Import String Ascii List Bool Arith ZArith Lia.
From Stdlib Require Import DecimalString.
From Stdlib Require DecimalPos DecimalZ.
Import ListNotations.

Local Open Scope list_scope.
Local Open Scope string_scope.
Local Open Scope nat_scope.

(* ================================================================== *)
(** * Part I: definitions *)
(* ================================================================== *)

(** ** Characters *)

Definition NUL : ascii := ascii_of_nat 0.
Definition TAB : ascii := ascii_of_nat 9.
Definition LF : ascii := ascii_of_nat 10.
Definition CR : ascii := ascii_of_nat 13.
Definition DQUOTE : ascii := ascii_of_nat 34.

(** [CRLF] is the two-character line terminator written ["\r\n"] in the
    source. *)
Definition CRLF : string := String CR (String LF "").

(** [isspace] of the "C" locale: space and the characters 9 to 13. *)
Definition isspace (c : ascii) : bool :=
  let n := nat_of_ascii c in
  (n =? 32) || ((9 <=? n) && (n <=? 13)).

(** Membership of a character in a set given as a string, the argument
    of [find_first_not_of], [find_last_not_of] and [find_first_of]. *)
Fixpoint mem_char (c : ascii) (set : string) : bool :=
  match set with
  | EmptyString => false
  | String d set' => Ascii.eqb c d || mem_char c set'
  end.

(** ** The [std::string] operations used by the server *)

(** [skipn_str n s] drops the first [n] characters. *)
Fixpoint skipn_str (n : nat) (s : string) : string :=
  match n, s with
  | O, _ => s
  | S _, EmptyString => EmptyString
  | S n', String _ s' => skipn_str n' s'
  end.

(** [firstn_str n s] keeps the first [n] characters. *)
Fixpoint firstn_str (n : nat) (s : string) : string :=
  match n, s with
  | O, _ => EmptyString
  | S _, EmptyString => EmptyString
  | S n', String c s' => String c (firstn_str n' s')
  end.

(** [s.substr(pos, n)]; the callers never pass [pos > s.size()]. *)
Definition substr (s : string) (pos n : nat) : string :=
  firstn_str n (skipn_str pos s).

(** [s.substr(pos)]. *)
Definition substr_from (s : string) (pos : nat) : string :=
  skipn_str pos s.

Fixpoint starts_with (p s : string) : bool :=
  match p, s with
  | EmptyString, _ => true
  | String _ _, EmptyString => false
  | String a p', String b s' => Ascii.eqb a b && starts_with p' s'
  end.

(** Offset of the first occurrence of [p] in [s]. *)
Fixpoint find0 (p s : string) : option nat :=
  if starts_with p s then Some 0
  else match s with
       | EmptyString => None
       | String _ s' => option_map S (find0 p s')
       end.

(** [s.find(p, pos)]; [None] is [std::string::npos]. *)
Definition find (s p : string) (pos : nat) : option nat :=
  if pos <=? String.length s
  then option_map (Nat.add pos) (find0 p (skipn_str pos s))
  else None.

(** [s.find_first_not_of(set)]. *)
Fixpoint find_first_not_of (s set : string) : option nat :=
  match s with
  | EmptyString => None
  | String c s' =>
      if mem_char c set then option_map S (find_first_not_of s' set)
      else Some 0
  end.

(** [s.find_first_of(set)]. *)
Fixpoint find_first_of (s set : string) : option nat :=
  match s with
  | EmptyString => None
  | String c s' =>
      if mem_char c set then Some 0
      else option_map S (find_first_of s' set)
  end.

(** [s.find_last_not_of(set)]. *)
Fixpoint find_last_not_of (s set : string) : option nat :=
  match s with
  | EmptyString => None
  | String c s' =>
      match find_last_not_of s' set with
      | Some i => Some (S i)
      | None => if mem_char c set then None else Some 0
      end
  end.

(** [s.erase(0, s.find_first_not_of(set))]: with [npos] as the count the
    whole string is erased. *)
Definition erase_leading (s set : string) : string :=
  match find_first_not_of s set with
  | Some i => skipn_str i s
  | None => EmptyString
  end.

(** [s.erase(s.find_last_not_of(set) + 1)]: [npos + 1] wraps to 0, so a
    string made of characters of [set] only is erased whole. *)
Definition erase_trailing (s set : string) : string :=
  match find_last_not_of s set with
  | Some i => firstn_str (S i) s
  | None => EmptyString
  end.

(** The trimming idiom of the source: leading [" \t"], then trailing
    [" \t\r\n"]. *)
Definition ws_lead : string := String " " (String TAB "").
Definition ws_trail : string :=
  String " " (String TAB (String CR (String LF ""))).

Definition trim (s : string) : string :=
  erase_trailing (erase_leading s ws_lead) ws_trail.

(** [std::string(buffer)] for a [char] buffer: the characters before the
    first NUL. *)
Fixpoint c_str (buf : string) : string :=
  match buf with
  | EmptyString => EmptyString
  | String c buf' => if Ascii.eqb c NUL then EmptyString else String c (c_str buf')
  end.

(** [std::getline(stream, line, delim)] applied until the stream is
    exhausted: the successive lines.  A final delimiter does not open a
    last empty line. *)
Fixpoint getlines_aux (delim : ascii) (cur : string) (started : bool)
  (s : string) : list string :=
  match s with
  | EmptyString => if started then [cur] else []
  | String c s' =>
      if Ascii.eqb c delim then cur :: getlines_aux delim "" false s'
      else getlines_aux delim (cur ++ String c "") true s'
  end.

Definition getlines (delim : ascii) (s : string) : list string :=
  getlines_aux delim "" false s.

(** ** Numbers in text *)

(** [operator<<] for an unsigned size and [std::to_string]. *)
Definition size_to_string (n : nat) : string :=
  NilZero.string_of_uint (Nat.to_uint n).

(** [operator<<] for an [int]. *)
Definition int_to_string (z : Z) : string :=
  NilZero.string_of_int (Z.to_int z).

Definition digit_val (c : ascii) : option nat :=
  let n := nat_of_ascii c in
  if (48 <=? n) && (n <=? 57) then Some (n - 48) else None.

Definition hex_val (c : ascii) : option nat :=
  let n := nat_of_ascii c in
  if (48 <=? n) && (n <=? 57) then Some (n - 48)
  else if (65 <=? n) && (n <=? 70) then Some (n - 55)
  else if (97 <=? n) && (n <=? 102) then Some (n - 87)
  else None.

Definition is_hex (c : ascii) : bool :=
  match hex_val c with Some _ => true | None => false end.

(** The hexadecimal digits and their values. *)
Definition hex_table : list (ascii * nat) :=
  [("0"%char, 0); ("1"%char, 1); ("2"%char, 2); ("3"%char, 3);
   ("4"%char, 4); ("5"%char, 5); ("6"%char, 6); ("7"%char, 7);
   ("8"%char, 8); ("9"%char, 9);
   ("A"%char, 10); ("B"%char, 11); ("C"%char, 12); ("D"%char, 13);
   ("E"%char, 14); ("F"%char, 15);
   ("a"%char, 10); ("b"%char, 11); ("c"%char, 12); ("d"%char, 13);
   ("e"%char, 14); ("f"%char, 15)].

Definition is_sign (c : ascii) : bool := Ascii.eqb c "+" || Ascii.eqb c "-".

(** The longest run of digits at the head of [s], read in base [base]
    from the accumulator [acc]; the number of digits read is returned
    too. *)
Fixpoint read_digits (val : ascii -> option nat) (base : Z) (acc : Z)
  (cnt : nat) (s : string) : Z * nat :=
  match s with
  | EmptyString => (acc, cnt)
  | String c s' =>
      match val c with
      | Some d => read_digits val base (base * acc + Z.of_nat d)%Z (S cnt) s'
      | None => (acc, cnt)
      end
  end.

Fixpoint skip_space (s : string) : string :=
  match s with
  | EmptyString => EmptyString
  | String c s' => if isspace c then skip_space s' else s
  end.

(** The sign accepted by [strtoul] and by the stream extractors. *)
Definition read_sign (s : string) : bool * string :=
  match s with
  | String c s' =>
      if Ascii.eqb c "-" then (true, s')
      else if Ascii.eqb c "+" then (false, s')
      else (false, s)
  | EmptyString => (false, s)
  end.

(** [std::stoul(s)] for a 64-bit [unsigned long]: leading white space, an
    optional sign, decimal digits.  [None] stands for the exception
    ([invalid_argument] without a digit, [out_of_range] beyond
    [ULONG_MAX]); a minus sign negates modulo [2^64]. *)
Definition ULONG_MAX : Z := (2 ^ 64 - 1)%Z.

Definition stoul (s : string) : option N :=
  let (neg, s1) := read_sign (skip_space s) in
  let (v, cnt) := read_digits digit_val 10 0 0 s1 in
  if cnt =? 0 then None
  else if (ULONG_MAX <? v)%Z then None
  else Some (Z.to_N (if neg then (- v) mod 2 ^ 64 else v)%Z).

(** [stream >> std::hex >> value] for an [int] on a fresh stream holding
    [s].  White space is skipped first; when the input ends there, the
    extraction fails before the target is written ([None]).  Otherwise a
    sign, an optional [0x] and hexadecimal digits are read; without a
    digit the target is set to 0, and a value outside the range of [int]
    is clamped. *)
Definition INT_MAX : Z := (2 ^ 31 - 1)%Z.
Definition INT_MIN : Z := (- 2 ^ 31)%Z.

Definition strip_0x (s : string) : string :=
  match s with
  | String c0 (String c1 s') =>
      if Ascii.eqb c0 "0" && (Ascii.eqb c1 "x" || Ascii.eqb c1 "X")
      then s' else s
  | _ => s
  end.

Definition extract_hex (s : string) : option Z :=
  match skip_space s with
  | EmptyString => None
  | s0 =>
      let (neg, s1) := read_sign s0 in
      let (v, cnt) := read_digits hex_val 16 0 0 (strip_0x s1) in
      if cnt =? 0 then Some 0%Z
      else
        let w := if neg then (- v)%Z else v in
        Some (Z.max INT_MIN (Z.min INT_MAX w))
  end.

(** [static_cast<char>(v)]: the low eight bits. *)
Definition char_of_int (v : Z) : ascii :=
  ascii_of_N (Z.to_N (v mod 256)).

(** ** [HttpServer::url_decode] *)

Section UrlDecode.

(** [hex_value] is declared without an initial value.  When the
    extraction stops before writing it (a pair made of white space),
    the character appended comes from whatever the variable held:
    [stale]. *)
Variable stale : Z.

Definition hex_pair (h1 h2 : ascii) : ascii :=
  match extract_hex (String h1 (String h2 "")) with
  | Some v => char_of_int v
  | None => char_of_int stale
  end.

(** The loop over [i]: the test [i + 2 < str.length()] holds exactly
    when two characters follow the current one. *)
Fixpoint url_decode (str : string) : string :=
  match str with
  | EmptyString => EmptyString
  | String c rest =>
      match Ascii.eqb c "%", rest with
      | true, String h1 (String h2 rest') =>
          String (hex_pair h1 h2) (url_decode rest')
      | _, _ =>
          if Ascii.eqb c "+" then String " " (url_decode rest)
          else String c (url_decode rest)
      end
  end.

End UrlDecode.

(** The percent-encoding of the reserved set, as the specification
    words it: ['%'], ['+'] and the space are written as a ['%'] and two
    hexadecimal digits, every other character stands for itself. *)
Fixpoint percent_encode (s : string) : string :=
  match s with
  | EmptyString => EmptyString
  | String c s' =>
      if Ascii.eqb c "%" then "%25" ++ percent_encode s'
      else if Ascii.eqb c "+" then "%2B" ++ percent_encode s'
      else if Ascii.eqb c " " then "%20" ++ percent_encode s'
      else String c (percent_encode s')
  end.

(** ** [std::map] with string keys

    The container is iterated in increasing key order, the order of
    [std::string::operator<]: lexicographic on the character codes.  A
    map is the list of its entries in that order. *)

Definition smap (V : Type) : Type := list (string * V).

(** [m[k] = v]. *)
Fixpoint map_insert {V : Type} (k : string) (v : V) (m : smap V) : smap V :=
  match m with
  | [] => [(k, v)]
  | (k', v') :: m' =>
      match String.compare k k' with
      | Lt => (k, v) :: m
      | Eq => (k, v) :: m'
      | Gt => (k', v') :: map_insert k v m'
      end
  end.

(** [m.find(k)]. *)
Fixpoint map_find {V : Type} (k : string) (m : smap V) : option V :=
  match m with
  | [] => None
  | (k', v') :: m' => if String.eqb k k' then Some v' else map_find k m'
  end.

(** The order of the keys, and the maps whose entries are in strictly
    increasing key order: every map built with [map_insert] is one. *)
Definition key_lt (k k' : string) : Prop := String.compare k k' = Lt.

Definition keys_above {V : Type} (k : string) (m : smap V) : Prop :=
  Forall (fun e => key_lt k (fst e)) m.

Inductive ordered {V : Type} : smap V -> Prop :=
| ordered_nil : ordered []
| ordered_cons (k : string) (v : V) (m : smap V) :
    keys_above k m -> ordered m -> ordered ((k, v) :: m).

(** ** The request and response structures of [http_server.h] *)

Record FileData : Type := mkFileData {
  fd_filename : string;
  fd_content_type : string;
  fd_data : string
}.

Record HttpRequest : Type := mkHttpRequest {
  method : string;
  path : string;
  version : string;
  req_headers : smap string;
  req_body : string;
  query_params : smap string;
  form_data : smap string;
  files : smap FileData
}.

Record HttpResponse : Type := mkHttpResponse {
  status_code : Z;
  status_text : string;
  headers : smap string;
  body : string;
  binary_data : string;
  is_binary : bool
}.

(** ** [HttpServer::build_response] *)

(** One iteration of the loop over [response.headers]. *)
Definition emit_header (oss : string) (header : string * string) : string :=
  oss ++ fst header ++ ": " ++ snd header ++ CRLF.

Definition build_response (response : HttpResponse) : string :=
  let oss :=
    "HTTP/1.1 " ++ int_to_string (status_code response) ++ " "
      ++ status_text response ++ CRLF in
  let oss := fold_left emit_header (headers response) oss in
  let oss :=
    if is_binary response
    then oss ++ "Content-Length: "
           ++ size_to_string (String.length (binary_data response)) ++ CRLF
    else oss ++ "Content-Length: "
           ++ size_to_string (String.length (body response)) ++ CRLF in
  let oss := oss ++ CRLF in
  if negb (is_binary response) then oss ++ body response else oss.

(** The header lines of a mapping, one after the other, and the length
    the builder announces. *)
Fixpoint render_headers (hs : smap string) : string :=
  match hs with
  | [] => EmptyString
  | (k, v) :: hs' => k ++ ": " ++ v ++ CRLF ++ render_headers hs'
  end.

Definition announced_length (response : HttpResponse) : nat :=
  if is_binary response then String.length (binary_data response)
  else String.length (body response).

Definition status_line (response : HttpResponse) : string :=
  "HTTP/1.1 " ++ int_to_string (status_code response) ++ " "
    ++ status_text response.

(** [no_char c s]: the character [c] does not occur in [s]. *)
Fixpoint no_char (c : ascii) (s : string) : bool :=
  match s with
  | EmptyString => true
  | String d s' => negb (Ascii.eqb d c) && no_char c s'
  end.

(** A response whose status text and headers can be read back line by
    line: no carriage return in them, and no colon in a header name. *)
Definition line_safe (response : HttpResponse) : Prop :=
  no_char CR (status_text response) = true
  /\ Forall (fun h => no_char CR (fst h) = true
                      /\ no_char ":" (fst h) = true
                      /\ no_char CR (snd h) = true) (headers response).

(** The line written for an entry of the header mapping. *)
Definition wire_header (h : string * string) : string :=
  fst h ++ ": " ++ snd h.

(** The entries of a mapping stored under [name]. *)
Definition entries_named {V : Type} (name : string) (m : smap V) : smap V :=
  filter (fun h => String.eqb (fst h) name) m.

(** Reading a message back from the wire: its lines (separated by
    CRLF), the header lines (after the first line, up to the empty line)
    and the name of a header line (the text before its first colon). *)
Fixpoint wire_lines_aux (cur : string) (s : string) : list string :=
  match s with
  | EmptyString => [cur]
  | String c s' =>
      match s' with
      | String d s'' =>
          if Ascii.eqb c CR && Ascii.eqb d LF
          then cur :: wire_lines_aux "" s''
          else wire_lines_aux (cur ++ String c "") s'
      | EmptyString => [cur ++ String c ""]
      end
  end.

Definition wire_lines (s : string) : list string := wire_lines_aux "" s.

Fixpoint until_blank (ls : list string) : list string :=
  match ls with
  | [] => []
  | l :: ls' => if String.eqb l "" then [] else l :: until_blank ls'
  end.

Definition header_block (wire : string) : list string :=
  until_blank (tl (wire_lines wire)).

Definition header_name (line : string) : string :=
  match find line ":" 0 with
  | Some i => substr line 0 i
  | None => line
  end.

(** The number of header lines named [name] in a message. *)
Definition count_headers (name wire : string) : nat :=
  List.length
    (filter (fun l => String.eqb (header_name l) name) (header_block wire)).

(** The body of a message on the wire: what follows the first empty
    line. *)
Definition wire_body (wire : string) : option string :=
  match find wire (CRLF ++ CRLF) 0 with
  | Some i => Some (substr_from wire (i + 4))
  | None => None
  end.

(** ** [HttpServer::parse_multipart_form_data] *)

(** The three locals filled while the header lines of a part are
    scanned. *)
Record part_headers : Type := mkPartHeaders {
  ph_name : string;
  ph_filename : string;
  ph_content_type : string
}.

(** The text between [key] (which ends with an opening quote) and the
    next quote of [header_line], when both are found. *)
Definition quoted_after (header_line key : string) : option string :=
  match find header_line key 0 with
  | Some kpos =>
      let vpos := kpos + String.length key in
      match find header_line (String DQUOTE "") vpos with
      | Some vend => Some (substr header_line vpos (vend - vpos))
      | None => None
      end
  | None => None
  end.

Definition name_key : string := "name=" ++ String DQUOTE "".
Definition filename_key : string := "filename=" ++ String DQUOTE "".

(** The body of the [while (std::getline(header_stream, header_line))]
    loop. *)
Definition scan_header_line (ph : part_headers) (header_line : string)
  : part_headers :=
  match find header_line "Content-Disposition:" 0 with
  | Some _ =>
      let name :=
        match quoted_after header_line name_key with
        | Some n => n
        | None => ph_name ph
        end in
      let filename :=
        match quoted_after header_line filename_key with
        | Some f => f
        | None => ph_filename ph
        end in
      mkPartHeaders name filename (ph_content_type ph)
  | None =>
      match find header_line "Content-Type:" 0 with
      | Some _ =>
          mkPartHeaders (ph_name ph) (ph_filename ph)
            (trim (substr_from header_line 13))
      | None => ph
      end
  end.

Definition scan_part_headers (hdrs : string) : part_headers :=
  fold_left scan_header_line (getlines LF hdrs) (mkPartHeaders "" "" "").

(** The stores at the end of an iteration. *)
Definition store_part (request : HttpRequest) (ph : part_headers)
  (content : string) : HttpRequest :=
  if negb (String.eqb (ph_filename ph) "")
  then
    mkHttpRequest (method request) (path request) (version request)
      (req_headers request) (req_body request) (query_params request)
      (form_data request)
      (map_insert (ph_name ph)
         (mkFileData (ph_filename ph) (ph_content_type ph) content)
         (files request))
  else
    mkHttpRequest (method request) (path request) (version request)
      (req_headers request) (req_body request) (query_params request)
      (map_insert (ph_name ph) content (form_data request))
      (files request).

(** [body.substr(pos, content_end - pos - 2)]: the count is unsigned, so
    when fewer than two characters separate [pos] from [content_end] it
    wraps around and the substring runs to the end of the body. *)
Definition part_content (body : string) (pos content_end : nat) : string :=
  if content_end - pos <? 2 then substr_from body pos
  else substr body pos (content_end - pos - 2).

(** The [while] loop; [fuel] bounds the number of iterations, and [None]
    is returned when it is exhausted. *)
Fixpoint multipart_loop (fuel : nat) (delimiter body : string) (pos : nat)
  (request : HttpRequest) : option HttpRequest :=
  match fuel with
  | O => None
  | S fuel' =>
      match find body delimiter pos with
      | None => Some request
      | Some found =>
          let pos := found + String.length delimiter in
          if (String.length body <=? pos)
             || String.eqb (substr body pos 2) "--"
          then Some request
          else
            match find body (CRLF ++ CRLF) pos with
            | None => Some request
            | Some header_end =>
                let hdrs := substr body pos (header_end - pos) in
                let pos := header_end + 4 in
                match find body delimiter pos with
                | None => Some request
                | Some content_end =>
                    let content := part_content body pos content_end in
                    multipart_loop fuel' delimiter body content_end
                      (store_part request (scan_part_headers hdrs) content)
                end
            end
      end
  end.

(** Every iteration that continues moves [pos] forward by at least four
    characters, so one more iteration than the body has characters is
    never reached. *)
Definition parse_multipart_form_data (request : HttpRequest)
  (boundary : string) : option HttpRequest :=
  let delimiter := "--" ++ boundary in
  let body := req_body request in
  multipart_loop (S (String.length body)) delimiter body 0 request.

(** ** Route matching in [HttpServer::handle_client] *)

(** *** [std::regex_replace(pattern, param_regex, "([^/]+)")]

    [param_regex] is an opening brace, one or more characters other than
    the closing brace, and a closing brace. *)

(** The characters up to and including the first closing brace. *)
Fixpoint to_close (s : string) : option nat :=
  match s with
  | EmptyString => None
  | String c s' =>
      if Ascii.eqb c "}" then Some 1 else option_map S (to_close s')
  end.

(** The length of a match of [param_regex] at an opening brace followed
    by [s], the brace not counted. *)
Definition param_len (s : string) : option nat :=
  match s with
  | EmptyString => None
  | String c s' => if Ascii.eqb c "}" then None else option_map S (to_close s')
  end.

Definition wildcard : string := "([^/]+)".

(** The matches are replaced from left to right; [skip] counts the
    characters of the current match still to be dropped. *)
Fixpoint replace_params_aux (skip : nat) (s : string) : string :=
  match s with
  | EmptyString => EmptyString
  | String c s' =>
      match skip with
      | S k => replace_params_aux k s'
      | O =>
          if Ascii.eqb c "{" then
            match param_len s' with
            | Some n => wildcard ++ replace_params_aux n s'
            | None => String c (replace_params_aux 0 s')
            end
          else String c (replace_params_aux 0 s')
      end
  end.

Definition replace_params (pattern : string) : string :=
  replace_params_aux 0 pattern.

(** *** The regular expressions built from the templates

    The pattern handed to [std::regex] is read with the ECMAScript
    grammar.  The fragment modelled here has the two anchors, the dot,
    the group [([^/]+)] and the characters that stand for themselves;
    a pattern using any other construct is outside of it. *)

Inductive retok : Type :=
| RBegin
| REnd
| RAny
| RSeg
| RChar (c : ascii).

Definition is_meta (c : ascii) : bool := mem_char c "^$\.*+?()[]{}|".

Fixpoint regex_compile_aux (skip : nat) (s : string) : option (list retok) :=
  match s with
  | EmptyString => Some []
  | String c s' =>
      match skip with
      | S k => regex_compile_aux k s'
      | O =>
          if starts_with wildcard s
          then option_map (cons RSeg) (regex_compile_aux 6 s')
          else if Ascii.eqb c "^"
          then option_map (cons RBegin) (regex_compile_aux 0 s')
          else if Ascii.eqb c "$"
          then option_map (cons REnd) (regex_compile_aux 0 s')
          else if Ascii.eqb c "."
          then option_map (cons RAny) (regex_compile_aux 0 s')
          else if is_meta c then None
          else option_map (cons (RChar c)) (regex_compile_aux 0 s')
      end
  end.

Definition regex_compile (s : string) : option (list retok) :=
  regex_compile_aux 0 s.

(** The dot matches every character but the line terminators. *)
Definition is_line_terminator (c : ascii) : bool :=
  Ascii.eqb c LF || Ascii.eqb c CR.

(** The group [([^/]+)] followed by the rest of the pattern, whose
    matcher is [k].  The group is greedy: the longest run of characters
    other than the slash is tried first, and given back one character at
    a time.  [cur] is the text the group has consumed. *)
Fixpoint seg_match (k : string -> option (list string)) (cur s : string)
  : option (list string) :=
  match s with
  | EmptyString => None
  | String d s' =>
      if Ascii.eqb d "/" then None
      else
        let cur' := cur ++ String d "" in
        match seg_match k cur' s' with
        | Some caps => Some caps
        | None => option_map (cons cur') (k s')
        end
  end.

(** [std::regex_match(path, matches, regex)]: the whole of [s] has to be
    matched; the result lists the texts captured by the groups, in
    order.  [at_start] tells whether no character was consumed yet. *)
Fixpoint re_match (toks : list retok) (at_start : bool) (s : string)
  : option (list string) :=
  match toks with
  | [] => match s with EmptyString => Some [] | String _ _ => None end
  | RBegin :: toks' => if at_start then re_match toks' at_start s else None
  | REnd :: toks' =>
      match s with
      | EmptyString => re_match toks' at_start s
      | String _ _ => None
      end
  | RAny :: toks' =>
      match s with
      | EmptyString => None
      | String d s' =>
          if is_line_terminator d then None else re_match toks' false s'
      end
  | RChar c :: toks' =>
      match s with
      | EmptyString => None
      | String d s' => if Ascii.eqb c d then re_match toks' false s' else None
      end
  | RSeg :: toks' => seg_match (re_match toks' false) "" s
  end.

(** The test of one route, with the captures of a successful match;
    the outer [None] tells that the pattern is outside of the
    fragment. *)
Definition route_captures (template request_path : string)
  : option (option (list string)) :=
  match regex_compile ("^" ++ replace_params template ++ "$") with
  | Some toks => Some (re_match toks true request_path)
  | None => None
  end.

Definition route_matches (template request_path : string) : option bool :=
  match route_captures template request_path with
  | Some (Some _) => Some true
  | Some None => Some false
  | None => None
  end.

(** *** Templates as sequences of segments

    The templates of the specification: each segment follows a slash and
    is a literal text or a named parameter written between braces. *)

Inductive segment : Type :=
| Literal (text : string)
| Param (name : string).

Fixpoint render_template (segs : list segment) : string :=
  match segs with
  | [] => EmptyString
  | Literal text :: segs' => "/" ++ text ++ render_template segs'
  | Param name :: segs' => "/{" ++ name ++ "}" ++ render_template segs'
  end.

(** A literal text without a slash and without a character that the
    regular expression grammar reads as an operator. *)
Fixpoint plain (s : string) : bool :=
  match s with
  | EmptyString => true
  | String c s' => negb (is_meta c) && negb (Ascii.eqb c "/") && plain s'
  end.

Definition segment_ok (seg : segment) : Prop :=
  match seg with
  | Literal text => plain text = true
  | Param name => name <> "" /\ no_char "}" name = true
  end.

(** The path made of the given segments. *)
Fixpoint join_path (ps : list string) : string :=
  match ps with
  | [] => EmptyString
  | p :: ps' => "/" ++ p ++ join_path ps'
  end.

(** What the specification asks of a path segment. *)
Definition segment_accepts (seg : segment) (p : string) : Prop :=
  match seg with
  | Literal text => p = text
  | Param _ => p <> "" /\ no_char "/" p = true
  end.

(** The path segments that stand at the parameters. *)
Fixpoint captured (segs : list segment) (ps : list string) : list string :=
  match segs, ps with
  | Literal _ :: segs', _ :: ps' => captured segs' ps'
  | Param _ :: segs', p :: ps' => p :: captured segs' ps'
  | _, _ => []
  end.

(** The pattern and the tokens of a template. *)
Fixpoint pattern_of (segs : list segment) : string :=
  match segs with
  | [] => EmptyString
  | Literal text :: segs' => "/" ++ text ++ pattern_of segs'
  | Param _ :: segs' => "/" ++ wildcard ++ pattern_of segs'
  end.

Fixpoint chars (s : string) : list retok :=
  match s with
  | EmptyString => []
  | String c s' => RChar c :: chars s'
  end.

Fixpoint tokens_of (segs : list segment) : list retok :=
  match segs with
  | [] => []
  | Literal text :: segs' => (RChar "/" :: chars text ++ tokens_of segs')%list
  | Param _ :: segs' => RChar "/" :: RSeg :: tokens_of segs'
  end.

(** *** The route table and the loop over it *)

Section Routes.

(** The handlers are opaque to the matcher. *)
Variable RouteHandler : Type.

(** [std::map<std::string, std::map<std::string, RouteHandler>>]. *)
Definition route_table : Type := smap (smap RouteHandler).

(** [routes[method][path] = handler]: the inner map is created empty
    when the method is new. *)
Definition add_route (routes : route_table) (method path : string)
  (handler : RouteHandler) : route_table :=
  let inner :=
    match map_find method routes with
    | Some inner => inner
    | None => []
    end in
  map_insert method (map_insert path handler inner) routes.

Inductive dispatch : Type :=
| Invoked (handler : RouteHandler)
| NotFound
| OutOfFragment.

(** The inner loop over the routes of one method. *)
Fixpoint match_routes (method_routes : smap RouteHandler)
  (request_path : string) : dispatch :=
  match method_routes with
  | [] => NotFound
  | (pattern, handler) :: rest =>
      match route_matches pattern request_path with
      | Some true => Invoked handler
      | Some false => match_routes rest request_path
      | None => OutOfFragment
      end
  end.

(** The outer loop over the methods. *)
Fixpoint find_route (routes : route_table) (request_method
  request_path : string) : dispatch :=
  match routes with
  | [] => NotFound
  | (m, method_routes) :: rest =>
      if String.eqb m request_method then
        match match_routes method_routes request_path with
        | NotFound => find_route rest request_method request_path
        | r => r
        end
      else find_route rest request_method request_path
  end.

(** A sequence of [add_route] calls, in the order they are made. *)
Definition registration : Type := (string * string * RouteHandler)%type.

Definition register (routes : route_table) (r : registration)
  : route_table :=
  add_route routes (fst (fst r)) (snd (fst r)) (snd r).

Definition register_all (regs : list registration) : route_table :=
  fold_left register regs [].

(** The handlers the table holds for a method and a template. *)
Definition handlers_for (routes : route_table) (method path : string)
  : list RouteHandler :=
  flat_map (fun mr => map snd (entries_named path (snd mr)))
    (entries_named method routes).

(** The handler stored for a method and a template. *)
Definition lookup_route (routes : route_table) (method path : string)
  : option RouteHandler :=
  match map_find method routes with
  | Some inner => map_find path inner
  | None => None
  end.

(** The handler of the last registration of a method and a template. *)
Definition last_registered (regs : list registration) (method
  path : string) : option RouteHandler :=
  fold_left
    (fun acc r =>
       if String.eqb (fst (fst r)) method && String.eqb (snd (fst r)) path
       then Some (snd r) else acc)
    regs None.

(** The tables whose two levels are in key order. *)
Definition table_ordered (routes : route_table) : Prop :=
  ordered routes /\ Forall (fun e => ordered (snd e)) routes.

(** What precedence by registration would give: the handler of the
    first registration, in the order of the calls, whose method is the
    request's and whose template matches. *)
Fixpoint first_registered (regs : list registration) (request_method
  request_path : string) : dispatch :=
  match regs with
  | [] => NotFound
  | (m, pattern, handler) :: rest =>
      if String.eqb m request_method then
        match route_matches pattern request_path with
        | Some true => Invoked handler
        | Some false => first_registered rest request_method request_path
        | None => OutOfFragment
        end
      else first_registered rest request_method request_path
  end.

End Routes.

Arguments Invoked {RouteHandler} handler.
Arguments NotFound {RouteHandler}.
Arguments OutOfFragment {RouteHandler}.
Arguments add_route {RouteHandler}.
Arguments match_routes {RouteHandler}.
Arguments find_route {RouteHandler}.
Arguments register {RouteHandler}.
Arguments register_all {RouteHandler}.
Arguments handlers_for {RouteHandler}.
Arguments first_registered {RouteHandler}.
Arguments lookup_route {RouteHandler}.
Arguments last_registered {RouteHandler}.
Arguments table_ordered {RouteHandler}.

(** ** The read loop of [HttpServer::handle_client]

    The socket is the list of what the successive [recv] calls return:
    the bytes received, or the empty string for a return value of zero
    or less.  After the last element the peer has closed. *)

Definition socket : Type := list string.

(** [while (body_received < content_length)]: the text appended is
    [std::string(buffer)], the count added is [bytes_received].  The
    result is the request text and the [recv] results left unread. *)
Fixpoint read_body (sock : socket) (request_str : string)
  (body_received content_length : N) : string * socket :=
  if (body_received <? content_length)%N then
    match sock with
    | [] => (request_str, [])
    | buffer :: sock' =>
        if String.length buffer =? 0 then (request_str, sock')
        else
          read_body sock' (request_str ++ c_str buffer)
            (body_received + N.of_nat (String.length buffer))%N
            content_length
    end
  else (request_str, sock).

(** The length announced by the request text, as the handler reads it:
    the text between the first [Content-Length:] and the next CRLF,
    trimmed ([length_text]) and given to [std::stoul]; an exception
    gives 0.  [None] when the handler finds no such text or no CRLF
    after it. *)
Definition length_text (request_str : string) : option string :=
  match find request_str "Content-Length:" 0 with
  | Some content_length_pos =>
      match find request_str CRLF content_length_pos with
      | Some line_end =>
          Some (trim (substr request_str (content_length_pos + 15)
                        (line_end - content_length_pos - 15)))
      | None => None
      end
  | None => None
  end.

Definition declared_length (request_str : string) : option N :=
  match length_text request_str with
  | Some length_str =>
      match stoul length_str with
      | Some n => Some n
      | None => Some 0%N
      end
  | None => None
  end.

(** The two cases in which no length is usable: the handler does not
    find the header, or [std::stoul] throws on its text. *)
Definition header_absent (request_str : string) : Prop :=
  find request_str "Content-Length:" 0 = None.

Definition header_unparsable (request_str : string) : Prop :=
  exists length_str,
    length_text request_str = Some length_str /\ stoul length_str = None.

(** From the first [recv] to the call of [parse_request]: [None] when
    the first [recv] returns nothing (the connection is closed without
    a response), else the text handed to the parser and the [recv]
    results left unread. *)
Definition receive_request (sock : socket) : option (string * socket) :=
  match sock with
  | [] => None
  | buffer :: sock' =>
      if String.length buffer =? 0 then None
      else
        let request_str := c_str buffer in
        match declared_length request_str with
        | Some content_length =>
            match find request_str (CRLF ++ CRLF) 0 with
            | Some header_end =>
                let headers_size := header_end + 4 in
                let body_received :=
                  N.of_nat (String.length request_str - headers_size) in
                Some (read_body sock' request_str body_received content_length)
            | None => Some (request_str, sock')
            end
        | None => Some (request_str, sock')
        end
  end.

(** The number of [recv] calls made after the first one. *)
Definition extra_reads (sock : socket) : option nat :=
  match receive_request sock with
  | Some (_, rest) => Some (List.length sock - 1 - List.length rest)
  | None => None
  end.

(** The body part of a request text: what follows the first empty
    line. *)
Definition body_of (request_str : string) : string :=
  match find request_str (CRLF ++ CRLF) 0 with
  | Some header_end => substr_from request_str (header_end + 4)
  | None => EmptyString
  end.

(** ** Sample data *)

Definition empty_request (b : string) : HttpRequest :=
  mkHttpRequest "" "" "" [] b [] [] [].

Definition q (s : string) : string := String DQUOTE s ++ String DQUOTE "".

(** The body of the multipart example of the specification, with
    boundary [X], around the payload of the file part. *)
Definition multipart_example (payload : string) : string :=
  "--X" ++ CRLF ++
  "Content-Disposition: form-data; name=" ++ q "title" ++ CRLF ++ CRLF ++
  "Hi" ++ CRLF ++
  "--X" ++ CRLF ++
  "Content-Disposition: form-data; name=" ++ q "avatar"
     ++ "; filename=" ++ q "a.png" ++ CRLF ++
  "Content-Type: image/png" ++ CRLF ++ CRLF ++
  payload ++ CRLF ++
  "--X--" ++ CRLF.

(** The response of the duplicated header: the caller stored a
    [Content-Length] entry before the build. *)
Definition preset_response : HttpResponse :=
  mkHttpResponse 200 "OK" [("Content-Length", "99")] "ok" "" false.

(** The two registrations of the precedence example: the template with
    a parameter is registered first, the literal one second. *)
Definition two_routes : list (string * string * nat) :=
  [("GET", "/api/{x}", 1); ("GET", "/api/data", 2)].

(** A request that announces three body bytes, and a socket on which two
    of them arrive around a NUL byte, with more data behind. *)
Definition post_head : string :=
  "POST /api/files/upload HTTP/1.1" ++ CRLF ++ "Content-Length: 3" ++ CRLF
    ++ CRLF.

Definition nul_socket : socket :=
  [post_head; String "a" (String NUL "b"); "cd"].

(** The text of a sequence of [recv] results. *)
Fixpoint received (chunks : list string) : string :=
  match chunks with
  | [] => EmptyString
  | b :: chunks' => b ++ received chunks'
  end.

(** The template of the read route and a template with a dot in a
    literal segment. *)
Definition read_template : list segment :=
  [Literal "api"; Literal "data"; Param "collection"; Param "id"].

Definition dotted_template : list segment := [Literal "a.b"].

(** The example body splits around the payload. *)
Definition example_head : string :=
  "--X" ++ CRLF ++
  "Content-Disposition: form-data; name=" ++ q "title" ++ CRLF ++ CRLF ++
  "Hi" ++ CRLF ++
  "--X" ++ CRLF ++
  "Content-Disposition: form-data; name=" ++ q "avatar"
     ++ "; filename=" ++ q "a.png" ++ CRLF ++
  "Content-Type: image/png" ++ CRLF ++ CRLF.

Definition example_tail : string := CRLF ++ "--X--" ++ CRLF.

(** The request the decoder leaves for the example. *)
Definition example_result (payload : string) : HttpRequest :=
  mkHttpRequest "" "" "" [] (multipart_example payload) []
    [("title", "Hi")]
    [("avatar", mkFileData "a.png" "image/png" payload)].

(** ** The response helpers and the writes of [HttpServer::handle_client] *)

(** [HttpResponse()]: the response a connection starts from. *)
Definition default_response : HttpResponse :=
  mkHttpResponse 200 "OK" [] "" "" false.

(** [send_json_response]: the two header stores are made in the order
    of the source. *)
Definition send_json_response (response : HttpResponse) (json : string)
  (status : Z) : HttpResponse :=
  mkHttpResponse status
    (if (status =? 200)%Z then "OK"
     else if (status =? 201)%Z then "Created" else "Error")
    (map_insert "Access-Control-Allow-Origin" "*"
       (map_insert "Content-Type" "application/json" (headers response)))
    json (binary_data response) (is_binary response).

(** [send_error_response]: the message is also the status text, and is
    put between quotes as it is. *)
Definition send_error_response (response : HttpResponse) (status : Z)
  (message : string) : HttpResponse :=
  mkHttpResponse status message
    (map_insert "Access-Control-Allow-Origin" "*"
       (map_insert "Content-Type" "application/json" (headers response)))
    ("{" ++ q "error" ++ ":" ++ q message ++ "}")
    (binary_data response) (is_binary response).

(** The [send] calls that end [handle_client]: the built text, then the
    binary payload when the flag is set and the payload is not empty. *)
Definition sends (response : HttpResponse) : list string :=
  build_response response
    :: (if is_binary response
           && negb (String.eqb (binary_data response) "")
        then [binary_data response] else []).

(** What precedes the body on the wire, and the body that is sent. *)
Definition response_head (response : HttpResponse) : string :=
  status_line response ++ CRLF ++ render_headers (headers response)
    ++ "Content-Length: " ++ size_to_string (announced_length response)
    ++ CRLF ++ CRLF.

Definition payload_sent (response : HttpResponse) : string :=
  if is_binary response then binary_data response else body response.

Section Respond.

(** The handlers run on the request, the response and whatever state
    they capture ([World]: the record store, the files). *)
Variable RouteHandler : Type.
Variable World : Type.
Variable run :
  RouteHandler -> HttpRequest -> HttpResponse -> World -> HttpResponse * World.

(** [handle_client] from the route lookup to the writes; [None] when a
    template is outside of the modelled fragment. *)
Definition respond (routes : smap (smap RouteHandler))
  (request : HttpRequest) (w : World) : option (list string * World) :=
  match find_route routes (method request) (path request) with
  | Invoked handler =>
      let (response, w') := run handler request default_response w in
      Some (sends response, w')
  | NotFound =>
      Some (sends (send_error_response default_response 404 "Not Found"), w)
  | OutOfFragment => None
  end.

End Respond.

Arguments respond {RouteHandler World}.

(** ** [HttpServer::get_content_type] *)

(** [s.find_last_of(c)]. *)
Fixpoint find_last_of (c : ascii) (s : string) : option nat :=
  match s with
  | EmptyString => None
  | String d s' =>
      match find_last_of c s' with
      | Some i => Some (S i)
      | None => if Ascii.eqb d c then Some 0 else None
      end
  end.

(** [::tolower] in the "C" locale: the letters [A] to [Z] only. *)
Definition tolower (c : ascii) : ascii :=
  let n := nat_of_ascii c in
  if (65 <=? n) && (n <=? 90) then ascii_of_nat (n + 32) else c.

Fixpoint map_str (f : ascii -> ascii) (s : string) : string :=
  match s with
  | EmptyString => EmptyString
  | String c s' => String (f c) (map_str f s')
  end.

(** The extension starts after the last dot; [npos + 1] wraps to 0, so
    without a dot it is the whole name. *)
Definition extension_of (filename : string) : string :=
  substr_from filename
    (match find_last_of "." filename with
     | Some i => i + 1
     | None => 0
     end).

Definition get_content_type (filename : string) : string :=
  let ext := map_str tolower (extension_of filename) in
  if String.eqb ext "html" || String.eqb ext "htm" then "text/html"
  else if String.eqb ext "css" then "text/css"
  else if String.eqb ext "js" then "application/javascript"
  else if String.eqb ext "json" then "application/json"
  else if String.eqb ext "png" then "image/png"
  else if String.eqb ext "jpg" || String.eqb ext "jpeg" then "image/jpeg"
  else if String.eqb ext "gif" then "image/gif"
  else if String.eqb ext "pdf" then "application/pdf"
  else if String.eqb ext "txt" then "text/plain"
  else "application/octet-stream".

(** ** [HttpServer::extract_filename_from_path] *)

(** [matches[1].str()] after [std::regex_match] with the pattern
    [/api/files/download/([^/]+)], the empty string without a match. *)
Definition extract_filename_from_path (request_path : string) : string :=
  match regex_compile "/api/files/download/([^/]+)" with
  | Some toks =>
      match re_match toks true request_path with
      | Some (filename :: _) => filename
      | _ => EmptyString
      end
  | None => EmptyString
  end.

(** ** [DataStore]

    The store is used under its mutex, one call at a time: the calls are
    functions from store to store.  [next_id] is an [int] of 32 bits:
    [next_id++] at [INT_MAX] overflows, and the counter goes on from
    [INT_MIN], as the compiled code does. *)

Definition item : Type := smap string.

(** The value of an [int] after an addition: modulo [2 ^ 32], in
    [INT_MIN .. INT_MAX]. *)
Definition int_wrap (z : Z) : Z :=
  ((z - INT_MIN) mod 2 ^ 32 + INT_MIN)%Z.

Record DataStore : Type := mkDataStore {
  ds_data : smap (smap item);
  next_id : Z
}.

(** [DataStore()]. *)
Definition empty_store : DataStore := mkDataStore [] 1.

(** [m.erase(k)]. *)
Fixpoint map_erase {V : Type} (k : string) (m : smap V) : smap V :=
  match m with
  | [] => []
  | (k', v') :: m' =>
      if String.eqb k k' then m' else (k', v') :: map_erase k m'
  end.

(** The test [data.find(collection) != data.end() &&
    data[collection].find(id) != data[collection].end()], with the item
    found. *)
Definition find_item (data : smap (smap item)) (collection id : string)
  : option item :=
  match map_find collection data with
  | Some items => map_find id items
  | None => None
  end.

(** [data[collection][id] = it]. *)
Definition store_item (data : smap (smap item)) (collection id : string)
  (it : item) : smap (smap item) :=
  let items :=
    match map_find collection data with
    | Some items => items
    | None => []
    end in
  map_insert collection (map_insert id it items) data.

(** [DataStore::create]. *)
Definition ds_create (s : DataStore) (collection : string) (it : item)
  : string * DataStore :=
  let id := int_to_string (next_id s) in
  let new_item := map_insert "id" id it in
  (id, mkDataStore (store_item (ds_data s) collection id new_item)
         (int_wrap (next_id s + 1))).

(** [DataStore::read]. *)
Definition ds_read (s : DataStore) (collection id : string) : item :=
  match find_item (ds_data s) collection id with
  | Some it => it
  | None => []
  end.

(** [DataStore::read_all]. *)
Definition ds_read_all (s : DataStore) (collection : string) : list item :=
  match map_find collection (ds_data s) with
  | Some items => map snd items
  | None => []
  end.

(** [DataStore::update]. *)
Definition ds_update (s : DataStore) (collection id : string) (it : item)
  : bool * DataStore :=
  match find_item (ds_data s) collection id with
  | Some _ =>
      let updated_item := map_insert "id" id it in
      (true, mkDataStore (store_item (ds_data s) collection id updated_item)
               (next_id s))
  | None => (false, s)
  end.

(** [DataStore::remove]: [data[collection].erase(id)] keeps the
    collection, possibly empty. *)
Definition ds_remove (s : DataStore) (collection id : string)
  : bool * DataStore :=
  match map_find collection (ds_data s) with
  | Some items =>
      match map_find id items with
      | Some _ =>
          (true, mkDataStore
                   (map_insert collection (map_erase id items) (ds_data s))
                   (next_id s))
      | None => (false, s)
      end
  | None => (false, s)
  end.

(** The calls made on a store, and the stores they lead to from the
    empty one. *)
Inductive ds_call : Type :=
| CallCreate (collection : string) (it : item)
| CallUpdate (collection id : string) (it : item)
| CallRemove (collection id : string).

Definition ds_apply (s : DataStore) (c : ds_call) : DataStore :=
  match c with
  | CallCreate collection it => snd (ds_create s collection it)
  | CallUpdate collection id it => snd (ds_update s collection id it)
  | CallRemove collection id => snd (ds_remove s collection id)
  end.

Definition ds_after (calls : list ds_call) : DataStore :=
  fold_left ds_apply calls empty_store.

(** What every store reached keeps: the two levels are in key order,
    the counter is an [int], and an item stored under an id carries
    that id in its [id] field, the id being the text of an [int]. *)
Definition ds_invariant (s : DataStore) : Prop :=
  table_ordered (ds_data s)
  /\ (INT_MIN <= next_id s <= INT_MAX)%Z
  /\ forall collection id it,
       find_item (ds_data s) collection id = Some it ->
       map_find "id" it = Some id
       /\ exists n, (INT_MIN <= n <= INT_MAX)%Z /\ id = int_to_string n.

(** The number of [create] calls among the calls made. *)
Fixpoint creates (calls : list ds_call) : nat :=
  match calls with
  | [] => 0
  | CallCreate _ _ :: calls' => S (creates calls')
  | _ :: calls' => creates calls'
  end.

(** What a store keeps as long as the counter has not overflowed: the
    counter is positive and every id stored is the text of a positive
    number below it. *)
Definition ds_counted (s : DataStore) : Prop :=
  (1 <= next_id s <= INT_MAX)%Z
  /\ forall collection id it,
       find_item (ds_data s) collection id = Some it ->
       exists n, (1 <= n < next_id s)%Z /\ id = int_to_string n.

(** ** [HttpServer::parse_url_encoded_form_data] and the query string *)

Section FormData.

(** See [url_decode] for [stale]. *)
Variable stale : Z.

(** The body of the loops over the parameters separated by [&]: a
    parameter without [=] is skipped. *)
Definition parse_param (fields : smap string) (param : string)
  : smap string :=
  match find param "=" 0 with
  | Some eq_pos =>
      let key := url_decode stale (substr param 0 eq_pos) in
      let value := url_decode stale (substr_from param (eq_pos + 1)) in
      map_insert key value fields
  | None => fields
  end.

Definition parse_params (fields : smap string) (text : string)
  : smap string :=
  fold_left parse_param (getlines "&" text) fields.

Definition parse_url_encoded_form_data (request : HttpRequest)
  : HttpRequest :=
  mkHttpRequest (method request) (path request) (version request)
    (req_headers request) (req_body request) (query_params request)
    (parse_params (form_data request) (req_body request))
    (files request).

End FormData.

(** A form as a client encodes it: the pairs joined by [&], key and
    value percent-encoded and joined by [=]. *)
Definition encode_pair (kv : string * string) : string :=
  percent_encode (fst kv) ++ "=" ++ percent_encode (snd kv).

Fixpoint form_encode (kvs : list (string * string)) : string :=
  match kvs with
  | [] => EmptyString
  | [kv] => encode_pair kv
  | kv :: kvs' => encode_pair kv ++ "&" ++ form_encode kvs'
  end.

(** The stores [fields[k] = v] made in the order of the pairs. *)
Definition insert_all (fields : smap string) (kvs : list (string * string))
  : smap string :=
  fold_left (fun m kv => map_insert (fst kv) (snd kv) m) kvs fields.

(** A text that holds neither [&] nor [=]. *)
Definition no_separator (s : string) : bool :=
  no_char "&" s && no_char "=" s.

(** ** [HttpServer::parse_request] *)

(** The successive results of [stream >> word]: the runs of characters
    between white space. *)
Fixpoint words_aux (cur : string) (s : string) : list string :=
  match s with
  | EmptyString =>
      match cur with EmptyString => [] | String _ _ => [cur] end
  | String c s' =>
      if isspace c then
        match cur with
        | EmptyString => words_aux "" s'
        | String _ _ => cur :: words_aux "" s'
        end
      else words_aux (cur ++ String c "") s'
  end.

Definition words (s : string) : list string := words_aux "" s.

(** The header loop reads lines up to and including the first line that
    is empty or a lone carriage return; the lines after it are left for
    the body. *)
Fixpoint split_headers (lines : list string) : list string * list string :=
  match lines with
  | [] => ([], [])
  | line :: rest =>
      if String.eqb line (String CR "") || String.eqb line ""
      then ([], rest)
      else let (hs, body_lines) := split_headers rest in
           (line :: hs, body_lines)
  end.

(** The body of the header loop. *)
Definition parse_header (hs : smap string) (line : string) : smap string :=
  match find line ":" 0 with
  | Some colon_pos =>
      map_insert (trim (substr line 0 colon_pos))
        (trim (substr_from line (colon_pos + 1))) hs
  | None => hs
  end.

(** [body += body_line + "\n"] for every line left, then [pop_back]
    unless the body is empty. *)
Fixpoint join_lines (lines : list string) : string :=
  match lines with
  | [] => EmptyString
  | l :: lines' => l ++ String LF (join_lines lines')
  end.

Fixpoint pop_back (s : string) : string :=
  match s with
  | EmptyString => EmptyString
  | String c EmptyString => EmptyString
  | String c s' => String c (pop_back s')
  end.

Definition body_text (lines : list string) : string :=
  pop_back (join_lines lines).

(** The boundary taken from a [Content-Type] value that names
    [boundary=]. *)
Definition boundary_stop : string :=
  String ";" (String " " (String TAB (String CR (String LF
    (String DQUOTE ""))))).

Fixpoint back (s : string) : option ascii :=
  match s with
  | EmptyString => None
  | String c EmptyString => Some c
  | String _ s' => back s'
  end.

Definition strip_quotes (boundary : string) : string :=
  let b :=
    match boundary with
    | String c rest => if Ascii.eqb c DQUOTE then rest else boundary
    | EmptyString => boundary
    end in
  match back b with
  | Some c => if Ascii.eqb c DQUOTE then pop_back b else b
  | None => b
  end.

Definition boundary_of (content_type : string) : option string :=
  match find content_type "boundary=" 0 with
  | Some boundary_pos =>
      let boundary := substr_from content_type (boundary_pos + 9) in
      let boundary :=
        match find_first_of boundary boundary_stop with
        | Some end_pos => substr boundary 0 end_pos
        | None => boundary
        end in
      Some (strip_quotes boundary)
  | None => None
  end.

Section ParseRequest.

(** See [url_decode] for [stale]. *)
Variable stale : Z.

(** The request line: three words, and the split of the second at its
    first question mark. *)
Definition parse_request_line (line : string)
  : string * string * string * smap string :=
  let ws := words line in
  let m := nth 0 ws "" in
  let raw_path := nth 1 ws "" in
  let v := nth 2 ws "" in
  match find raw_path "?" 0 with
  | Some query_pos =>
      (m, substr raw_path 0 query_pos, v,
       parse_params stale [] (substr_from raw_path (query_pos + 1)))
  | None => (m, raw_path, v, [])
  end.

(** The dispatch on the [Content-Type] header; [None] only if the
    multipart loop ran out of fuel. *)
Definition decode_body (request : HttpRequest) : option HttpRequest :=
  match map_find "Content-Type" (req_headers request) with
  | Some content_type =>
      match find content_type "multipart/form-data" 0 with
      | Some _ =>
          match boundary_of content_type with
          | Some boundary => parse_multipart_form_data request boundary
          | None => Some request
          end
      | None =>
          match find content_type "application/x-www-form-urlencoded" 0 with
          | Some _ => Some (parse_url_encoded_form_data stale request)
          | None => Some request
          end
      end
  | None => Some request
  end.

Definition parse_request (request_str : string) : option HttpRequest :=
  match getlines LF request_str with
  | [] => decode_body (mkHttpRequest "" "" "" [] "" [] [] [])
  | line :: rest =>
      let '(m, p, v, query) := parse_request_line line in
      let (header_lines, body_lines) := split_headers rest in
      decode_body
        (mkHttpRequest m p v (fold_left parse_header header_lines [])
           (body_text body_lines) query [] [])
  end.

End ParseRequest.

(** The text without its last character when this one is a line feed. *)
Fixpoint chomp_lf (s : string) : string :=
  match s with
  | EmptyString => EmptyString
  | String c EmptyString =>
      if Ascii.eqb c LF then EmptyString else s
  | String c s' => String c (chomp_lf s')
  end.

(** A word: not empty, no white space in it. *)
Fixpoint no_space (s : string) : bool :=
  match s with
  | EmptyString => true
  | String c s' => negb (isspace c) && no_space s'
  end.

Definition is_word (s : string) : Prop := s <> "" /\ no_space s = true.

(** All the characters of [s] are in [set]. *)
Fixpoint all_in (set s : string) : bool :=
  match s with
  | EmptyString => true
  | String c s' => mem_char c set && all_in set s'
  end.

(** A text that trimming leaves as it is: empty, or beginning with a
    character that is neither a space nor a tab and ending with one that
    is none of space, tab, carriage return and line feed. *)
Fixpoint ends_outside (set s : string) : bool :=
  match s with
  | EmptyString => false
  | String c EmptyString => negb (mem_char c set)
  | String c s' => ends_outside set s'
  end.

Definition trimmed (s : string) : bool :=
  match s with
  | EmptyString => true
  | String c _ => negb (mem_char c ws_lead) && ends_outside ws_trail s
  end.

(** The header block a client writes for the given names and values. *)
Fixpoint header_text (hs : list (string * string)) : string :=
  match hs with
  | [] => EmptyString
  | (k, v) :: hs' => k ++ ": " ++ v ++ CRLF ++ header_text hs'
  end.

(** A request as a client writes it: the request line, the header
    block, the empty line and the body. *)
Definition request_text (m target v : string) (hs : list (string * string))
  (body : string) : string :=
  m ++ " " ++ target ++ " " ++ v ++ CRLF ++ header_text hs ++ CRLF ++ body.

(** A header name or value that can be read back: trimming leaves it as
    it is and it holds no line feed; a name holds no colon. *)
Definition header_ok (h : string * string) : Prop :=
  trimmed (fst h) = true /\ no_char LF (fst h) = true
  /\ no_char ":" (fst h) = true
  /\ trimmed (snd h) = true /\ no_char LF (snd h) = true.

(** The request target: the path, then the query string after a
    question mark when there is one. *)
Definition target_of (p : string) (query : option string) : string :=
  match query with
  | Some qs => p ++ String "?" qs
  | None => p
  end.

(** The fields that the decoders of the body leave alone. *)
Definition same_head (r r' : HttpRequest) : Prop :=
  method r' = method r /\ path r' = path r /\ version r' = version r
  /\ req_headers r' = req_headers r /\ req_body r' = req_body r
  /\ query_params r' = query_params r.

(** *** The built-in routes *)

(** The member functions that the built-in routes call. *)
Inductive builtin : Type :=
| CrudCreate
| CrudRead
| CrudReadAll
| CrudUpdate
| CrudDelete
| FileUpload
| FileDownload
| FileList
| ClientPage.

(** [setup_default_routes], the calls in the order of the source. *)
Definition setup_default_routes (routes : route_table builtin)
  : route_table builtin :=
  let routes := add_route routes "POST" "/api/data/{collection}" CrudCreate in
  let routes :=
    add_route routes "GET" "/api/data/{collection}/{id}" CrudRead in
  let routes := add_route routes "GET" "/api/data/{collection}" CrudReadAll in
  let routes :=
    add_route routes "PUT" "/api/data/{collection}/{id}" CrudUpdate in
  let routes :=
    add_route routes "DELETE" "/api/data/{collection}/{id}" CrudDelete in
  let routes := add_route routes "POST" "/api/files/upload" FileUpload in
  let routes :=
    add_route routes "GET" "/api/files/download/{filename}" FileDownload in
  let routes := add_route routes "GET" "/api/files" FileList in
  add_route routes "GET" "/" ClientPage.

(** The built-in routes as the printed endpoint list gives them: the
    method, the segments of the template, the function. *)
Definition default_templates : list (string * list segment * builtin) :=
  [("POST", [Literal "api"; Literal "data"; Param "collection"], CrudCreate);
   ("GET", [Literal "api"; Literal "data"; Param "collection"; Param "id"],
    CrudRead);
   ("GET", [Literal "api"; Literal "data"; Param "collection"], CrudReadAll);
   ("PUT", [Literal "api"; Literal "data"; Param "collection"; Param "id"],
    CrudUpdate);
   ("DELETE", [Literal "api"; Literal "data"; Param "collection"; Param "id"],
    CrudDelete);
   ("POST", [Literal "api"; Literal "files"; Literal "upload"], FileUpload);
   ("GET", [Literal "api"; Literal "files"; Literal "download";
            Param "filename"], FileDownload);
   ("GET", [Literal "api"; Literal "files"], FileList);
   ("GET", [Literal ""], ClientPage)].

(** A path is served by a template when it is made of as many segments
    and each is accepted at its place. *)
Definition serves (segs : list segment) (request_path : string) : Prop :=
  exists ps, request_path = join_path ps /\ Forall2 segment_accepts segs ps.

(** ** The record handlers *)

(** [std::regex_match(s, matches, std::regex(pattern))] with the
    captures [matches[1]], [matches[2]], ...; the patterns of the
    handlers are inside the modelled fragment. *)
Definition regex_match (pattern s : string) : option (list string) :=
  match regex_compile pattern with
  | Some toks => re_match toks true s
  | None => None
  end.

Definition collection_regex : string := "/api/data/([^/]+)".
Definition item_regex : string := "/api/data/([^/]+)/([^/]+)".

(** The characters that the handlers remove from the keys and the
    values of a body: the double quote, the space and the tab. *)
Definition json_noise (c : ascii) : bool :=
  Ascii.eqb c DQUOTE || Ascii.eqb c " " || Ascii.eqb c TAB.

(** [s.erase(std::remove_if(s.begin(), s.end(), p), s.end())]. *)
Fixpoint remove_if (p : ascii -> bool) (s : string) : string :=
  match s with
  | EmptyString => EmptyString
  | String c s' => if p c then remove_if p s' else String c (remove_if p s')
  end.

(** The body of the loop over the pairs separated by commas: a pair
    without a colon is skipped. *)
Definition parse_pair (it : item) (pair : string) : item :=
  match find pair ":" 0 with
  | Some colon_pos =>
      let key := substr pair 0 colon_pos in
      let value := substr_from pair (colon_pos + 1) in
      map_insert (remove_if json_noise key) (remove_if json_noise value) it
  | None => it
  end.

(** The reading of a body that holds both braces: its first and last
    characters are dropped, whatever they are. *)
Definition parse_json_body (body : string) : item :=
  match find body "{" 0, find body "}" 0 with
  | Some _, Some _ =>
      fold_left parse_pair
        (getlines "," (substr body 1 (String.length body - 2))) []
  | _, _ => []
  end.

(** The item of a create or update request: the form fields when there
    are some, the reading of the body otherwise. *)
Definition request_item (request : HttpRequest) : item :=
  match form_data request with
  | [] => parse_json_body (req_body request)
  | _ :: _ => form_data request
  end.

(** The rendering of an item by the read handlers. *)
Fixpoint render_fields (first : bool) (it : item) : string :=
  match it with
  | [] => EmptyString
  | (k, v) :: it' =>
      (if first then "" else ",") ++ q k ++ ":" ++ q v
        ++ render_fields false it'
  end.

Definition render_item (it : item) : string :=
  "{" ++ render_fields true it ++ "}".

Fixpoint render_items (first : bool) (items : list item) : string :=
  match items with
  | [] => EmptyString
  | it :: items' =>
      (if first then "" else ",") ++ render_item it
        ++ render_items false items'
  end.

(** The answer of create, update and delete. *)
Definition status_json (id status : string) : string :=
  "{" ++ q "id" ++ ":" ++ q id ++ "," ++ q "status" ++ ":" ++ q status
    ++ "}".

Definition handle_crud_create (request : HttpRequest)
  (response : HttpResponse) (s : DataStore) : HttpResponse * DataStore :=
  match regex_match collection_regex (path request) with
  | Some matches =>
      let collection := nth 0 matches "" in
      let (id, s') := ds_create s collection (request_item request) in
      (send_json_response response (status_json id "created") 201, s')
  | None => (send_error_response response 400 "Invalid collection path", s)
  end.

Definition handle_crud_read (request : HttpRequest)
  (response : HttpResponse) (s : DataStore) : HttpResponse * DataStore :=
  match regex_match item_regex (path request) with
  | Some matches =>
      let collection := nth 0 matches "" in
      let id := nth 1 matches "" in
      match ds_read s collection id with
      | [] => (send_error_response response 404 "Item not found", s)
      | (_ :: _) as it =>
          (send_json_response response (render_item it) 200, s)
      end
  | None => (send_error_response response 400 "Invalid item path", s)
  end.

Definition handle_crud_read_all (request : HttpRequest)
  (response : HttpResponse) (s : DataStore) : HttpResponse * DataStore :=
  match regex_match collection_regex (path request) with
  | Some matches =>
      let collection := nth 0 matches "" in
      let items := ds_read_all s collection in
      (send_json_response response ("[" ++ render_items true items ++ "]")
         200, s)
  | None => (send_error_response response 400 "Invalid collection path", s)
  end.

Definition handle_crud_update (request : HttpRequest)
  (response : HttpResponse) (s : DataStore) : HttpResponse * DataStore :=
  match regex_match item_regex (path request) with
  | Some matches =>
      let collection := nth 0 matches "" in
      let id := nth 1 matches "" in
      let (found, s') := ds_update s collection id (request_item request) in
      if found
      then (send_json_response response (status_json id "updated") 200, s')
      else (send_error_response response 404 "Item not found", s')
  | None => (send_error_response response 400 "Invalid item path", s)
  end.

Definition handle_crud_delete (request : HttpRequest)
  (response : HttpResponse) (s : DataStore) : HttpResponse * DataStore :=
  match regex_match item_regex (path request) with
  | Some matches =>
      let collection := nth 0 matches "" in
      let id := nth 1 matches "" in
      let (found, s') := ds_remove s collection id in
      if found
      then (send_json_response response (status_json id "deleted") 200, s')
      else (send_error_response response 404 "Item not found", s')
  | None => (send_error_response response 400 "Invalid item path", s)
  end.

(** A text without a character that the handlers remove. *)
Fixpoint no_noise (s : string) : bool :=
  match s with
  | EmptyString => true
  | String c s' => negb (json_noise c) && no_noise s'
  end.

(** A field that the rendering and the reading of a body keep: no
    quote, space, tab or comma in the key and the value, and no colon
    in the key. *)
Definition field_ok (kv : string * string) : Prop :=
  no_noise (fst kv) = true /\ no_char "," (fst kv) = true
  /\ no_char ":" (fst kv) = true
  /\ no_noise (snd kv) = true /\ no_char "," (snd kv) = true.

(** ** The file handlers *)

(** What an [std::ifstream] opened on a path finds: a regular file
    with its bytes, or a file that opens without being a regular one, as
    a directory does.  Such a file cannot be sized or read: [tellg]
    gives no usable size and [resize], or the read, throws. *)
Inductive opened : Type :=
| Regular (content : string)
| Irregular.

(** The files as the handlers see them: what opening a path gives,
    [None] when the open fails.  The streams are opened on the C string
    of the path, which ends at its first NUL byte. *)
Definition file_system : Type := string -> option opened.

Definition open_file (fs : file_system) (filepath : string)
  : option opened :=
  fs (c_str filepath).

(** An [std::ofstream] opened on a path, written and closed: the file
    is a regular one and holds the bytes written. *)
Definition write_file (fs : file_system) (filepath data : string)
  : file_system :=
  fun p => if String.eqb p (c_str filepath) then Some (Regular data)
           else fs p.

(** [std::filesystem::path(p).filename().string()]: the text after the
    last slash. *)
Definition path_filename (p : string) : string :=
  match find_last_of "/" p with
  | Some i => substr_from p (i + 1)
  | None => p
  end.

(** [send_file_response]: the header stores are made in the order of
    the source.  [None] when an exception leaves the function, which
    nothing catches on the way out of [handle_client]. *)
Definition send_file_response (response : HttpResponse) (filepath : string)
  (fs : file_system) : option HttpResponse :=
  match open_file fs filepath with
  | None => Some (send_error_response response 404 "File not found")
  | Some Irregular => None
  | Some (Regular content) =>
      let content_type := get_content_type filepath in
      if String.eqb content_type "text/html"
      then
        Some (mkHttpResponse 200 "OK"
                (map_insert "Access-Control-Allow-Origin" "*"
                   (map_insert "Content-Type" content_type
                      (headers response)))
                content (binary_data response) false)
      else
        Some (mkHttpResponse 200 "OK"
                (map_insert "Access-Control-Allow-Origin" "*"
                   (map_insert "Content-Disposition"
                      ("attachment; filename="
                         ++ q (path_filename filepath))
                      (map_insert "Content-Type" content_type
                         (headers response))))
                (body response) content true)
  end.

Definition handle_file_download (request : HttpRequest)
  (response : HttpResponse) (fs : file_system) : option HttpResponse :=
  let filename := extract_filename_from_path (path request) in
  if String.eqb filename ""
  then Some (send_error_response response 400 "Invalid filename")
  else send_file_response response ("uploads/" ++ filename) fs.

Definition handle_client_page (request : HttpRequest)
  (response : HttpResponse) (fs : file_system) : option HttpResponse :=
  send_file_response response "client.html" fs.

Section Upload.

(** Whether an [std::ofstream] can be opened on a path, given as the C
    string that the stream receives. *)
Variable can_open : string -> bool.

(** One iteration of the loop over [request.files]: the files, the
    text of the answer so far and the [first] flag. *)
Definition upload_file (acc : file_system * string * bool)
  (file_pair : string * FileData) : file_system * string * bool :=
  let '(fs, json_response, first) := acc in
  let file_data := snd file_pair in
  let filepath := "uploads/" ++ fd_filename file_data in
  if can_open (c_str filepath)
  then
    (write_file fs filepath (fd_data file_data),
     json_response ++ (if first then "" else ",")
       ++ "{" ++ q "filename" ++ ":" ++ q (fd_filename file_data) ++ ","
       ++ q "status" ++ ":" ++ q "uploaded" ++ "}",
     false)
  else acc.

Definition handle_file_upload (request : HttpRequest)
  (response : HttpResponse) (fs : file_system)
  : HttpResponse * file_system :=
  match files request with
  | [] =>
      match form_data request with
      | [] =>
          (send_error_response response 400
             ("No files or form data found. Content-Type: "
                ++ match map_find "Content-Type" (req_headers request) with
                   | Some content_type => content_type
                   | None => "missing"
                   end
                ++ ", Body size: "
                ++ size_to_string (String.length (req_body request))),
           fs)
      | _ :: _ => (send_error_response response 400 "No files uploaded", fs)
      end
  | _ :: _ =>
      let '(fs', json_response, _) :=
        fold_left upload_file (files request)
          (fs, "{" ++ q "uploaded_files" ++ ":[", true) in
      (send_json_response response (json_response ++ "]}") 201, fs')
  end.

End Upload.

(** ** Further sample data *)

(** The example body with [filename=] written before [name=] in the
    line of the file part. *)
Definition swapped_example : string :=
  "--X" ++ CRLF ++
  "Content-Disposition: form-data; name=" ++ q "title" ++ CRLF ++ CRLF ++
  "Hi" ++ CRLF ++
  "--X" ++ CRLF ++
  "Content-Disposition: form-data; filename=" ++ q "a.png"
     ++ "; name=" ++ q "avatar" ++ CRLF ++
  "Content-Type: image/png" ++ CRLF ++ CRLF ++
  "PNG" ++ CRLF ++
  "--X--" ++ CRLF.

(** A request without a [Content-Length] header whose target holds that
    text, and a request whose header value only begins with digits. *)
Definition target_socket : socket :=
  ["GET /x?Content-Length:9 HTTP/1.1" ++ CRLF ++ "Host: a" ++ CRLF ++ CRLF;
   "abc"; "def"].

Definition digits_socket : socket :=
  ["POST / HTTP/1.1" ++ CRLF ++ "Content-Length: 3x" ++ CRLF ++ CRLF; "abc"].

(* ================================================================== *)
(** * Part II: properties *)
(* ================================================================== *)

(** ** Strings *)

Lemma append_nil_r (s : string) : s ++ "" = s.
Proof. induction s as [|c s IH]; simpl; [reflexivity | now rewrite IH]. Qed.

Lemma append_assoc (s t u : string) : (s ++ t) ++ u = s ++ (t ++ u).
Proof. induction s as [|c s IH]; simpl; [reflexivity | now rewrite IH]. Qed.

Lemma length_append (s t : string) :
  String.length (s ++ t) = String.length s + String.length t.
Proof. induction s as [|c s IH]; simpl; [reflexivity | now rewrite IH]. Qed.

Lemma ascii_eqb_refl (c : ascii) : Ascii.eqb c c = true.
Proof. apply Ascii.eqb_refl. Qed.

(** ** The percent/plus decoder *)

Lemma hex_val_table (c : ascii) (v : nat) :
  hex_val c = Some v -> In (c, v) hex_table.
Proof.
  destruct c as [[] [] [] [] [] [] [] []]; vm_compute; intros H;
    try discriminate H; injection H as <-; tauto.
Qed.

Ltac in_cases H :=
  repeat (destruct H as [H | H]; [injection H as <- <- |]); [.. | destruct H].

Lemma hex_pair_digits (stale : Z) (h1 h2 : ascii) (v1 v2 : nat) :
  hex_val h1 = Some v1 -> hex_val h2 = Some v2 ->
  hex_pair stale h1 h2 = ascii_of_nat (16 * v1 + v2).
Proof.
  intros H1 H2. apply hex_val_table in H1. apply hex_val_table in H2.
  unfold hex_table in H1. in_cases H1; in_cases H2; reflexivity.
Qed.

Lemma url_decode_percent (stale : Z) (a b : ascii) (rest : string) :
  url_decode stale (String "%" (String a (String b rest)))
  = String (hex_pair stale a b) (url_decode stale rest).
Proof. reflexivity. Qed.

Lemma url_decode_plus (stale : Z) (rest : string) :
  url_decode stale (String "+" rest) = String " " (url_decode stale rest).
Proof. reflexivity. Qed.

Lemma url_decode_other (stale : Z) (c : ascii) (rest : string) :
  c <> "%"%char -> c <> "+"%char ->
  url_decode stale (String c rest) = String c (url_decode stale rest).
Proof.
  intros Hp Hq. simpl.
  destruct (Ascii.eqb_spec c "%") as [->|_]; [contradiction|].
  destruct (Ascii.eqb_spec c "+") as [->|_]; [contradiction|].
  reflexivity.
Qed.

Lemma url_decode_encode (stale : Z) (s : string) :
  url_decode stale (percent_encode s) = s.
Proof.
  induction s as [|c s IH]; [reflexivity|].
  cbn [percent_encode].
  destruct (Ascii.eqb_spec c "%") as [->|Hp].
  { change (url_decode stale ("%25" ++ percent_encode s))
      with (String "%" (url_decode stale (percent_encode s))).
    now rewrite IH. }
  destruct (Ascii.eqb_spec c "+") as [->|Hq].
  { change (url_decode stale ("%2B" ++ percent_encode s))
      with (String "+" (url_decode stale (percent_encode s))).
    now rewrite IH. }
  destruct (Ascii.eqb_spec c " ") as [->|Hs].
  { change (url_decode stale ("%20" ++ percent_encode s))
      with (String " " (url_decode stale (percent_encode s))).
    now rewrite IH. }
  rewrite url_decode_other by assumption. now rewrite IH.
Qed.

Lemma hex_table_val (c : ascii) (v : nat) :
  In (c, v) hex_table -> hex_val c = Some v.
Proof.
  unfold hex_table. intros H. in_cases H; reflexivity.
Qed.

(** C4, as stated, fails: a ['%'] followed by two characters that are
    not both hexadecimal digits does not pass through, and the
    characters it consumes are not decoded on their own. *)
Lemma url_decode_pair_not_kept :
  is_hex "z" = false
  /\ url_decode 0 "%zz" = String NUL ""
  /\ url_decode 0 "%zz" <> "%zz"
  /\ url_decode 0 "%%41" = String NUL "1"
  /\ url_decode 0 "%%41" <> "%A".
Proof. repeat split; discriminate. Qed.

(** C4, amended.  The decoder, read from left to right: a ['%'] followed
    by two hexadecimal digits gives the character with that value, a
    ['+'] gives a space, every character other than these two stands
    for itself, and a ['%'] with fewer than two characters after it is
    left as it is.  A ['%'] with two characters after it always takes
    both and writes one character, whatever they are.  Decoding undoes
    the percent-encoding of ['%'], ['+'] and the space, and ["a%20b+c"]
    decodes to ["a b c"]. *)
Theorem url_decode_rules (stale : Z) :
  (forall h1 h2 v1 v2 rest,
      In (h1, v1) hex_table -> In (h2, v2) hex_table ->
      url_decode stale (String "%" (String h1 (String h2 rest)))
      = String (ascii_of_nat (16 * v1 + v2)) (url_decode stale rest))
  /\ (forall rest,
        url_decode stale (String "+" rest)
        = String " " (url_decode stale rest))
  /\ (forall c rest,
        c <> "%"%char -> c <> "+"%char ->
        url_decode stale (String c rest) = String c (url_decode stale rest))
  /\ url_decode stale "%" = "%"
  /\ (forall c,
        url_decode stale (String "%" (String c ""))
        = String "%" (url_decode stale (String c "")))
  /\ (forall a b rest,
        exists c,
          url_decode stale (String "%" (String a (String b rest)))
          = String c (url_decode stale rest))
  /\ (forall s, url_decode stale (percent_encode s) = s)
  /\ url_decode stale "a%20b+c" = "a b c".
Proof.
  repeat split.
  - intros h1 h2 v1 v2 rest H1 H2.
    rewrite url_decode_percent. f_equal.
    apply hex_pair_digits; now apply hex_table_val.
  - intros c rest. now apply url_decode_other.
  - intros a b rest. exists (hex_pair stale a b). reflexivity.
  - apply url_decode_encode.
Qed.

Lemma url_decode_rules_witness :
  url_decode 0 "%41%7e" = "A~"
  /\ url_decode 0 "x%" = "x%".
Proof.
  split.
  - apply (proj1 (url_decode_rules 0) "4"%char "1"%char 4 1 "%7e");
      cbn [hex_table In]; tauto.
  - apply (proj1 (proj2 (proj2 (url_decode_rules 0))) "x"%char "%");
      discriminate.
Defined.

(** A pair that begins with a sign is not read as 0. *)
Lemma url_decode_signed_pair :
  is_hex "+" = false
  /\ url_decode 0 "%+5" = String (ascii_of_nat 5) ""
  /\ url_decode 0 "%-1" = String (ascii_of_nat 255) ""
  /\ url_decode 0 "% 7" = String (ascii_of_nat 7) ""
  /\ String (ascii_of_nat 5) "" <> String NUL "".
Proof. repeat split; discriminate. Qed.

Lemma hex_pair_no_digit (stale : Z) (a b : ascii) :
  is_hex a = false -> isspace a = false -> is_sign a = false ->
  hex_pair stale a b = NUL.
Proof.
  destruct a as [[] [] [] [] [] [] [] []]; intros H1 H2 H3;
    try discriminate H1; try discriminate H2; try discriminate H3;
    reflexivity.
Qed.

Lemma hex_pair_one_digit (stale : Z) (a b : ascii) (v : nat) :
  hex_val a = Some v -> is_hex b = false ->
  hex_pair stale a b = ascii_of_nat v.
Proof.
  intros Ha Hb.
  assert (Hn : hex_val b = None).
  { unfold is_hex in Hb. destruct (hex_val b); [discriminate|reflexivity]. }
  assert (Hf : isspace a = false /\ Ascii.eqb a "-" = false
               /\ Ascii.eqb a "+" = false /\ v < 16
               /\ (Ascii.eqb a "0" = true -> v = 0)).
  { apply hex_val_table in Ha. unfold hex_table in Ha.
    in_cases Ha; repeat split; try lia; discriminate. }
  destruct Hf as (Hs & Hm & Hp & Hv & H0).
  unfold hex_pair, extract_hex.
  cbn [skip_space]. rewrite Hs. cbn [read_sign]. rewrite Hm, Hp.
  cbn [strip_0x].
  destruct (Ascii.eqb a "0" && (Ascii.eqb b "x" || Ascii.eqb b "X")) eqn:E.
  - apply andb_prop in E. destruct E as [E _]. rewrite (H0 E). reflexivity.
  - cbn [read_digits]. rewrite Ha. cbn [read_digits]. rewrite Hn.
    cbn [Nat.eqb]. unfold char_of_int, INT_MIN, INT_MAX.
    replace (Z.max (- 2 ^ 31) (Z.min (2 ^ 31 - 1) (16 * 0 + Z.of_nat v)))%Z
      with (Z.of_nat v) by lia.
    rewrite Z.mod_small by lia.
    unfold ascii_of_nat. now rewrite <- nat_N_Z, N2Z.id.
Qed.

Lemma hex_pair_after_space (stale : Z) (a b : ascii) (v : nat) :
  isspace a = true -> hex_val b = Some v ->
  hex_pair stale a b = ascii_of_nat v.
Proof.
  intros Ha Hb. apply hex_val_table in Hb. unfold hex_table in Hb.
  destruct a as [[] [] [] [] [] [] [] []]; try discriminate Ha;
    in_cases Hb; reflexivity.
Qed.

Lemma hex_pair_after_sign (stale : Z) (b : ascii) (v : nat) :
  hex_val b = Some v ->
  hex_pair stale "+" b = ascii_of_nat v
  /\ hex_pair stale "-" b = char_of_int (- Z.of_nat v).
Proof.
  intros Hb. apply hex_val_table in Hb. unfold hex_table in Hb.
  in_cases Hb; split; reflexivity.
Qed.

Lemma hex_pair_blank (stale : Z) (a b : ascii) :
  isspace a = true -> isspace b = true ->
  hex_pair stale a b = char_of_int stale.
Proof.
  intros Ha Hb. unfold hex_pair, extract_hex. cbn [skip_space].
  now rewrite Ha, Hb.
Qed.

(** C10, amended.  A ['%'] met by the decoder with two characters after
    it is consumed together with them and one character is written,
    whatever the two characters are.  That character is 0 when the first
    of the two is neither a hexadecimal digit, nor white space, nor a
    sign; it is the value of the first when this one is a digit and the
    second is not.  After white space or a sign a digit is still read:
    its value is written, negated after a minus sign.  When both are
    white space nothing is read, and the character written is whatever
    the variable held. *)
Theorem url_decode_malformed_pair (stale : Z) (a b : ascii) (rest : string) :
  url_decode stale (String "%" (String a (String b rest)))
  = String (hex_pair stale a b) (url_decode stale rest)
  /\ (is_hex a = false -> isspace a = false -> is_sign a = false ->
      hex_pair stale a b = NUL)
  /\ (forall v, hex_val a = Some v -> is_hex b = false ->
      hex_pair stale a b = ascii_of_nat v)
  /\ (forall v, hex_val b = Some v ->
      (isspace a = true \/ a = "+"%char -> hex_pair stale a b = ascii_of_nat v)
      /\ (a = "-"%char -> hex_pair stale a b = char_of_int (- Z.of_nat v)))
  /\ (isspace a = true -> isspace b = true ->
      hex_pair stale a b = char_of_int stale).
Proof.
  split; [reflexivity|]. split; [apply hex_pair_no_digit|].
  split; [intros v; apply hex_pair_one_digit|].
  split; [|apply hex_pair_blank].
  intros v Hv. split.
  - intros [Hs | ->]; [now apply hex_pair_after_space|].
    now apply hex_pair_after_sign.
  - intros ->. now apply hex_pair_after_sign.
Qed.

Lemma url_decode_malformed_pair_witness :
  hex_pair 0 "z" "9" = NUL
  /\ hex_pair 0 "4" "z" = ascii_of_nat 4.
Proof.
  split.
  - apply (proj1 (proj2 (url_decode_malformed_pair 0 "z" "9" "")));
      reflexivity.
  - apply (proj1 (proj2 (proj2 (url_decode_malformed_pair 0 "4" "z" ""))) 4);
      reflexivity.
Defined.

(** ** The response builder *)

Lemma fold_emit_header (hs : smap string) (oss : string) :
  fold_left emit_header hs oss = oss ++ render_headers hs.
Proof.
  revert oss. induction hs as [|[k v] hs IH]; intros oss; simpl.
  - now rewrite append_nil_r.
  - rewrite IH. unfold emit_header. cbn [fst snd render_headers].
    now rewrite !append_assoc.
Qed.

Lemma build_response_layout (r : HttpResponse) :
  build_response r
  = status_line r ++ CRLF ++ render_headers (headers r)
      ++ "Content-Length: " ++ size_to_string (announced_length r) ++ CRLF
      ++ CRLF ++ (if is_binary r then "" else body r).
Proof.
  unfold build_response, status_line, announced_length.
  rewrite fold_emit_header.
  destruct (is_binary r); cbn [negb]; rewrite !append_assoc;
    cbn [append]; rewrite ?append_nil_r; reflexivity.
Qed.

(** C8.  A response with status 200, status text ["OK"], text body
    ["ok"] and the binary flag unset is built as the line
    ["HTTP/1.1 200 OK"], the lines of its header mapping, the line
    ["Content-Length: 2"], an empty line and the body ["ok"]. *)
Theorem build_response_ok (hs : smap string) (bin : string) :
  build_response (mkHttpResponse 200 "OK" hs "ok" bin false)
  = "HTTP/1.1 200 OK" ++ CRLF ++ render_headers hs
      ++ "Content-Length: 2" ++ CRLF ++ CRLF ++ "ok".
Proof. rewrite build_response_layout. reflexivity. Qed.

(** C3, as stated, fails: with a [Content-Length] entry stored by the
    caller the built message carries two [Content-Length] lines, the
    caller's first. *)
Lemma build_response_duplicate :
  build_response preset_response
  = "HTTP/1.1 200 OK" ++ CRLF ++ "Content-Length: 99" ++ CRLF
      ++ "Content-Length: 2" ++ CRLF ++ CRLF ++ "ok"
  /\ count_headers "Content-Length" (build_response preset_response) = 2
  /\ count_headers "Content-Length" (build_response preset_response) <> 1.
Proof. repeat split. discriminate. Qed.

Lemma no_char_app (c : ascii) (s t : string) :
  no_char c (s ++ t) = no_char c s && no_char c t.
Proof.
  induction s as [|d s IH]; simpl; [reflexivity|].
  rewrite IH. now rewrite andb_assoc.
Qed.

Lemma no_cr_uint (d : Decimal.uint) :
  no_char CR (NilEmpty.string_of_uint d) = true.
Proof. induction d; simpl; auto. Qed.

Lemma no_cr_int_to_string (z : Z) : no_char CR (int_to_string z) = true.
Proof.
  unfold int_to_string, NilZero.string_of_int, NilZero.string_of_uint.
  destruct (Z.to_int z) as [d|d]; [|cbn [no_char]; cbn];
    destruct d; try reflexivity; apply (no_cr_uint (_ d)) || apply no_cr_uint.
Qed.

Lemma wire_lines_aux_line (l cur rest : string) :
  no_char CR l = true ->
  wire_lines_aux cur (l ++ CRLF ++ rest)
  = (cur ++ l) :: wire_lines_aux "" rest.
Proof.
  revert cur. induction l as [|c l IH]; intros cur H.
  - rewrite append_nil_r. reflexivity.
  - cbn [no_char] in H. apply andb_prop in H. destruct H as [Hc Hl].
    specialize (IH (cur ++ String c "") Hl).
    rewrite append_assoc in IH. cbn [append] in IH. rewrite <- IH.
    cbn [append wire_lines_aux].
    destruct (Ascii.eqb c CR); [discriminate Hc|].
    destruct l; reflexivity.
Qed.

Lemma find0_colon (k rest : string) :
  no_char ":" k = true ->
  find0 ":" (k ++ String ":" rest) = Some (String.length k).
Proof.
  induction k as [|c k IH]; intros H; [reflexivity|].
  cbn [no_char] in H. apply andb_prop in H. destruct H as [Hc Hk].
  cbn [append find0 starts_with String.length].
  rewrite Ascii.eqb_sym. destruct (Ascii.eqb c ":"); [discriminate Hc|].
  cbn [andb]. now rewrite (IH Hk).
Qed.

Lemma firstn_str_app (s t : string) : firstn_str (String.length s) (s ++ t) = s.
Proof. induction s as [|c s IH]; simpl; [now destruct t | now rewrite IH]. Qed.

Lemma skipn_str_app (s t : string) : skipn_str (String.length s) (s ++ t) = t.
Proof. induction s as [|c s IH]; simpl; [reflexivity | exact IH]. Qed.

Lemma header_name_line (k v : string) :
  no_char ":" k = true -> header_name (k ++ ": " ++ v) = k.
Proof.
  intros H. unfold header_name, find. cbn [Nat.leb skipn_str append].
  rewrite (find0_colon k _ H). cbn [option_map Nat.add].
  unfold substr. cbn [skipn_str]. apply firstn_str_app.
Qed.

(** The header block of a built message: the lines of the mapping, then
    the announced length. *)
Lemma header_block_render (hs : smap string) (last body : string) :
  Forall (fun h => no_char CR (fst h) = true
                   /\ no_char ":" (fst h) = true
                   /\ no_char CR (snd h) = true) hs ->
  no_char CR last = true -> last <> "" ->
  until_blank
    (wire_lines_aux "" (render_headers hs ++ last ++ CRLF ++ CRLF ++ body))
  = (map wire_header hs ++ [last])%list.
Proof.
  intros Hs Hl Hne. induction Hs as [|[k v] hs (Hk & _ & Hv) _ IH].
  - cbn [render_headers append map app].
    rewrite (wire_lines_aux_line last "" _ Hl). cbn [append until_blank].
    destruct (String.eqb_spec last ""); [contradiction|].
    reflexivity.
  - cbn [render_headers map app] in *. unfold wire_header at 1.
    cbn [fst snd] in *.
    replace ((k ++ ": " ++ v ++ CRLF ++ render_headers hs)
               ++ last ++ CRLF ++ CRLF ++ body)
      with ((k ++ ": " ++ v) ++ CRLF
              ++ (render_headers hs ++ last ++ CRLF ++ CRLF ++ body))
      by (now rewrite !append_assoc).
    rewrite wire_lines_aux_line.
    + cbn [until_blank append]. rewrite IH.
      destruct (String.eqb_spec (k ++ String ":" (String " " v)) "") as [E|_];
        [destruct k; discriminate E | reflexivity].
    + rewrite !no_char_app, Hk, Hv. reflexivity.
Qed.

Lemma count_named_lines (name : string) (hs : smap string) :
  Forall (fun h => no_char CR (fst h) = true
                   /\ no_char ":" (fst h) = true
                   /\ no_char CR (snd h) = true) hs ->
  filter (fun l => String.eqb (header_name l) name)
    (map wire_header hs)
  = map wire_header (entries_named name hs).
Proof.
  induction 1 as [|[k v] hs (_ & Hk & _) _ IH]; [reflexivity|].
  cbn [map filter entries_named] in *. unfold wire_header at 1.
  cbn [fst snd]. rewrite (header_name_line k v Hk).
  destruct (String.eqb k name); cbn [map]; now rewrite IH.
Qed.

(** C3, amended.  The built message is the status line, the lines of
    the header mapping in key order, then one [Content-Length] line
    computed at build time (the size of the binary payload when the
    binary flag is set, else the length of the text body), an empty line
    and the text body when the flag is unset.  When the status text and
    the header names and values hold no carriage return and the names
    hold no colon, the message read back from the wire has one
    [Content-Length] header more than the mapping has entries under
    that key: exactly one when the caller stored none, and the computed
    line is the last line of the header block. *)
Theorem build_response_content_length (r : HttpResponse) :
  build_response r
  = status_line r ++ CRLF ++ render_headers (headers r)
      ++ "Content-Length: " ++ size_to_string (announced_length r) ++ CRLF
      ++ CRLF ++ (if is_binary r then "" else body r)
  /\ (line_safe r ->
      count_headers "Content-Length" (build_response r)
      = S (List.length (entries_named "Content-Length" (headers r)))
      /\ last (header_block (build_response r)) ""
         = "Content-Length: " ++ size_to_string (announced_length r)).
Proof.
  split; [apply build_response_layout|].
  intros [Hst Hhs].
  assert (Hlast : no_char CR
            ("Content-Length: " ++ size_to_string (announced_length r)) = true).
  { rewrite no_char_app. unfold size_to_string, NilZero.string_of_uint.
    destruct (Nat.to_uint (announced_length r)); try reflexivity;
      apply (no_cr_uint (_ u)). }
  assert (Hblock : header_block (build_response r)
            = (map wire_header (headers r)
                ++ [("Content-Length: "
                       ++ size_to_string (announced_length r))%string])%list).
  { rewrite build_response_layout. unfold header_block, wire_lines.
    rewrite wire_lines_aux_line.
    - cbn [tl].
      replace (render_headers (headers r) ++ "Content-Length: "
                 ++ size_to_string (announced_length r) ++ CRLF ++ CRLF
                 ++ (if is_binary r then "" else body r))
        with (render_headers (headers r)
                ++ ("Content-Length: " ++ size_to_string (announced_length r))
                ++ CRLF ++ CRLF ++ (if is_binary r then "" else body r))
        by (now rewrite !append_assoc).
      apply header_block_render; [assumption | assumption | discriminate].
    - unfold status_line. rewrite !no_char_app, no_cr_int_to_string, Hst.
      reflexivity. }
  split.
  - unfold count_headers. rewrite Hblock, filter_app, length_app.
    rewrite count_named_lines by assumption. rewrite length_map.
    cbn [filter].
    replace (header_name
               ("Content-Length: " ++ size_to_string (announced_length r)))
      with "Content-Length"
      by (symmetry; apply (header_name_line "Content-Length" _ eq_refl)).
    cbn. lia.
  - rewrite Hblock. apply last_last.
Qed.

Lemma build_response_content_length_witness :
  count_headers "Content-Length"
    (build_response (mkHttpResponse 404 "Not Found"
                       [("Content-Type", "application/json")] "{}" "" false))
  = 1.
Proof.
  apply (proj2 (build_response_content_length
                  (mkHttpResponse 404 "Not Found"
                     [("Content-Type", "application/json")] "{}" "" false))).
  split; [reflexivity|].
  repeat constructor.
Defined.

(** ** Maps in key order *)

Lemma compare_refl (s : string) : String.compare s s = Eq.
Proof.
  induction s as [|c s IH]; [reflexivity|]. simpl.
  unfold Ascii.compare. now rewrite N.compare_refl.
Qed.

Lemma compare_eq (s t : string) : String.compare s t = Eq -> s = t.
Proof. apply String.compare_eq_iff. Qed.

Lemma compare_lt_trans (s t u : string) :
  String.compare s t = Lt -> String.compare t u = Lt ->
  String.compare s u = Lt.
Proof.
  revert t u. induction s as [|a s IH]; intros [|b t] [|c u]; simpl;
    try congruence.
  unfold Ascii.compare.
  destruct (N.compare_spec (N_of_ascii a) (N_of_ascii b)) as [Eab|Lab|Gab];
    try discriminate;
    destruct (N.compare_spec (N_of_ascii b) (N_of_ascii c)) as [Ebc|Lbc|Gbc];
    try discriminate; intros H1 H2.
  - rewrite Eab, Ebc, N.compare_refl. eauto.
  - rewrite Eab. now apply N.compare_lt_iff in Lbc as ->.
  - rewrite <- Ebc. now apply N.compare_lt_iff in Lab as ->.
  - assert (L : (N_of_ascii a < N_of_ascii c)%N) by lia.
    now apply N.compare_lt_iff in L as ->.
Qed.

Lemma compare_gt_lt (s t : string) :
  String.compare s t = Gt -> String.compare t s = Lt.
Proof. rewrite String.compare_antisym. now destruct (String.compare t s). Qed.

Lemma key_lt_neq (k k' : string) : key_lt k k' -> String.eqb k' k = false.
Proof.
  unfold key_lt. intros H. apply String.eqb_neq. intros ->.
  rewrite compare_refl in H. discriminate.
Qed.

Section MapFacts.

Context {V : Type}.
Implicit Types (m : smap V) (k : string) (v : V).

Lemma keys_above_trans k k' m :
  key_lt k k' -> keys_above k' m -> keys_above k m.
Proof.
  intros H. unfold keys_above. apply Forall_impl. intros e.
  now apply compare_lt_trans.
Qed.

Lemma keys_above_insert k0 k v m :
  key_lt k0 k -> keys_above k0 m -> keys_above k0 (map_insert k v m).
Proof.
  intros H. induction 1 as [|[k' v'] m Hk' Hm IH]; simpl.
  - repeat constructor. exact H.
  - destruct (String.compare k k'); repeat constructor; assumption.
Qed.

Lemma map_insert_ordered k v m : ordered m -> ordered (map_insert k v m).
Proof.
  induction 1 as [|k' v' m Hab Hm IH]; simpl.
  - repeat constructor.
  - destruct (String.compare k k') eqn:E.
    + apply compare_eq in E. subst k'. now constructor.
    + constructor; [|now constructor].
      constructor; [exact E|]. now apply keys_above_trans with k'.
    + constructor; [|exact IH].
      apply keys_above_insert; [|exact Hab]. now apply compare_gt_lt.
Qed.

Lemma map_find_insert_same k v m : map_find k (map_insert k v m) = Some v.
Proof.
  induction m as [|[k' v'] m IH]; simpl.
  - now rewrite String.eqb_refl.
  - destruct (String.compare k k') eqn:E; simpl.
    + now rewrite String.eqb_refl.
    + now rewrite String.eqb_refl.
    + apply compare_gt_lt in E. now rewrite (key_lt_neq _ _ E).
Qed.

Lemma map_find_insert_other k k' v m :
  k <> k' -> map_find k' (map_insert k v m) = map_find k' m.
Proof.
  intros Hne. apply not_eq_sym in Hne. apply String.eqb_neq in Hne.
  induction m as [|[k0 v0] m IH]; simpl.
  - now rewrite Hne.
  - destruct (String.compare k k0) eqn:E; simpl.
    + apply compare_eq in E. subst k0. now rewrite Hne.
    + now rewrite Hne.
    + now rewrite IH.
Qed.

Lemma entries_named_above k m : keys_above k m -> entries_named k m = [].
Proof.
  induction 1 as [|[k' v'] m Hk' Hm IH]; [reflexivity|].
  cbn [entries_named filter fst] in *. rewrite (key_lt_neq _ _ Hk').
  exact IH.
Qed.

Lemma entries_named_insert k v m :
  ordered m -> entries_named k (map_insert k v m) = [(k, v)].
Proof.
  induction 1 as [|k' v' m Hab Hm IH]; simpl.
  - now rewrite String.eqb_refl.
  - destruct (String.compare k k') eqn:E;
      cbn [entries_named filter fst].
    + apply compare_eq in E. subst k'. rewrite String.eqb_refl.
      f_equal. now apply entries_named_above.
    + rewrite String.eqb_refl. f_equal.
      rewrite (key_lt_neq _ _ E).
      apply entries_named_above. now apply keys_above_trans with k'.
    + apply compare_gt_lt in E. rewrite String.eqb_sym.
      rewrite (key_lt_neq _ _ E). exact IH.
Qed.

Lemma entries_named_unique k m :
  ordered m -> List.length (entries_named k m) <= 1.
Proof.
  induction 1 as [|k' v' m Hab Hm IH]; [simpl; lia|].
  cbn [entries_named filter fst].
  destruct (String.eqb_spec k' k) as [->|_]; [|exact IH].
  fold (entries_named k m). now rewrite entries_named_above.
Qed.

Lemma map_find_in k v m : map_find k m = Some v -> In (k, v) m.
Proof.
  induction m as [|[k' v'] m IH]; simpl; [discriminate|].
  destruct (String.eqb_spec k k') as [->|_].
  - intros [= ->]. now left.
  - intros H. right. now apply IH.
Qed.

Lemma in_map_find k v m : ordered m -> In (k, v) m -> map_find k m = Some v.
Proof.
  induction 1 as [|k' v' m Hab Hm IH]; simpl; [contradiction|].
  intros [[= -> ->]|Hin].
  - now rewrite String.eqb_refl.
  - unfold keys_above in Hab. rewrite Forall_forall in Hab.
    specialize (Hab _ Hin). cbn [fst] in Hab.
    rewrite (key_lt_neq _ _ Hab). now apply IH.
Qed.

Lemma forall_insert (P : string * V -> Prop) k v m :
  P (k, v) -> Forall P m -> Forall P (map_insert k v m).
Proof.
  intros Hk. induction 1 as [|[k' v'] m Hk' Hm IH]; simpl.
  - now repeat constructor.
  - destruct (String.compare k k'); repeat constructor; assumption.
Qed.

End MapFacts.

(** ** The route table *)

Section RouteFacts.

Context {H : Type}.
Implicit Types (routes : route_table H) (regs : list (registration H)).

Lemma inner_ordered routes (method : string) (inner : smap H) :
  table_ordered routes -> map_find method routes = Some inner ->
  ordered inner.
Proof.
  intros [_ Hin] Hf. apply map_find_in in Hf.
  rewrite Forall_forall in Hin. exact (Hin _ Hf).
Qed.

Lemma add_route_ordered routes (method path : string) (h : H) :
  table_ordered routes -> table_ordered (add_route routes method path h).
Proof.
  intros Hr. pose proof Hr as [Ho Hi]. unfold add_route. split.
  - now apply map_insert_ordered.
  - apply forall_insert; [|exact Hi]. cbn [snd].
    apply map_insert_ordered.
    destruct (map_find method routes) as [inner|] eqn:E.
    + now apply inner_ordered with routes method.
    + constructor.
Qed.

Lemma fold_register_ordered regs routes :
  table_ordered routes -> table_ordered (fold_left register regs routes).
Proof.
  revert routes. induction regs as [|r regs IH]; intros routes Hr;
    [exact Hr|].
  cbn [fold_left]. apply IH. now apply add_route_ordered.
Qed.

Lemma register_all_ordered regs : table_ordered (register_all regs).
Proof.
  apply fold_register_ordered. split; constructor.
Qed.

Lemma register_all_snoc regs (r : registration H) :
  register_all (regs ++ [r]) = register (register_all regs) r.
Proof. unfold register_all. now rewrite fold_left_app. Qed.

Lemma handlers_for_add_route routes (method path : string) (h : H) :
  table_ordered routes ->
  handlers_for (add_route routes method path h) method path = [h].
Proof.
  intros Hr. pose proof Hr as [Ho _]. unfold handlers_for, add_route.
  rewrite entries_named_insert by exact Ho.
  cbn [flat_map snd]. rewrite entries_named_insert; [reflexivity|].
  destruct (map_find method routes) as [inner|] eqn:E.
  - now apply inner_ordered with routes method.
  - constructor.
Qed.

Lemma handlers_for_unique routes (method path : string) :
  table_ordered routes ->
  List.length (handlers_for routes method path) <= 1.
Proof.
  intros [Ho Hi]. unfold handlers_for.
  pose proof (entries_named_unique method routes Ho) as Hu.
  assert (Hsub : Forall (fun e => ordered (snd e))
                   (entries_named method routes)).
  { unfold entries_named. rewrite Forall_forall in *. intros e He.
    apply filter_In in He. now apply Hi. }
  destruct (entries_named method routes) as [|e [|e' l]];
    cbn [flat_map List.length] in *; try lia.
  rewrite app_nil_r, length_map. apply entries_named_unique.
  now inversion Hsub.
Qed.

(** C9.  The table holds at most one handler for a method and a
    template; after [add_route(M, T, h1)] and a later
    [add_route(M, T, h2)], whatever is registered before, between and
    besides, [h2] is the only handler held for [(M, T)]. *)
Theorem add_route_replaces (pre mid : list (registration H))
  (M T : string) (h1 h2 : H) :
  handlers_for (register_all (pre ++ (M, T, h1) :: mid ++ [(M, T, h2)])) M T
  = [h2]
  /\ forall regs method path,
       List.length (handlers_for (register_all regs) method path) <= 1.
Proof.
  split.
  - replace (pre ++ (M, T, h1) :: mid ++ [(M, T, h2)])%list
      with ((pre ++ (M, T, h1) :: mid) ++ [(M, T, h2)])%list
      by (now rewrite <- app_assoc).
    rewrite register_all_snoc. unfold register. cbn [fst snd].
    apply handlers_for_add_route, register_all_ordered.
  - intros regs method path.
    apply handlers_for_unique, register_all_ordered.
Qed.

End RouteFacts.

(** ** Precedence among the matching routes *)

Lemma leb_compare (s t : string) :
  String.leb s t = true <-> String.compare s t <> Gt.
Proof.
  unfold String.leb. destruct (String.compare s t); split; congruence.
Qed.

Section Precedence.

Context {H : Type}.
Implicit Types (routes : route_table H) (regs : list (registration H)).

(** The outer loop runs the inner loop on the routes of the request's
    method, the one entry stored under that key. *)
Lemma find_route_above routes (method request_path : string) :
  keys_above method routes ->
  find_route routes method request_path = NotFound.
Proof.
  induction 1 as [|[m inner] routes Hm Hr IH]; [reflexivity|].
  cbn [find_route]. cbn [fst] in Hm. now rewrite (key_lt_neq _ _ Hm).
Qed.

Lemma find_route_method routes (method request_path : string) :
  ordered routes ->
  find_route routes method request_path
  = match map_find method routes with
    | Some inner => match_routes inner request_path
    | None => NotFound
    end.
Proof.
  induction 1 as [|m inner routes Hab Hr IH]; [reflexivity|].
  cbn [find_route map_find]. rewrite (String.eqb_sym method m).
  destruct (String.eqb_spec m method) as [->|_]; [|exact IH].
  rewrite (find_route_above routes method request_path Hab).
  now destruct (match_routes inner request_path).
Qed.

(** On a map in key order the inner loop returns the handler of the
    matching template that is least in that order. *)
Lemma match_routes_least (inner : smap H) (request_path T : string) (h : H) :
  ordered inner ->
  (forall T' h', In (T', h') inner -> route_matches T' request_path <> None) ->
  In (T, h) inner ->
  route_matches T request_path = Some true ->
  (forall T' h', In (T', h') inner ->
                 route_matches T' request_path = Some true ->
                 String.leb T T' = true) ->
  match_routes inner request_path = Invoked h.
Proof.
  induction 1 as [|k v m Hab Hm IH]; intros Hfrag Hin Hmatch Hleast;
    [contradiction|].
  cbn [match_routes].
  destruct (route_matches k request_path) as [[|]|] eqn:Ek.
  - destruct Hin as [[= -> ->]|Hin]; [reflexivity|].
    exfalso. unfold keys_above in Hab. rewrite Forall_forall in Hab.
    specialize (Hab _ Hin). cbn [fst] in Hab.
    specialize (Hleast k v (or_introl eq_refl) Ek).
    apply leb_compare in Hleast. apply Hleast.
    rewrite String.compare_antisym. unfold key_lt in Hab. now rewrite Hab.
  - destruct Hin as [[= -> ->]|Hin]; [congruence|].
    apply IH; try assumption.
    + intros T' h' H'. apply (Hfrag T' h'). now right.
    + intros T' h' H'. apply (Hleast T' h'). now right.
  - exfalso. now apply (Hfrag k v (or_introl eq_refl)).
Qed.

Lemma match_routes_invoked (inner : smap H) (request_path : string) (h : H) :
  ordered inner ->
  match_routes inner request_path = Invoked h ->
  exists T, In (T, h) inner
            /\ route_matches T request_path = Some true
            /\ forall T' h', In (T', h') inner ->
                             route_matches T' request_path = Some true ->
                             String.leb T T' = true.
Proof.
  induction 1 as [|k v m Hab Hm IH]; [discriminate|].
  cbn [match_routes].
  destruct (route_matches k request_path) as [[|]|] eqn:Ek; [| |discriminate].
  - intros [= ->]. exists k. split; [now left|]. split; [exact Ek|].
    intros T' h' [[= <- <-]|Hin] _.
    + apply leb_compare. now rewrite compare_refl.
    + unfold keys_above in Hab. rewrite Forall_forall in Hab.
      specialize (Hab _ Hin). cbn [fst] in Hab. apply leb_compare.
      unfold key_lt in Hab. now rewrite Hab.
  - intros Hr. destruct (IH Hr) as (T & Hin & HT & Hleast).
    exists T. split; [now right|]. split; [exact HT|].
    intros T' h' [[= <- <-]|Hin'] HT'; [congruence|].
    now apply (Hleast T' h').
Qed.

Lemma match_routes_not_found (inner : smap H) (request_path : string) :
  match_routes inner request_path = NotFound ->
  forall T h, In (T, h) inner -> route_matches T request_path = Some false.
Proof.
  induction inner as [|[k v] m IH]; [contradiction|].
  cbn [match_routes].
  destruct (route_matches k request_path) as [[|]|] eqn:Ek;
    try discriminate.
  intros Hr T h [[= <- <-]|Hin]; [exact Ek|]. now apply (IH Hr T h).
Qed.

(** What the table holds is what was registered last. *)
Lemma lookup_add_route routes (m p method path : string) (h : H) :
  lookup_route (add_route routes m p h) method path
  = if String.eqb m method && String.eqb p path then Some h
    else lookup_route routes method path.
Proof.
  unfold lookup_route, add_route.
  destruct (String.eqb_spec m method) as [->|Hm]; cbn [andb].
  - rewrite map_find_insert_same.
    destruct (String.eqb_spec p path) as [->|Hp].
    + apply map_find_insert_same.
    + rewrite map_find_insert_other by exact Hp.
      now destruct (map_find method routes).
  - now rewrite map_find_insert_other by exact Hm.
Qed.

Lemma lookup_fold_register regs routes (method path : string) :
  lookup_route (fold_left register regs routes) method path
  = fold_left
      (fun acc r =>
         if String.eqb (fst (fst r)) method && String.eqb (snd (fst r)) path
         then Some (snd r) else acc)
      regs (lookup_route routes method path).
Proof.
  revert routes. induction regs as [|r regs IH]; intros routes;
    [reflexivity|].
  cbn [fold_left]. rewrite IH. unfold register.
  now rewrite lookup_add_route.
Qed.

Lemma lookup_register_all regs (method path : string) :
  lookup_route (register_all regs) method path
  = last_registered regs method path.
Proof. apply lookup_fold_register. Qed.

Lemma lookup_route_in routes (method path : string) (h : H) :
  table_ordered routes ->
  lookup_route routes method path = Some h <->
  exists inner, map_find method routes = Some inner /\ In (path, h) inner.
Proof.
  intros Hr. unfold lookup_route. split.
  - destruct (map_find method routes) as [inner|]; [|discriminate].
    intros Hf. exists inner. split; [reflexivity|]. now apply map_find_in.
  - intros (inner & Hf & Hin). rewrite Hf. apply in_map_find; [|exact Hin].
    now apply inner_ordered with routes method.
Qed.

Lemma match_routes_none (inner : smap H) (request_path : string) :
  (forall T h, In (T, h) inner -> route_matches T request_path = Some false) ->
  match_routes inner request_path = NotFound.
Proof.
  induction inner as [|[k v] m IH]; intros Hall; [reflexivity|].
  cbn [match_routes]. rewrite (Hall k v (or_introl eq_refl)).
  apply IH. intros T h Hin. apply (Hall T h). now right.
Qed.


End Precedence.



(** ** The read loop *)

Lemma read_body_done (sock : socket) (request_str : string)
  (body_received content_length : N) :
  (content_length <= body_received)%N ->
  read_body sock request_str body_received content_length
  = (request_str, sock).
Proof.
  intros Hle. apply N.ltb_ge in Hle.
  destruct sock; cbn [read_body]; now rewrite Hle.
Qed.




(** C2 fails on a body with a NUL byte: three body bytes are announced,
    the second read brings ["a"], NUL, ["b"]; the loop counts three
    bytes and stops, but only ["a"] was appended, and the read that
    would bring more is not made. *)
Lemma read_stops_short_on_nul :
  declared_length post_head = Some 3%N
  /\ receive_request nul_socket = Some (post_head ++ "a", ["cd"])
  /\ body_of (post_head ++ "a") = "a"
  /\ (N.of_nat (String.length (body_of (post_head ++ "a"))) < 3)%N.
Proof. repeat split. Qed.

Lemma c_str_nul_free (s : string) : no_char NUL s = true -> c_str s = s.
Proof.
  induction s as [|c s IH]; [reflexivity|]. cbn [no_char c_str].
  destruct (Ascii.eqb c NUL); [discriminate|]. cbn [negb andb].
  intros Hs. now rewrite IH.
Qed.

(** Without NUL bytes the loop does what C2 says.  The reads made are
    [taken]; each brought bytes and was made while the count was short
    of the announced length; their bytes are appended in order; and the
    loop ends because the length is reached, because a read returned
    nothing, or because the peer has closed. *)
Lemma read_body_nul_free (sock : socket) (request_str : string)
  (body_received content_length : N) :
  Forall (fun b => no_char NUL b = true) sock ->
  exists taken unread,
    sock = (taken ++ unread)%list
    /\ Forall (fun b => b <> "") taken
    /\ fst (read_body sock request_str body_received content_length)
       = request_str ++ received taken
    /\ (forall pre b post,
           taken = (pre ++ b :: post)%list ->
           (body_received + N.of_nat (String.length (received pre))
            < content_length)%N)
    /\ (((content_length
          <= body_received + N.of_nat (String.length (received taken)))%N
         /\ snd (read_body sock request_str body_received content_length)
            = unread)
        \/ (exists rest,
               unread = "" :: rest
               /\ snd (read_body sock request_str body_received content_length)
                  = rest)
        \/ (unread = []
            /\ snd (read_body sock request_str body_received content_length)
               = [])).
Proof.
  assert (Hnone : forall (pre : list string) b post,
             [] = (pre ++ b :: post)%list -> False).
  { intros pre b post Hp. now destruct pre. }
  revert request_str body_received.
  induction sock as [|b sock IH]; intros request_str body_received Hnul.
  - exists [], []. cbn [read_body received app].
    destruct (body_received <? content_length)%N; cbn [fst snd];
      rewrite append_nil_r;
      (split; [reflexivity|]); (split; [constructor|]);
      (split; [reflexivity|]);
      (split; [intros pre b post Hp; now apply Hnone in Hp|]);
      right; right; now split.
  - cbn [read_body].
    destruct (body_received <? content_length)%N eqn:E.
    + destruct b as [|c b].
      * exists [], ("" :: sock).
        cbn [String.length Nat.eqb received app fst snd].
        rewrite append_nil_r.
        split; [reflexivity|]. split; [constructor|]. split; [reflexivity|].
        split; [intros pre b post Hp; now apply Hnone in Hp|].
        right. left. now exists sock.
      * cbn [String.length Nat.eqb].
        inversion Hnul as [|? ? Hb Hs]; subst.
        rewrite (c_str_nul_free _ Hb).
        destruct (IH (request_str ++ String c b)
                    (body_received + N.of_nat (S (String.length b)))%N Hs)
          as (taken & unread & Hsplit & Hne & Hfst & Hmin & Hend).
        exists (String c b :: taken), unread.
        cbn [received app]. rewrite Hsplit at 1.
        split; [reflexivity|]. split; [constructor; [discriminate|exact Hne]|].
        split; [now rewrite Hfst, append_assoc|].
        split.
        { intros pre b0 post Hp. destruct pre as [|p pre].
          - cbn [received String.length]. apply N.ltb_lt in E. lia.
          - cbn [app] in Hp. injection Hp as <- Hp.
            specialize (Hmin pre b0 post Hp). cbn [received].
            rewrite length_append. cbn [String.length] in *. lia. }
        rewrite length_append. cbn [String.length] in *.
        destruct Hend as [[Hle Hsnd]|[(rest & Hu & Hsnd)|[Hu Hsnd]]].
        -- left. split; [lia|exact Hsnd].
        -- right. left. now exists rest.
        -- right. right. now split.
    + exists [], (b :: sock). cbn [received app fst snd].
      rewrite append_nil_r.
      split; [reflexivity|]. split; [constructor|]. split; [reflexivity|].
      split; [intros pre b0 post Hp; now apply Hnone in Hp|].
      left. split; [|reflexivity]. apply N.ltb_ge in E.
      cbn [String.length]. lia.
Qed.

(** *** Searching in a text that grows *)

Lemma starts_with_length (p s : string) :
  starts_with p s = true -> String.length p <= String.length s.
Proof.
  revert s. induction p as [|a p IH]; intros [|b s]; cbn; try lia;
    try discriminate.
  intros Hs. apply andb_prop in Hs. destruct Hs as [_ Hs].
  apply IH in Hs. lia.
Qed.

Lemma starts_with_app (p s t : string) :
  starts_with p s = true -> starts_with p (s ++ t) = true.
Proof.
  revert s. induction p as [|a p IH]; intros [|b s]; cbn; try reflexivity;
    try discriminate.
  intros Hs. apply andb_prop in Hs. destruct Hs as [-> Hs].
  now rewrite (IH _ Hs).
Qed.

Lemma starts_with_app_inv (p s t : string) :
  starts_with p (s ++ t) = true -> String.length p <= String.length s ->
  starts_with p s = true.
Proof.
  revert s. induction p as [|a p IH]; intros [|b s]; cbn; try reflexivity;
    try lia.
  intros Hs Hl. apply andb_prop in Hs. destruct Hs as [-> Hs].
  apply IH; [exact Hs | lia].
Qed.

Lemma find0_bound (p s : string) (i : nat) :
  find0 p s = Some i -> i + String.length p <= String.length s.
Proof.
  revert i. induction s as [|c s IH]; intros i; cbn [find0].
  - destruct (starts_with p "") eqn:E; [|discriminate].
    intros [= <-]. now apply starts_with_length in E.
  - destruct (starts_with p (String c s)) eqn:E.
    + intros [= <-]. now apply starts_with_length in E.
    + destruct (find0 p s) as [j|]; [|discriminate].
      intros [= <-]. specialize (IH j eq_refl). cbn [String.length]. lia.
Qed.

Lemma find0_app (p s t : string) (i : nat) :
  find0 p s = Some i -> find0 p (s ++ t) = Some i.
Proof.
  revert i. induction s as [|c s IH]; intros i.
  - cbn [find0]. destruct (starts_with p "") eqn:E; [|discriminate].
    intros [= <-]. destruct p; [|discriminate E].
    now destruct t.
  - cbn [find0 append].
    destruct (starts_with p (String c s)) eqn:E.
    + intros [= <-].
      change (String c (s ++ t)) with (String c s ++ t).
      now rewrite (starts_with_app _ _ t E).
    + destruct (find0 p s) as [j|] eqn:Ej; [|discriminate].
      intros [= <-]. rewrite (IH j eq_refl).
      destruct (starts_with p (String c (s ++ t))) eqn:E'; [|reflexivity].
      apply find0_bound in Ej.
      change (String c (s ++ t)) with (String c s ++ t) in E'.
      apply starts_with_app_inv in E'; [congruence|].
      cbn [String.length]. lia.
Qed.

Lemma skipn_str_app_le (n : nat) (s t : string) :
  n <= String.length s -> skipn_str n (s ++ t) = skipn_str n s ++ t.
Proof.
  revert s. induction n as [|n IH]; intros s Hn; [reflexivity|].
  destruct s as [|c s]; cbn [String.length] in Hn; [lia|].
  cbn [skipn_str append]. apply IH. lia.
Qed.

Lemma length_skipn_str (n : nat) (s : string) :
  String.length (skipn_str n s) = String.length s - n.
Proof.
  revert s. induction n as [|n IH]; intros s; cbn [skipn_str]; [lia|].
  destruct s as [|c s]; [reflexivity|]. cbn [String.length]. apply IH.
Qed.

Lemma find_zero (s p : string) : find s p 0 = find0 p s.
Proof.
  unfold find. cbn [Nat.leb skipn_str]. now destruct (find0 p s).
Qed.

(** The body of a request text grows by what is appended to it. *)
Lemma body_of_app (request_str more : string) (header_end : nat) :
  find request_str (CRLF ++ CRLF) 0 = Some header_end ->
  body_of (request_str ++ more) = body_of request_str ++ more.
Proof.
  intros Hf. unfold body_of. rewrite Hf. rewrite find_zero in *.
  rewrite (find0_app _ _ more _ Hf). unfold substr_from.
  apply skipn_str_app_le. apply find0_bound in Hf. cbn in Hf. lia.
Qed.

(** From the first read on, for a request without NUL bytes whose
    header block is complete in the first read and announces a length:
    the handler reads on while the body is shorter than announced, and
    the body of the text handed to the parser is the body of the first
    read followed by the bytes of the reads made. *)
Lemma receive_request_nul_free (buffer : string) (sock : socket)
  (content_length : N) (header_end : nat) :
  buffer <> "" ->
  Forall (fun b => no_char NUL b = true) (buffer :: sock) ->
  declared_length buffer = Some content_length ->
  find buffer (CRLF ++ CRLF) 0 = Some header_end ->
  exists taken unread request_str rest,
    receive_request (buffer :: sock) = Some (request_str, rest)
    /\ sock = (taken ++ unread)%list
    /\ Forall (fun b => b <> "") taken
    /\ request_str = buffer ++ received taken
    /\ body_of request_str = body_of buffer ++ received taken
    /\ (forall pre b post,
           taken = (pre ++ b :: post)%list ->
           (N.of_nat (String.length (body_of buffer ++ received pre))
            < content_length)%N)
    /\ (((content_length <= N.of_nat (String.length (body_of request_str)))%N
         /\ rest = unread)
        \/ (exists rest', unread = "" :: rest' /\ rest = rest')
        \/ (unread = [] /\ rest = [])).
Proof.
  intros Hne Hnul Hdecl Hend.
  inversion Hnul as [|? ? Hb Hs]; subst.
  pose proof (read_body_nul_free sock buffer
                (N.of_nat (String.length buffer - (header_end + 4)))
                content_length Hs)
    as (taken & unread & Hsplit & Hnz & Hfst & Hmin & Hfin).
  destruct (read_body sock buffer
              (N.of_nat (String.length buffer - (header_end + 4)))
              content_length) as [request_str rest] eqn:Hrb.
  cbn [fst snd] in *.
  assert (Hbody : String.length (body_of buffer)
                  = String.length buffer - (header_end + 4)).
  { unfold body_of. rewrite Hend. unfold substr_from.
    apply length_skipn_str. }
  exists taken, unread, request_str, rest.
  split.
  { cbn [receive_request]. destruct buffer as [|c b]; [contradiction|].
    cbn [String.length Nat.eqb]. rewrite (c_str_nul_free _ Hb).
    rewrite Hdecl, Hend. now rewrite <- Hrb. }
  split; [exact Hsplit|]. split; [exact Hnz|]. split; [exact Hfst|].
  assert (Hbo : body_of request_str = body_of buffer ++ received taken).
  { rewrite Hfst. now apply body_of_app with header_end. }
  split; [exact Hbo|].
  split.
  { intros pre b post Hp. specialize (Hmin pre b post Hp).
    rewrite length_append, Hbody. lia. }
  rewrite Hbo, length_append, Hbody.
  destruct Hfin as [[Hle Hr]|[(rest' & Hu & Hr)|[Hu Hr]]].
  - left. split; [lia | exact Hr].
  - right. left. now exists rest'.
  - right. right. now split.
Qed.

(** ** Matching a path against a template *)

(** *** From the template to the pattern *)

Lemma replace_skip (s rest : string) :
  replace_params_aux (String.length s) (s ++ rest)
  = replace_params_aux 0 rest.
Proof. induction s as [|c s IH]; [reflexivity | exact IH]. Qed.

Lemma to_close_name (name rest : string) :
  no_char "}" name = true ->
  to_close (name ++ String "}" rest) = Some (S (String.length name)).
Proof.
  induction name as [|c name IH]; intros Hn; [reflexivity|].
  cbn [no_char] in Hn. apply andb_prop in Hn. destruct Hn as [Hc Hn].
  cbn [append to_close String.length].
  destruct (Ascii.eqb c "}"); [discriminate Hc|].
  now rewrite (IH Hn).
Qed.

Lemma replace_param (name rest : string) :
  name <> "" -> no_char "}" name = true ->
  replace_params_aux 0 (String "{" (name ++ String "}" rest))
  = wildcard ++ replace_params_aux 0 rest.
Proof.
  intros Hne Hn. cbn [replace_params_aux].
  change (Ascii.eqb "{" "{") with true. cbn iota.
  assert (Hlen : param_len (name ++ String "}" rest)
                 = Some (String.length (name ++ "}"))).
  { destruct name as [|c name]; [contradiction|].
    cbn [no_char] in Hn. apply andb_prop in Hn. destruct Hn as [Hc Hn].
    cbn [append param_len String.length].
    destruct (Ascii.eqb c "}"); [discriminate Hc|].
    rewrite (to_close_name _ _ Hn). cbn [option_map].
    rewrite length_append. cbn [String.length]. f_equal. lia. }
  rewrite Hlen.
  replace (name ++ String "}" rest) with ((name ++ "}") ++ rest)
    by (now rewrite append_assoc).
  now rewrite replace_skip.
Qed.

Lemma not_meta (c : ascii) :
  is_meta c = false ->
  Ascii.eqb c "^" = false /\ Ascii.eqb c "$" = false
  /\ Ascii.eqb c "." = false /\ Ascii.eqb "(" c = false
  /\ Ascii.eqb c "{" = false.
Proof.
  destruct c as [[] [] [] [] [] [] [] []]; vm_compute; intros Hm;
    try discriminate Hm; repeat split.
Qed.

Lemma replace_text (text rest : string) :
  plain text = true ->
  replace_params_aux 0 (text ++ rest) = text ++ replace_params_aux 0 rest.
Proof.
  induction text as [|c text IH]; intros Hp; [reflexivity|].
  cbn [plain] in Hp. apply andb_prop in Hp. destruct Hp as [Hc Hp].
  apply andb_prop in Hc. destruct Hc as [Hm _].
  apply negb_true_iff in Hm. apply not_meta in Hm.
  destruct Hm as (_ & _ & _ & _ & Hb).
  cbn [append replace_params_aux]. rewrite Hb. now rewrite (IH Hp).
Qed.

Lemma replace_slash (rest : string) :
  replace_params_aux 0 (String "/" rest)
  = String "/" (replace_params_aux 0 rest).
Proof. reflexivity. Qed.

Lemma replace_render (segs : list segment) (rest : string) :
  Forall segment_ok segs ->
  replace_params_aux 0 (render_template segs ++ rest)
  = pattern_of segs ++ replace_params_aux 0 rest.
Proof.
  induction 1 as [|[text|name] segs Hok _ IH]; [reflexivity| |];
    cbn [render_template pattern_of segment_ok] in *.
  - rewrite !append_assoc. cbn [append]. rewrite replace_slash.
    rewrite (replace_text _ _ Hok). now rewrite IH.
  - destruct Hok as [Hne Hn].
    rewrite !append_assoc. cbn [append]. rewrite replace_slash.
    rewrite (replace_param _ _ Hne Hn). now rewrite IH.
Qed.

(** *** From the pattern to the tokens *)

Lemma option_map_app (c : retok) (l : list retok)
  (r : option (list retok)) :
  option_map (cons c) (option_map (app l) r)
  = option_map (app (c :: l)) r.
Proof. now destruct r. Qed.

Lemma compile_text (text rest : string) :
  plain text = true ->
  regex_compile_aux 0 (text ++ rest)
  = option_map (app (chars text)) (regex_compile_aux 0 rest).
Proof.
  induction text as [|c text IH]; intros Hp.
  - cbn [append chars app]. now destruct (regex_compile_aux 0 rest).
  - cbn [plain] in Hp. apply andb_prop in Hp. destruct Hp as [Hc Hp].
    apply andb_prop in Hc. destruct Hc as [Hm _].
    apply negb_true_iff in Hm. pose proof (not_meta _ Hm)
      as (H1 & H2 & H3 & H4 & _).
    cbn [append regex_compile_aux chars].
    unfold wildcard at 1. cbn [starts_with]. rewrite H4. cbn [andb].
    rewrite H1, H2, H3, Hm, (IH Hp). apply option_map_app.
Qed.

Lemma compile_slash (rest : string) :
  regex_compile_aux 0 (String "/" rest)
  = option_map (cons (RChar "/")) (regex_compile_aux 0 rest).
Proof. reflexivity. Qed.

Lemma compile_wildcard (rest : string) :
  regex_compile_aux 0 (wildcard ++ rest)
  = option_map (cons RSeg) (regex_compile_aux 0 rest).
Proof. reflexivity. Qed.

Lemma compile_pattern (segs : list segment) (rest : string) :
  Forall segment_ok segs ->
  regex_compile_aux 0 (pattern_of segs ++ rest)
  = option_map (app (tokens_of segs)) (regex_compile_aux 0 rest).
Proof.
  induction 1 as [|[text|name] segs Hok _ IH];
    cbn [pattern_of tokens_of segment_ok] in *.
  - cbn [append app]. now destruct (regex_compile_aux 0 rest).
  - rewrite !append_assoc. cbn [append]. rewrite compile_slash.
    rewrite (compile_text _ _ Hok), IH.
    destruct (regex_compile_aux 0 rest); cbn [option_map]; [|reflexivity].
    cbn [app]. now rewrite app_assoc.
  - rewrite !append_assoc. cbn [append]. rewrite compile_slash.
    change (String "(" (String "[" (String "^" (String "/" (String "]"
             (String "+" (String ")" (pattern_of segs ++ rest))))))))
      with (wildcard ++ pattern_of segs ++ rest).
    rewrite compile_wildcard, IH.
    now destruct (regex_compile_aux 0 rest).
Qed.

Lemma route_captures_tokens (segs : list segment) (request_path : string) :
  Forall segment_ok segs ->
  route_captures (render_template segs) request_path
  = Some (re_match (tokens_of segs ++ [REnd]) true request_path).
Proof.
  intros Hok. unfold route_captures, regex_compile, replace_params.
  replace (render_template segs) with (render_template segs ++ "")
    by apply append_nil_r.
  rewrite (replace_render _ _ Hok). cbn [replace_params_aux].
  rewrite append_nil_r.
  change ("^" ++ pattern_of segs ++ "$")
    with (String "^" (pattern_of segs ++ "$")).
  change (regex_compile_aux 0 (String "^" (pattern_of segs ++ "$")))
    with (option_map (cons RBegin) (regex_compile_aux 0 (pattern_of segs ++ "$"))).
  rewrite (compile_pattern _ _ Hok). reflexivity.
Qed.

(** *** From the tokens to the segments of the path *)

Lemma chars_match (c : ascii) (text : string) (toks : list retok)
  (at_start : bool) (s : string) (caps : list string) :
  re_match (RChar c :: chars text ++ toks) at_start s = Some caps
  <-> exists rest, s = String c (text ++ rest)
                   /\ re_match toks false rest = Some caps.
Proof.
  revert c at_start s. induction text as [|a text IH]; intros c at_start s.
  - cbn [chars app re_match append]. destruct s as [|d s].
    + split; [discriminate | intros (rest & [=] & _)].
    + destruct (Ascii.eqb_spec c d) as [->|Hne].
      * split; [intros Hm; now exists s|].
        now intros (rest & [= <-] & Hm).
      * split; [discriminate|]. intros (rest & [= <- _] & _).
        contradiction.
  - cbn [chars app append].
    change (re_match (RChar c :: RChar a :: (chars text ++ toks)%list)
              at_start s)
      with (match s with
            | EmptyString => None
            | String d s' =>
                if Ascii.eqb c d
                then re_match (RChar a :: chars text ++ toks) false s'
                else None
            end).
    destruct s as [|d s].
    + split; [discriminate | intros (rest & [=] & _)].
    + destruct (Ascii.eqb_spec c d) as [->|Hne].
      * rewrite IH. split.
        -- intros (rest & -> & Hm). now exists rest.
        -- intros (rest & [= ->] & Hm). now exists rest.
      * split; [discriminate|]. intros (rest & [= <- _] & _).
        contradiction.
Qed.

Lemma segment_split_unique (p1 p2 r1 r2 : string) :
  p1 ++ r1 = p2 ++ r2 ->
  no_char "/" p1 = true -> no_char "/" p2 = true ->
  (r1 = "" \/ exists r, r1 = String "/" r) ->
  (r2 = "" \/ exists r, r2 = String "/" r) ->
  p1 = p2 /\ r1 = r2.
Proof.
  revert p2. induction p1 as [|a p1 IH]; intros [|b p2] He H1 H2 G1 G2;
    cbn [append no_char] in *.
  - now split.
  - exfalso. apply andb_prop in H2. destruct H2 as [Hb _].
    destruct G1 as [->|(r & ->)]; [discriminate He|].
    injection He as <- _. discriminate Hb.
  - exfalso. apply andb_prop in H1. destruct H1 as [Ha _].
    destruct G2 as [->|(r & ->)]; [discriminate He|].
    injection He as -> _. discriminate Ha.
  - injection He as -> He.
    apply andb_prop in H1. destruct H1 as [_ H1].
    apply andb_prop in H2. destruct H2 as [_ H2].
    destruct (IH p2 He H1 H2 G1 G2) as [-> ->]. now split.
Qed.

(** The group, when what follows it in the pattern only matches the
    empty text or a text that begins with a slash: it takes the whole
    of a segment. *)
Lemma seg_match_spec (k : string -> option (list string)) :
  (forall rest caps, k rest = Some caps ->
                     rest = "" \/ exists r, rest = String "/" r) ->
  forall s cur caps,
    seg_match k cur s = Some caps
    <-> exists p rest caps',
        s = p ++ rest /\ p <> "" /\ no_char "/" p = true
        /\ k rest = Some caps' /\ caps = (cur ++ p) :: caps'.
Proof.
  intros Hguard. induction s as [|d s IH]; intros cur caps.
  - cbn [seg_match]. split; [discriminate|].
    intros (p & rest & caps' & Hs & Hne & _).
    destruct p; [contradiction | discriminate Hs].
  - cbn [seg_match]. destruct (Ascii.eqb_spec d "/") as [->|Hd].
    + split; [discriminate|].
      intros (p & rest & caps' & Hs & Hne & Hp & _).
      destruct p as [|c p]; [contradiction|].
      injection Hs as <- _. discriminate Hp.
    + destruct (seg_match k (cur ++ String d "") s) as [caps0|] eqn:E.
      * apply IH in E.
        destruct E as (p & rest & caps' & -> & Hne & Hp & Hk & ->).
        split.
        -- intros [= <-]. exists (String d p), rest, caps'.
           split; [reflexivity|]. split; [discriminate|].
           split.
           { cbn [no_char]. destruct (Ascii.eqb_spec d "/");
               [contradiction | exact Hp]. }
           split; [exact Hk|]. now rewrite append_assoc.
        -- intros (p1 & rest1 & caps1 & Hs & Hne1 & Hp1 & Hk1 & ->).
           destruct p1 as [|c p1]; [contradiction|].
           injection Hs as <- Hs.
           assert (Hsame : p1 = p /\ rest1 = rest).
           { cbn [no_char] in Hp1. apply andb_prop in Hp1.
             destruct Hp1 as [_ Hp1].
             apply (segment_split_unique p1 p rest1 rest); eauto. }
           destruct Hsame as [-> ->]. rewrite Hk in Hk1.
           injection Hk1 as <-. now rewrite append_assoc.
      * split.
        -- destruct (k s) as [caps'|] eqn:Ek; [|discriminate].
           cbn [option_map]. intros [= <-].
           exists (String d ""), s, caps'.
           split; [reflexivity|]. split; [discriminate|].
           split.
           { cbn [no_char]. destruct (Ascii.eqb_spec d "/");
               [contradiction | reflexivity]. }
           now split.
        -- intros (p & rest & caps' & Hs & Hne & Hp & Hk & ->).
           destruct p as [|c p]; [contradiction|].
           injection Hs as <- ->.
           destruct p as [|c p].
           ++ cbn [append] in *. now rewrite Hk.
           ++ exfalso.
              assert (He : seg_match k (cur ++ String d "")
                             (String c p ++ rest)
                           = Some (((cur ++ String d "") ++ String c p)
                                     :: caps')).
              { apply IH. exists (String c p), rest, caps'.
                split; [reflexivity|]. split; [discriminate|].
                cbn [no_char] in Hp. apply andb_prop in Hp.
                destruct Hp as [_ Hp]. now repeat split. }
              congruence.
Qed.

Lemma tokens_guard (segs : list segment) (at_start : bool) (rest : string)
  (caps : list string) :
  re_match (tokens_of segs ++ [REnd]) at_start rest = Some caps ->
  rest = "" \/ exists r, rest = String "/" r.
Proof.
  destruct segs as [|[text|name] segs]; cbn [tokens_of app].
  - cbn [re_match]. destruct rest; [now left | discriminate].
  - rewrite <- app_assoc. intros Hm. apply chars_match in Hm.
    destruct Hm as (r & -> & _). right. eauto.
  - change (RChar "/" :: RSeg :: (tokens_of segs ++ [REnd])%list)
      with (RChar "/" :: (chars "" ++ RSeg :: tokens_of segs ++ [REnd])%list).
    intros Hm. apply chars_match in Hm.
    destruct Hm as (r & -> & _). right. eauto.
Qed.

(** The tokens of a template match the paths made of as many segments,
    each accepted by the segment of the template at its place, and the
    groups capture the segments that stand at the parameters. *)
Lemma tokens_match (segs : list segment) :
  forall at_start request_path caps,
    re_match (tokens_of segs ++ [REnd]) at_start request_path = Some caps
    <-> exists ps, request_path = join_path ps
                   /\ Forall2 segment_accepts segs ps
                   /\ caps = captured segs ps.
Proof.
  induction segs as [|[text|name] segs IH]; intros at_start request_path caps;
    cbn [tokens_of app].
  - cbn [re_match]. split.
    + destruct request_path; [|discriminate]. intros [= <-].
      exists []. repeat split. constructor.
    + intros (ps & -> & HF & ->). inversion HF. reflexivity.
  - rewrite <- app_assoc. rewrite chars_match. split.
    + intros (rest & -> & Hm). apply IH in Hm.
      destruct Hm as (ps & -> & HF & ->).
      exists (text :: ps). split; [reflexivity|].
      split; [now constructor | reflexivity].
    + intros (ps & -> & HF & ->).
      inversion HF as [|seg p segs' ps' Hacc HF']; subst.
      cbn [segment_accepts] in Hacc. subst p.
      exists (join_path ps'). split; [reflexivity|].
      apply IH. now exists ps'.
  - change (RChar "/" :: RSeg :: (tokens_of segs ++ [REnd])%list)
      with (RChar "/" :: (chars "" ++ RSeg :: tokens_of segs ++ [REnd])%list).
    rewrite chars_match. cbn [append re_match].
    pose proof (seg_match_spec (re_match (tokens_of segs ++ [REnd]) false)
                  (tokens_guard segs false)) as Hseg.
    split.
    + intros (rest & -> & Hm). apply Hseg in Hm.
      destruct Hm as (p & rest' & caps' & -> & Hne & Hp & Hk & ->).
      apply IH in Hk. destruct Hk as (ps & -> & HF & ->).
      exists (p :: ps). split; [reflexivity|].
      split; [constructor; [now split | exact HF] | reflexivity].
    + intros (ps & -> & HF & ->).
      inversion HF as [|seg p segs' ps' Hacc HF']; subst.
      destruct Hacc as [Hne Hp].
      exists (p ++ join_path ps'). split; [reflexivity|].
      apply Hseg. exists p, (join_path ps'), (captured segs ps').
      split; [reflexivity|]. split; [exact Hne|]. split; [exact Hp|].
      split; [|reflexivity]. apply IH. now exists ps'.
Qed.

(** C5 fails for a literal segment with a dot.  The text of the template
    outside of the braces reaches [std::regex] as it is, so the dot
    stands for any character: the template [/a.b] matches the path
    [/axb], whose segment is not the literal. *)
Lemma literal_dot_matches_any :
  render_template dotted_template = "/a.b"
  /\ route_matches "/a.b" "/axb" = Some true
  /\ ~ (exists ps, "/axb" = join_path ps
                   /\ Forall2 segment_accepts dotted_template ps).
Proof.
  split; [reflexivity|]. split; [reflexivity|].
  intros (ps & Hp & HF). unfold dotted_template in HF.
  inversion HF as [|seg p segs' ps' Hacc HF']; subst.
  inversion HF'; subst. cbn [segment_accepts] in Hacc. subst p.
  discriminate Hp.
Qed.

(** For a template whose literal segments hold no character that the
    regular expression grammar reads as an operator, matching is as C5
    says, anchored to the whole path: the path matches exactly
    when it is made of as many segments as the template, each literal
    segment equal to the one of the path and each parameter standing for
    one non-empty path segment without a slash, which the match
    captures.  So [/api/data/{collection}/{id}] matches
    [/api/data/users/42] with the captures [users] and [42], and matches
    neither [/api/data/users] nor [/api/data/users/42/extra]. *)
Theorem template_match_segments (segs : list segment) (request_path : string) :
  (Forall segment_ok segs ->
   (forall caps,
       route_captures (render_template segs) request_path = Some (Some caps)
       <-> exists ps, request_path = join_path ps
                      /\ Forall2 segment_accepts segs ps
                      /\ caps = captured segs ps)
   /\ (route_matches (render_template segs) request_path = Some false
       <-> ~ exists ps, request_path = join_path ps
                        /\ Forall2 segment_accepts segs ps))
  /\ render_template read_template = "/api/data/{collection}/{id}"
  /\ route_captures "/api/data/{collection}/{id}" "/api/data/users/42"
     = Some (Some ["users"; "42"])
  /\ route_matches "/api/data/{collection}/{id}" "/api/data/users"
     = Some false
  /\ route_matches "/api/data/{collection}/{id}" "/api/data/users/42/extra"
     = Some false.
Proof.
  split; [|repeat split].
  intros Hok. unfold route_matches.
  rewrite (route_captures_tokens _ _ Hok).
  split.
  - intros caps. split.
    + intros [= Hm]. now apply tokens_match in Hm.
    + intros Hps. f_equal. now apply tokens_match.
  - destruct (re_match (tokens_of segs ++ [REnd]) true request_path)
      as [caps|] eqn:E.
    + split; [discriminate|]. intros Hno. exfalso. apply Hno.
      apply tokens_match in E. destruct E as (ps & Hp & HF & _). eauto.
    + split; [|reflexivity]. intros _ (ps & Hp & HF).
      assert (Hm : re_match (tokens_of segs ++ [REnd]) true request_path
                   = Some (captured segs ps)).
      { apply tokens_match. now exists ps. }
      congruence.
Qed.

Lemma template_match_segments_witness :
  route_captures "/api/files/download/{filename}" "/api/files/download/a.png"
  = Some (Some ["a.png"]).
Proof.
  apply (proj1 (proj1 (template_match_segments
                         [Literal "api"; Literal "files"; Literal "download";
                          Param "filename"]
                         "/api/files/download/a.png")
                  ltac:(repeat constructor; discriminate))).
  exists ["api"; "files"; "download"; "a.png"].
  split; [reflexivity|]. split; [|reflexivity].
  repeat constructor. discriminate.
Defined.

(** ** The multipart decoder *)

(** *** Searching and cutting in a text known by its parts *)

Lemma find_app_left (s t p : string) (pos i : nat) :
  find s p pos = Some i -> find (s ++ t) p pos = Some i.
Proof.
  unfold find. destruct (pos <=? String.length s) eqn:Hle; [|discriminate].
  apply Nat.leb_le in Hle.
  destruct (find0 p (skipn_str pos s)) as [j|] eqn:Ej; [|discriminate].
  intros [= <-]. rewrite length_append.
  replace (pos <=? String.length s + String.length t) with true
    by (symmetry; apply Nat.leb_le; lia).
  rewrite (skipn_str_app_le _ _ _ Hle).
  now rewrite (find0_app _ _ t _ Ej).
Qed.

Lemma skipn_str_shift (pre s : string) (k : nat) :
  skipn_str (String.length pre + k) (pre ++ s) = skipn_str k s.
Proof. induction pre as [|c pre IH]; [reflexivity | exact IH]. Qed.

Lemma find_shift (pre s p : string) (k : nat) :
  find (pre ++ s) p (String.length pre + k)
  = option_map (Nat.add (String.length pre)) (find s p k).
Proof.
  unfold find. rewrite length_append, skipn_str_shift.
  replace (String.length pre + k <=? String.length pre + String.length s)
    with (k <=? String.length s).
  - destruct (k <=? String.length s); [|reflexivity].
    destruct (find0 p (skipn_str k s)); cbn [option_map]; [|reflexivity].
    f_equal. lia.
  - destruct (Nat.leb_spec k (String.length s)); symmetry;
      [apply Nat.leb_le | apply Nat.leb_gt]; lia.
Qed.

Lemma firstn_str_app_le (n : nat) (s t : string) :
  n <= String.length s -> firstn_str n (s ++ t) = firstn_str n s.
Proof.
  revert s. induction n as [|n IH]; intros s Hn; [reflexivity|].
  destruct s as [|c s]; cbn [String.length] in Hn; [lia|].
  cbn [firstn_str append]. rewrite IH; [reflexivity | lia].
Qed.

Lemma substr_app_left (s t : string) (pos n : nat) :
  pos + n <= String.length s -> substr (s ++ t) pos n = substr s pos n.
Proof.
  intros Hle. unfold substr. rewrite skipn_str_app_le by lia.
  apply firstn_str_app_le. rewrite length_skipn_str. lia.
Qed.

Lemma substr_shift (pre s : string) (k n : nat) :
  substr (pre ++ s) (String.length pre + k) n = substr s k n.
Proof. unfold substr. now rewrite skipn_str_shift. Qed.

(** *** One turn of the loop *)

Lemma multipart_turn (fuel : nat) (delimiter body : string) (pos : nat)
  (request : HttpRequest) (found header_end content_end : nat) :
  find body delimiter pos = Some found ->
  (String.length body <=? found + String.length delimiter) = false ->
  String.eqb (substr body (found + String.length delimiter) 2) "--" = false ->
  find body (CRLF ++ CRLF) (found + String.length delimiter)
  = Some header_end ->
  find body delimiter (header_end + 4) = Some content_end ->
  multipart_loop (S fuel) delimiter body pos request
  = multipart_loop fuel delimiter body content_end
      (store_part request
         (scan_part_headers
            (substr body (found + String.length delimiter)
               (header_end - (found + String.length delimiter))))
         (part_content body (header_end + 4) content_end)).
Proof.
  intros Hf Hlen Hnot Hh Hc. cbn [multipart_loop].
  now rewrite Hf, Hlen, Hnot, Hh, Hc.
Qed.

Lemma multipart_closing (fuel : nat) (delimiter body : string) (pos : nat)
  (request : HttpRequest) (found : nat) :
  find body delimiter pos = Some found ->
  String.eqb (substr body (found + String.length delimiter) 2) "--" = true ->
  multipart_loop (S fuel) delimiter body pos request = Some request.
Proof.
  intros Hf Hcl. cbn [multipart_loop]. rewrite Hf, Hcl.
  now rewrite orb_true_r.
Qed.

(** *** The example of the specification *)

Lemma multipart_example_split (payload : string) :
  multipart_example payload = example_head ++ payload ++ example_tail.
Proof. reflexivity. Qed.

Lemma find0_payload (payload rest : string) :
  find0 "--X" payload = None ->
  find0 "--X"
    (payload ++ String CR (String LF (String "-" (String "-"
                  (String "X" rest)))))
  = Some (String.length payload + 2).
Proof.
  induction payload as [|c p IH]; intros Hn; [reflexivity|].
  cbn [find0] in Hn.
  destruct (starts_with "--X" (String c p)) eqn:E; [discriminate|].
  destruct (find0 "--X" p) eqn:Ep; [discriminate|].
  cbn [append find0 String.length Nat.add]. rewrite (IH eq_refl).
  cbn [option_map].
  match goal with
  | |- (if ?b then _ else _) = _ => assert (Hs : b = false)
  end.
  { clear - E. cbn [starts_with] in *.
    destruct (Ascii.eqb "-" c); [|reflexivity]. cbn [andb] in *.
    destruct p as [|d p]; [reflexivity|]. cbn [append].
    destruct (Ascii.eqb "-" d); [|reflexivity]. cbn [andb] in *.
    destruct p as [|e p]; [reflexivity|]. cbn [append].
    destruct (Ascii.eqb "X" e); [discriminate E | reflexivity]. }
  now rewrite Hs.
Qed.

(** The loop on the example: two turns store the two parts, the third
    meets the closing delimiter. *)
Lemma example_turns (payload : string) (fuel : nat) (request : HttpRequest) :
  find payload "--X" 0 = None ->
  multipart_loop (S (S (S fuel))) "--X"
    (example_head ++ payload ++ example_tail) 0 request
  = Some
      (store_part
         (store_part request (mkPartHeaders "title" "" "") "Hi")
         (mkPartHeaders "avatar" "a.png" "image/png") payload).
Proof.
  intros Hfree. rewrite find_zero in Hfree.
  set (body := example_head ++ payload ++ example_tail).
  assert (Hlen : String.length body = 154 + (String.length payload + 9)).
  { unfold body. rewrite !length_append. reflexivity. }
  assert (Hhead : forall pos n, pos + n <= 154 ->
             substr body pos n = substr example_head pos n).
  { intros pos n Hle. unfold body. now apply substr_app_left. }
  assert (Hfind : forall p pos i, find example_head p pos = Some i ->
             find body p pos = Some i).
  { intros p pos i. unfold body. apply find_app_left. }
  (* first turn *)
  rewrite (multipart_turn _ "--X" body 0 _ 0 49 57).
  2:{ now apply Hfind. }
  2:{ rewrite Hlen. apply Nat.leb_gt. cbn [String.length]. lia. }
  2:{ rewrite Hhead by (cbn [String.length]; lia). reflexivity. }
  2:{ now apply Hfind. }
  2:{ now apply Hfind. }
  cbn [String.length Nat.add Nat.sub].
  rewrite !Hhead by lia.
  replace (scan_part_headers (substr example_head 3 46))
    with (mkPartHeaders "title" "" "") by (vm_compute; reflexivity).
  replace (part_content body 53 57) with "Hi".
  2:{ unfold part_content. change (57 - 53 <? 2) with false. cbn iota.
      change (57 - 53 - 2) with 2. rewrite Hhead by lia. reflexivity. }
  (* second turn *)
  set (n := String.length payload) in *.
  assert (Hnext : find body "--X" 154 = Some (154 + (n + 2))).
  { unfold body. change 154 with (String.length example_head + 0) at 1.
    rewrite find_shift, find_zero.
    change (payload ++ example_tail)
      with (payload ++ String CR (String LF (String "-" (String "-"
                         (String "X" ("--" ++ CRLF)))))).
    rewrite (find0_payload _ _ Hfree). reflexivity. }
  rewrite (multipart_turn _ "--X" body 57 _ 57 150 (154 + (n + 2))).
  2:{ now apply Hfind. }
  2:{ rewrite Hlen. apply Nat.leb_gt. cbn [String.length]. lia. }
  2:{ rewrite Hhead by (cbn [String.length]; lia). reflexivity. }
  2:{ now apply Hfind. }
  2:{ exact Hnext. }
  change (57 + String.length "--X") with 60. change (150 - 60) with 90.
  change (150 + 4) with 154.
  rewrite Hhead by lia.
  replace (scan_part_headers (substr example_head 60 90))
    with (mkPartHeaders "avatar" "a.png" "image/png")
    by (vm_compute; reflexivity).
  replace (part_content body 154 (154 + (n + 2))) with payload.
  2:{ unfold part_content.
      replace (154 + (n + 2) - 154) with (n + 2) by lia.
      replace (n + 2 <? 2) with false by (symmetry; apply Nat.ltb_ge; lia).
      replace (n + 2 - 2) with n by lia.
      unfold body. change 154 with (String.length example_head + 0).
      rewrite substr_shift. unfold substr. cbn [skipn_str].
      symmetry. apply firstn_str_app. }
  (* the closing delimiter *)
  assert (Hb : body = (example_head ++ payload ++ CRLF) ++ "--X--" ++ CRLF).
  { unfold body, example_tail. now rewrite !append_assoc. }
  assert (Hl : String.length (example_head ++ payload ++ CRLF)
               = 154 + (n + 2)).
  { rewrite !length_append. reflexivity. }
  apply multipart_closing with (found := 154 + (n + 2)).
  - rewrite Hb. rewrite <- Hl.
    rewrite <- (Nat.add_0_r (String.length _)) at 1.
    rewrite find_shift.
    change (find ("--X--" ++ CRLF) "--X" 0) with (Some 0).
    cbn [option_map]. now rewrite Nat.add_0_r.
  - rewrite Hb, <- Hl, substr_shift. reflexivity.
Qed.

(** The loop always ends within its fuel: a turn that goes on moves
    [pos] forward. *)
Lemma find_bounds (s p : string) (pos i : nat) :
  find s p pos = Some i -> pos <= i /\ i + String.length p <= String.length s.
Proof.
  unfold find. destruct (pos <=? String.length s) eqn:Hle; [|discriminate].
  apply Nat.leb_le in Hle.
  destruct (find0 p (skipn_str pos s)) as [j|] eqn:Ej; [|discriminate].
  intros [= <-]. apply find0_bound in Ej. rewrite length_skipn_str in Ej.
  lia.
Qed.

Lemma multipart_loop_total (delimiter body : string) (fuel pos : nat)
  (request : HttpRequest) :
  pos <= String.length body -> String.length body < pos + fuel ->
  exists r, multipart_loop fuel delimiter body pos request = Some r.
Proof.
  revert pos request. induction fuel as [|fuel IH]; intros pos request Hp Hf;
    [lia|].
  cbn [multipart_loop].
    destruct (find body delimiter pos) as [found|] eqn:E1; [|eauto].
    destruct ((String.length body <=? found + String.length delimiter)
              || String.eqb (substr body (found + String.length delimiter) 2)
                   "--"); [eauto|].
    destruct (find body (CRLF ++ CRLF) (found + String.length delimiter))
      as [header_end|] eqn:E2; [|eauto].
    destruct (find body delimiter (header_end + 4)) as [content_end|] eqn:E3;
      [|eauto].
    apply find_bounds in E1, E2, E3. apply IH; lia.
Qed.

Lemma parse_multipart_total (request : HttpRequest) (boundary : string) :
  exists r, parse_multipart_form_data request boundary = Some r.
Proof.
  unfold parse_multipart_form_data. apply multipart_loop_total; lia.
Qed.




(* ================================================================== *)
(** * Part III: further properties of the code *)
(* ================================================================== *)

(** ** What is written to the socket *)

(** The writes of a response, put end to end, are its head followed by
    as many body bytes as the [Content-Length] line of the head
    announces, for the text and for the binary variant, an empty binary
    payload included. *)
Theorem sends_framing (r : HttpResponse) :
  received (sends r) = response_head r ++ payload_sent r
  /\ String.length (payload_sent r) = announced_length r.
Proof.
  unfold sends, response_head, payload_sent, announced_length.
  cbn [received]. rewrite build_response_layout.
  unfold announced_length.
  destruct (is_binary r); cbn [andb]; (split; [|reflexivity]).
  - destruct (String.eqb_spec (binary_data r) "") as [E|_];
      cbn [negb received]; rewrite ?E, ?append_nil_r;
      repeat rewrite append_assoc; cbn [append];
      rewrite ?append_nil_r; reflexivity.
  - cbn [received]. rewrite append_nil_r.
    repeat rewrite append_assoc. reflexivity.
Qed.

(** An error answer built on a fresh response: the status line carries
    the message, the two fixed headers follow in key order, and the body
    is the message between the quotes of an [error] member, twelve bytes
    longer than the message. *)
Theorem error_response_wire (status : Z) (message : string) :
  build_response (send_error_response default_response status message)
  = "HTTP/1.1 " ++ int_to_string status ++ " " ++ message ++ CRLF
      ++ "Access-Control-Allow-Origin: *" ++ CRLF
      ++ "Content-Type: application/json" ++ CRLF
      ++ "Content-Length: "
      ++ size_to_string (String.length message + 12) ++ CRLF ++ CRLF
      ++ "{" ++ q "error" ++ ":" ++ q message ++ "}".
Proof.
  rewrite build_response_layout.
  unfold status_line, announced_length, send_error_response, default_response.
  cbn [status_code status_text headers body is_binary binary_data].
  change (map_insert "Access-Control-Allow-Origin" "*"
            (map_insert "Content-Type" "application/json" []))
    with [("Access-Control-Allow-Origin", "*");
          ("Content-Type", "application/json")].
  cbn [render_headers].
  replace (String.length ("{" ++ q "error" ++ ":" ++ q message ++ "}"))
    with (String.length message + 12).
  - rewrite !append_assoc. reflexivity.
  - unfold q. cbn [append String.length]. rewrite !length_append.
    cbn [String.length]. lia.
Qed.

Lemma map_find_fold_register {H : Type} (regs : list (registration H))
  (routes : route_table H) (m : string) :
  Forall (fun r => fst (fst r) <> m) regs ->
  map_find m (fold_left register regs routes) = map_find m routes.
Proof.
  intros Hall. revert routes.
  induction Hall as [|r regs Hr _ IH]; intros routes; [reflexivity|].
  cbn [fold_left]. rewrite IH. unfold register, add_route.
  now apply map_find_insert_other.
Qed.

Section RespondFacts.

Context {H World : Type}.
Variable run : H -> HttpRequest -> HttpResponse -> World -> HttpResponse * World.


End RespondFacts.


(** ** The content type of a file name *)

Lemma find_last_of_none (c : ascii) (s : string) :
  no_char c s = true -> find_last_of c s = None.
Proof.
  induction s as [|d s IH]; [reflexivity|]. cbn [no_char find_last_of].
  intros Hn. apply andb_prop in Hn. destruct Hn as [Hd Hs].
  rewrite (IH Hs). now destruct (Ascii.eqb d c).
Qed.

Lemma find_last_of_app (c : ascii) (stem ext : string) :
  no_char c ext = true ->
  find_last_of c (stem ++ String c ext) = Some (String.length stem).
Proof.
  intros Hn. induction stem as [|d stem IH].
  - cbn [append find_last_of String.length].
    rewrite (find_last_of_none _ _ Hn). now rewrite Ascii.eqb_refl.
  - cbn [append find_last_of String.length]. now rewrite IH.
Qed.

Lemma extension_of_app (stem ext : string) :
  no_char "." ext = true -> extension_of (stem ++ String "." ext) = ext.
Proof.
  intros Hn. unfold extension_of, substr_from.
  rewrite (find_last_of_app _ _ _ Hn).
  replace (stem ++ String "." ext) with ((stem ++ ".") ++ ext)
    by (now rewrite append_assoc).
  replace (String.length stem + 1) with (String.length (stem ++ "."))
    by (rewrite length_append; reflexivity).
  apply skipn_str_app.
Qed.

Lemma extension_of_dotless (name : string) :
  no_char "." name = true -> extension_of name = name.
Proof.
  intros Hn. unfold extension_of. now rewrite (find_last_of_none _ _ Hn).
Qed.

Lemma tolower_dot (c : ascii) :
  Ascii.eqb (tolower c) "." = Ascii.eqb c ".".
Proof. destruct c as [[] [] [] [] [] [] [] []]; reflexivity. Qed.

Lemma tolower_idem (c : ascii) : tolower (tolower c) = tolower c.
Proof. destruct c as [[] [] [] [] [] [] [] []]; reflexivity. Qed.

Lemma find_last_of_lower (s : string) :
  find_last_of "." (map_str tolower s) = find_last_of "." s.
Proof.
  induction s as [|d s IH]; [reflexivity|].
  cbn [map_str find_last_of]. now rewrite IH, tolower_dot.
Qed.

Lemma skipn_map_str (f : ascii -> ascii) (n : nat) (s : string) :
  skipn_str n (map_str f s) = map_str f (skipn_str n s).
Proof.
  revert s. induction n as [|n IH]; intros [|c s]; try reflexivity.
  cbn [map_str skipn_str]. apply IH.
Qed.

Lemma map_lower_idem (s : string) :
  map_str tolower (map_str tolower s) = map_str tolower s.
Proof.
  induction s as [|c s IH]; [reflexivity|].
  cbn [map_str]. now rewrite IH, tolower_idem.
Qed.

(** The type depends on the name only through what follows its last
    dot, letters taken without regard to case; a name passed without its
    stem, the extension alone, gets the same type, so a name without a
    dot is read as an extension. *)
Theorem content_type_by_extension (stem ext : string) :
  no_char "." ext = true ->
  get_content_type (stem ++ String "." ext) = get_content_type ext
  /\ get_content_type (map_str tolower (stem ++ String "." ext))
     = get_content_type ext.
Proof.
  intros Hn.
  assert (H1 : get_content_type (stem ++ String "." ext)
               = get_content_type ext).
  { unfold get_content_type.
    now rewrite (extension_of_app _ _ Hn), (extension_of_dotless _ Hn). }
  split; [exact H1|]. rewrite <- H1.
  unfold get_content_type, extension_of, substr_from.
  rewrite find_last_of_lower, skipn_map_str. now rewrite map_lower_idem.
Qed.

Lemma content_type_by_extension_witness :
  get_content_type "uploads/photo.2024.PNG" = get_content_type "PNG"
  /\ get_content_type "PNG" = "image/png"
  /\ get_content_type "html" = "text/html".
Proof.
  split; [|split; reflexivity].
  apply (proj1 (content_type_by_extension "uploads/photo.2024" "PNG" eq_refl)).
Defined.

(** ** The file name of a download path *)

Lemma download_match (request_path : string) (caps : list string) :
  re_match (RChar "/" :: chars "api/files/download/" ++ [RSeg]) true
    request_path = Some caps
  <-> exists f, request_path = "/api/files/download/" ++ f
                /\ f <> "" /\ no_char "/" f = true /\ caps = [f].
Proof.
  rewrite chars_match. cbn [re_match].
  assert (Hguard : forall rest caps0,
             re_match [] false rest = Some caps0 ->
             rest = "" \/ exists r, rest = String "/" r).
  { intros rest caps0. cbn [re_match]. destruct rest; [now left|discriminate]. }
  pose proof (seg_match_spec (re_match [] false) Hguard) as Hseg.
  split.
  - intros (rest & -> & Hm). apply Hseg in Hm.
    destruct Hm as (p & rest' & caps' & -> & Hne & Hp & Hk & ->).
    cbn [re_match] in Hk. destruct rest'; [|discriminate].
    injection Hk as <-. exists p. rewrite append_nil_r.
    repeat split; assumption.
  - intros (f & -> & Hne & Hp & ->). exists f. split; [reflexivity|].
    apply Hseg. exists f, "", []. rewrite append_nil_r.
    repeat split; assumption.
Qed.

(** The name extracted is the part of the path after
    [/api/files/download/] when that part is not empty and holds no
    slash, and is empty for every other path: a name that is returned
    never holds a slash, and the path is not percent-decoded before. *)
Theorem extract_filename_spec (request_path : string) :
  (forall f, f <> "" ->
     (extract_filename_from_path request_path = f
      <-> request_path = "/api/files/download/" ++ f
          /\ no_char "/" f = true))
  /\ no_char "/" (extract_filename_from_path request_path) = true.
Proof.
  unfold extract_filename_from_path.
  change (regex_compile "/api/files/download/([^/]+)")
    with (Some (RChar "/" :: chars "api/files/download/" ++ [RSeg])%list).
  cbv beta iota.
  match goal with
  | |- context [re_match ?t true request_path] =>
      destruct (re_match t true request_path) as [caps|] eqn:E
  end.
  - apply download_match in E. destruct E as (f0 & -> & Hne0 & Hp0 & ->).
    split; [|exact Hp0].
    intros f Hne. split.
    + intros <-. now split.
    + intros [Heq _].
      assert (Hskip : forall a b, "/api/files/download/" ++ a
                                  = "/api/files/download/" ++ b -> a = b).
      { intros a b Hab. now injection Hab. }
      now apply Hskip in Heq.
  - split; [|reflexivity]. intros f Hne. split.
    + intros <-. contradiction.
    + intros [-> Hp]. exfalso.
      assert (Hm : re_match (RChar "/" :: chars "api/files/download/"
                               ++ [RSeg]) true
                     ("/api/files/download/" ++ f) = Some [f]).
      { apply download_match. exists f. now repeat split. }
      congruence.
Qed.

Lemma extract_filename_spec_witness :
  extract_filename_from_path "/api/files/download/a%2Fb.png" = "a%2Fb.png".
Proof.
  apply (proj1 (extract_filename_spec "/api/files/download/a%2Fb.png")
           "a%2Fb.png" ltac:(discriminate)).
  split; reflexivity.
Defined.

(** ** More on the percent/plus decoder *)

Lemma url_decode_length_bound (stale : Z) (n : nat) (s : string) :
  String.length s <= n ->
  String.length (url_decode stale s) <= String.length s.
Proof.
  revert s. induction n as [|n IH]; intros s Hn.
  - destruct s; [reflexivity | cbn [String.length] in Hn; lia].
  - destruct s as [|c s]; [reflexivity|].
    cbn [String.length] in Hn.
    assert (Hrest : String.length (url_decode stale s) <= String.length s)
      by (apply IH; lia).
    cbn [url_decode].
    destruct (Ascii.eqb c "%").
    + destruct s as [|h1 [|h2 rest]].
      * destruct (Ascii.eqb c "+"); cbn [String.length] in *; lia.
      * destruct (Ascii.eqb c "+"); cbn [String.length] in *; lia.
      * cbn [String.length] in *.
        assert (String.length (url_decode stale rest) <= String.length rest)
          by (apply IH; lia).
        lia.
    + destruct (Ascii.eqb c "+"); cbn [String.length] in *; lia.
Qed.

(** Decoding never lengthens a text, and leaves a text without ['%'] and
    without ['+'] as it is. *)
Theorem url_decode_shrinks (stale : Z) (s : string) :
  String.length (url_decode stale s) <= String.length s
  /\ (no_char "%" s = true -> no_char "+" s = true ->
      url_decode stale s = s).
Proof.
  split; [now apply url_decode_length_bound with (String.length s)|].
  induction s as [|c s IH]; [reflexivity|]. cbn [no_char].
  intros Hp Hq. apply andb_prop in Hp. destruct Hp as [Hc Hp].
  apply andb_prop in Hq. destruct Hq as [Hd Hq].
  apply negb_true_iff in Hc, Hd.
  rewrite url_decode_other.
  - now rewrite (IH Hp Hq).
  - intros ->. discriminate Hc.
  - intros ->. discriminate Hd.
Qed.

Lemma url_decode_shrinks_witness : url_decode 0 "name=a b" = "name=a b".
Proof.
  apply (proj2 (url_decode_shrinks 0 "name=a b")); reflexivity.
Defined.

(** ** The record store *)

Lemma int_to_string_inj (a b : Z) :
  int_to_string a = int_to_string b -> a = b.
Proof.
  unfold int_to_string. intros Hs.
  assert (Hnn : forall z, Z.to_int z <> Decimal.Pos Decimal.Nil
                          /\ Z.to_int z <> Decimal.Neg Decimal.Nil).
  { intros [|p|p]; cbn; split; try discriminate;
      intros [= Hp]; now apply (DecimalPos.Unsigned.to_uint_nonnil p). }
  apply DecimalZ.to_int_inj.
  assert (Hi : Some (Z.to_int a) = Some (Z.to_int b)).
  { rewrite <- (NilZero.isi (Z.to_int a)) by apply Hnn.
    rewrite <- (NilZero.isi (Z.to_int b)) by apply Hnn.
    now rewrite Hs. }
  now injection Hi.
Qed.

Lemma map_erase_above {V : Type} (k0 k : string) (m : smap V) :
  keys_above k0 m -> keys_above k0 (map_erase k m).
Proof.
  induction 1 as [|[k' v'] m Hk' Hm IH]; cbn [map_erase]; [constructor|].
  destruct (String.eqb k k'); [exact Hm | now constructor].
Qed.

Lemma map_erase_ordered {V : Type} (k : string) (m : smap V) :
  ordered m -> ordered (map_erase k m).
Proof.
  induction 1 as [|k' v' m Hab Hm IH]; cbn [map_erase]; [constructor|].
  destruct (String.eqb k k'); [exact Hm|].
  constructor; [now apply map_erase_above | exact IH].
Qed.

Lemma map_find_above {V : Type} (k : string) (m : smap V) :
  keys_above k m -> map_find k m = None.
Proof.
  induction 1 as [|[k' v'] m Hk' Hm IH]; [reflexivity|].
  cbn [map_find]. cbn [fst] in Hk'.
  apply key_lt_neq in Hk'. rewrite String.eqb_sym in Hk'.
  now rewrite Hk'.
Qed.

Lemma map_find_erase_same {V : Type} (k : string) (m : smap V) :
  ordered m -> map_find k (map_erase k m) = None.
Proof.
  induction 1 as [|k' v' m Hab Hm IH]; [reflexivity|].
  cbn [map_erase]. destruct (String.eqb_spec k k') as [->|Hne].
  - now apply map_find_above.
  - cbn [map_find]. apply String.eqb_neq in Hne. now rewrite Hne.
Qed.

Lemma map_find_erase_other {V : Type} (k k' : string) (m : smap V) :
  k <> k' -> map_find k' (map_erase k m) = map_find k' m.
Proof.
  intros Hne. induction m as [|[k0 v0] m IH]; [reflexivity|].
  cbn [map_erase]. destruct (String.eqb_spec k k0) as [->|Hk].
  - cbn [map_find]. apply not_eq_sym in Hne.
    apply String.eqb_neq in Hne. now rewrite Hne.
  - cbn [map_find]. now rewrite IH.
Qed.

Lemma find_store_item (data : smap (smap item))
  (collection id collection' id' : string) (it : item) :
  find_item (store_item data collection id it) collection' id'
  = if String.eqb collection collection' && String.eqb id id'
    then Some it else find_item data collection' id'.
Proof. apply (lookup_add_route (H := item)). Qed.

Lemma store_item_ordered (data : smap (smap item)) (collection id : string)
  (it : item) :
  table_ordered data -> table_ordered (store_item data collection id it).
Proof. apply (add_route_ordered (H := item)). Qed.

Lemma int_wrap_range (z : Z) : (INT_MIN <= int_wrap z <= INT_MAX)%Z.
Proof.
  unfold int_wrap, INT_MIN, INT_MAX.
  pose proof (Z.mod_pos_bound (z - - 2 ^ 31) (2 ^ 32) ltac:(lia)). lia.
Qed.

Lemma int_wrap_small (z : Z) :
  (INT_MIN <= z <= INT_MAX)%Z -> int_wrap z = z.
Proof.
  unfold int_wrap, INT_MIN, INT_MAX. intros Hz.
  rewrite Z.mod_small by lia. lia.
Qed.

(** [create] and [read]: the id returned is the text of the counter, the
    item read back under it is the item given with its [id] field set to
    that id, replacing an [id] field the caller supplied, and no other
    entry of the store is touched.  The counter advances by one, and
    from [INT_MAX] it goes to [INT_MIN]. *)
Theorem create_then_read (s : DataStore) (collection : string) (it : item) :
  let id := fst (ds_create s collection it) in
  let s' := snd (ds_create s collection it) in
  id = int_to_string (next_id s)
  /\ ds_read s' collection id = map_insert "id" id it
  /\ map_find "id" (ds_read s' collection id) = Some id
  /\ ((INT_MIN <= next_id s < INT_MAX)%Z -> next_id s' = (next_id s + 1)%Z)
  /\ (next_id s = INT_MAX -> next_id s' = INT_MIN)
  /\ forall collection' id',
       (collection', id') <> (collection, id) ->
       ds_read s' collection' id' = ds_read s collection' id'.
Proof.
  cbn zeta. unfold ds_create, ds_read. cbn [fst snd ds_data next_id].
  split; [reflexivity|].
  rewrite find_store_item, !String.eqb_refl. cbn [andb].
  split; [reflexivity|]. split; [apply map_find_insert_same|].
  split; [intros Hr; apply int_wrap_small; unfold INT_MIN, INT_MAX in *; lia|].
  split; [intros ->; reflexivity|].
  intros collection' id' Hne. rewrite find_store_item.
  destruct (String.eqb_spec collection collection') as [<-|_];
    [|reflexivity].
  destruct (String.eqb_spec (int_to_string (next_id s)) id') as [<-|_];
    [now destruct Hne | reflexivity].
Qed.

Lemma create_then_read_witness :
  ds_read (snd (ds_create empty_store "users" [("name", "Ann")])) "orders" "1"
  = ds_read empty_store "orders" "1".
Proof.
  pose proof (create_then_read empty_store "users" [("name", "Ann")]) as H.
  cbn zeta in H. destruct H as (_ & _ & _ & _ & _ & H).
  apply (H "orders" "1"). discriminate.
Defined.

(** [update]: on an id that is stored the whole item is replaced by the
    one given, with its [id] field set, and [true] is returned; fields
    of the former item that the new one lacks are lost.  On an id that
    is not stored nothing changes and [false] is returned. *)
Theorem update_replaces (s : DataStore) (collection id : string) (it : item) :
  (find_item (ds_data s) collection id <> None ->
   fst (ds_update s collection id it) = true
   /\ ds_read (snd (ds_update s collection id it)) collection id
      = map_insert "id" id it
   /\ forall field,
        field <> "id" ->
        map_find field
          (ds_read (snd (ds_update s collection id it)) collection id)
        = map_find field it)
  /\ (find_item (ds_data s) collection id = None ->
      ds_update s collection id it = (false, s)).
Proof.
  unfold ds_update, ds_read. split.
  - destruct (find_item (ds_data s) collection id); [|contradiction].
    intros _. cbn [fst snd ds_data].
    rewrite find_store_item, !String.eqb_refl. cbn [andb].
    split; [reflexivity|]. split; [reflexivity|].
    intros field Hf. apply map_find_insert_other. now apply not_eq_sym.
  - now intros ->.
Qed.

Lemma update_replaces_witness :
  ds_read
    (snd (ds_update (snd (ds_create empty_store "users"
                            [("age", "30"); ("name", "Ann")]))
            "users" "1" [("name", "Bob")]))
    "users" "1"
  = [("id", "1"); ("name", "Bob")].
Proof.
  apply (proj1 (proj2 (proj1 (update_replaces
           (snd (ds_create empty_store "users"
                   [("age", "30"); ("name", "Ann")]))
           "users" "1" [("name", "Bob")]) ltac:(discriminate)))).
Defined.

Lemma ds_invariant_empty : ds_invariant empty_store.
Proof.
  split; [split; constructor|]. split; [cbn; lia|].
  intros collection id it. discriminate.
Qed.

Lemma ds_invariant_create (s : DataStore) (collection : string) (it : item) :
  ds_invariant s -> ds_invariant (snd (ds_create s collection it)).
Proof.
  intros (Hord & Hpos & Hitems). unfold ds_create. cbn [snd].
  split; [now apply store_item_ordered|]. cbn [next_id ds_data].
  split; [apply int_wrap_range|].
  intros collection' id' it'. rewrite find_store_item.
  destruct (String.eqb collection collection'
            && String.eqb (int_to_string (next_id s)) id') eqn:E.
  - apply andb_prop in E. destruct E as [_ E].
    apply String.eqb_eq in E. subst id'. intros [= <-].
    split; [apply map_find_insert_same|].
    exists (next_id s). split; [exact Hpos | reflexivity].
  - apply Hitems.
Qed.

Lemma ds_invariant_update (s : DataStore) (collection id : string)
  (it : item) :
  ds_invariant s -> ds_invariant (snd (ds_update s collection id it)).
Proof.
  intros Hinv. pose proof Hinv as (Hord & Hpos & Hitems). unfold ds_update.
  destruct (find_item (ds_data s) collection id) as [old|] eqn:Hold;
    [|exact Hinv].
  cbn [snd]. split; [now apply store_item_ordered|].
  cbn [next_id ds_data]. split; [exact Hpos|].
  intros collection' id' it'. rewrite find_store_item.
  destruct (String.eqb collection collection' && String.eqb id id') eqn:E.
  - apply andb_prop in E. destruct E as [_ E].
    apply String.eqb_eq in E. subst id'. intros [= <-].
    split; [apply map_find_insert_same|].
    exact (proj2 (Hitems _ _ _ Hold)).
  - apply Hitems.
Qed.

Lemma find_item_erase (data : smap (smap item)) (items : smap item)
  (collection id collection' id' : string) :
  table_ordered data ->
  map_find collection data = Some items ->
  find_item (map_insert collection (map_erase id items) data) collection' id'
  = if String.eqb collection collection' && String.eqb id id'
    then None else find_item data collection' id'.
Proof.
  intros Hord Hitems. unfold find_item.
  destruct (String.eqb_spec collection collection') as [<-|Hc]; cbn [andb].
  - rewrite map_find_insert_same, Hitems.
    destruct (String.eqb_spec id id') as [<-|Hi].
    + apply map_find_erase_same. now apply inner_ordered in Hitems.
    + now apply map_find_erase_other.
  - now rewrite map_find_insert_other.
Qed.

Lemma ds_invariant_remove (s : DataStore) (collection id : string) :
  ds_invariant s -> ds_invariant (snd (ds_remove s collection id)).
Proof.
  intros Hinv. pose proof Hinv as (Hord & Hpos & Hitems). unfold ds_remove.
  destruct (map_find collection (ds_data s)) as [items|] eqn:Hc;
    [|exact Hinv].
  destruct (map_find id items) as [old|] eqn:Hold; [|exact Hinv].
  cbn [snd]. split.
  - pose proof Hord as [Ho Hi]. split; [now apply map_insert_ordered|].
    apply forall_insert; [|exact Hi]. cbn [snd].
    apply map_erase_ordered. now apply inner_ordered in Hc.
  - cbn [next_id ds_data]. split; [exact Hpos|].
    intros collection' id' it'. rewrite (find_item_erase _ _ _ _ _ _ Hord Hc).
    destruct (String.eqb collection collection' && String.eqb id id');
      [discriminate | apply Hitems].
Qed.

Lemma ds_invariant_fold (calls : list ds_call) (s : DataStore) :
  ds_invariant s -> ds_invariant (fold_left ds_apply calls s).
Proof.
  revert s. induction calls as [|c calls IH]; intros s Hs; [exact Hs|].
  cbn [fold_left]. apply IH.
  destruct c; cbn [ds_apply];
    [apply ds_invariant_create | apply ds_invariant_update
     | apply ds_invariant_remove]; exact Hs.
Qed.

(** Whatever calls were made since the store was created, every item it
    holds carries, in its [id] field, the id it is stored under; so no
    stored item is empty, and [read] returns the empty item exactly for
    the ids that are not stored (the test the read handler relies
    on). *)
Theorem stored_items_carry_id (calls : list ds_call) (collection id : string) :
  (forall it,
      find_item (ds_data (ds_after calls)) collection id = Some it ->
      map_find "id" it = Some id)
  /\ (ds_read (ds_after calls) collection id = []
      <-> find_item (ds_data (ds_after calls)) collection id = None).
Proof.
  pose proof (ds_invariant_fold calls empty_store ds_invariant_empty)
    as (_ & _ & Hitems).
  fold (ds_after calls) in Hitems.
  split; [intros it Hf; exact (proj1 (Hitems _ _ _ Hf))|].
  unfold ds_read.
  destruct (find_item (ds_data (ds_after calls)) collection id) as [it|] eqn:E.
  - split; [|discriminate]. intros ->.
    pose proof (proj1 (Hitems _ _ _ E)) as Hid. discriminate Hid.
  - now split.
Qed.

Lemma stored_items_carry_id_witness :
  map_find "id" [("id", "1"); ("name", "Ann")] = Some "1".
Proof.
  apply (proj1 (stored_items_carry_id [CallCreate "users" [("name", "Ann")]]
                  "users" "1")
           [("id", "1"); ("name", "Ann")] eq_refl).
Defined.

Lemma ds_counted_fold (calls : list ds_call) (s : DataStore) :
  ds_invariant s -> ds_counted s ->
  (next_id s + Z.of_nat (creates calls) <= INT_MAX)%Z ->
  ds_counted (fold_left ds_apply calls s)
  /\ next_id (fold_left ds_apply calls s)
     = (next_id s + Z.of_nat (creates calls))%Z.
Proof.
  revert s. induction calls as [|c calls IH]; intros s Hinv Hs Hle.
  - cbn [fold_left creates]. split; [exact Hs | lia].
  - cbn [fold_left]. destruct Hs as [Hpos Hids].
    destruct c as [collection it|collection id it|collection id];
      cbn [ds_apply creates] in *.
    + assert (Hnext : int_wrap (next_id s + 1) = (next_id s + 1)%Z)
        by (apply int_wrap_small; unfold INT_MIN, INT_MAX in *; lia).
      destruct (IH (snd (ds_create s collection it))) as [Hc Hn].
      * now apply ds_invariant_create.
      * unfold ds_create. cbn [snd next_id ds_data]. rewrite Hnext.
        split; cbn [next_id ds_data]; [lia|].
        intros collection' id' it'. rewrite find_store_item.
        destruct (String.eqb collection collection'
                  && String.eqb (int_to_string (next_id s)) id') eqn:E.
        -- apply andb_prop in E. destruct E as [_ E].
           apply String.eqb_eq in E. subst id'. intros _.
           exists (next_id s). split; [lia | reflexivity].
        -- intros Hf. destruct (Hids _ _ _ Hf) as (n & Hn & ->).
           exists n. split; [lia | reflexivity].
      * unfold ds_create. cbn [snd next_id]. rewrite Hnext. lia.
      * split; [exact Hc|]. rewrite Hn. unfold ds_create.
        cbn [snd next_id]. rewrite Hnext. lia.
    + assert (Hsame : next_id (snd (ds_update s collection id it))
                      = next_id s)
        by (unfold ds_update;
            now destruct (find_item (ds_data s) collection id)).
      destruct (IH (snd (ds_update s collection id it))) as [Hc Hn];
        [now apply ds_invariant_update | | now rewrite Hsame
         | split; [exact Hc | now rewrite Hn, Hsame]].
      unfold ds_update.
      destruct (find_item (ds_data s) collection id) as [old|] eqn:Hold;
        [|now split].
        cbn [snd]. split; cbn [next_id ds_data]; [exact Hpos|].
        intros collection' id' it'. rewrite find_store_item.
        destruct (String.eqb collection collection' && String.eqb id id')
          eqn:E; [|apply Hids].
        apply andb_prop in E. destruct E as [Ec Ei].
        apply String.eqb_eq in Ec, Ei. subst collection' id'. intros _.
        exact (Hids _ _ _ Hold).
    + assert (Hsame : next_id (snd (ds_remove s collection id)) = next_id s).
      { unfold ds_remove.
        destruct (map_find collection (ds_data s)) as [items|];
          [|reflexivity].
        now destruct (map_find id items). }
      destruct (IH (snd (ds_remove s collection id))) as [Hc' Hn];
        [now apply ds_invariant_remove | | now rewrite Hsame
         | split; [exact Hc' | now rewrite Hn, Hsame]].
      pose proof Hinv as (Hord & _ & _). unfold ds_remove.
      destruct (map_find collection (ds_data s)) as [items|] eqn:Hc;
        [|now split].
      destruct (map_find id items) as [old|] eqn:Hold; [|now split].
        cbn [snd]. split; cbn [next_id ds_data]; [exact Hpos|].
        intros collection' id' it'.
        rewrite (find_item_erase _ _ _ _ _ _ Hord Hc).
        destruct (String.eqb collection collection' && String.eqb id id');
          [discriminate | apply Hids].
Qed.

(** As long as fewer than [INT_MAX] items have been created, the
    counter is one more than their number and the id the next [create]
    will return is stored in no collection: a [create] does not
    overwrite an item, and an id freed by [remove] is not given out
    again.  (Later the counter has wrapped, and ids come back.) *)
Theorem create_id_is_fresh (calls : list ds_call) (collection : string) :
  (Z.of_nat (creates calls) < INT_MAX)%Z ->
  next_id (ds_after calls) = (1 + Z.of_nat (creates calls))%Z
  /\ find_item (ds_data (ds_after calls)) collection
       (int_to_string (next_id (ds_after calls))) = None.
Proof.
  intros Hle.
  assert (Hstart : ds_counted empty_store).
  { split; [cbn; unfold INT_MAX; lia|]. intros c id it. discriminate. }
  destruct (ds_counted_fold calls empty_store ds_invariant_empty Hstart)
    as [[_ Hids] Hn]; [cbn [empty_store next_id]; lia|].
  fold (ds_after calls) in Hids, Hn. cbn [empty_store next_id] in Hn.
  split; [exact Hn|].
  destruct (find_item (ds_data (ds_after calls)) collection
              (int_to_string (next_id (ds_after calls)))) as [it|] eqn:E;
    [|reflexivity].
  destruct (Hids _ _ _ E) as (n & Hlt & Heq).
  apply int_to_string_inj in Heq. lia.
Qed.

Lemma create_id_is_fresh_witness :
  find_item
    (ds_data (ds_after [CallCreate "users" [("name", "Ann")];
                        CallRemove "users" "1"]))
    "users"
    (int_to_string
       (next_id (ds_after [CallCreate "users" [("name", "Ann")];
                           CallRemove "users" "1"])))
  = None.
Proof.
  apply (proj2 (create_id_is_fresh
                  [CallCreate "users" [("name", "Ann")];
                   CallRemove "users" "1"] "users" eq_refl)).
Defined.

(** [remove]: on an id that is stored, [true] is returned, the id is no
    longer found and every other entry is as before; on an id that is
    not stored nothing changes and [false] is returned. *)
Theorem remove_deletes (calls : list ds_call) (collection id : string) :
  let s := ds_after calls in
  (find_item (ds_data s) collection id <> None ->
   fst (ds_remove s collection id) = true
   /\ ds_read (snd (ds_remove s collection id)) collection id = []
   /\ forall collection' id',
        (collection', id') <> (collection, id) ->
        ds_read (snd (ds_remove s collection id)) collection' id'
        = ds_read s collection' id')
  /\ (find_item (ds_data s) collection id = None ->
      ds_remove s collection id = (false, s)).
Proof.
  cbn zeta.
  pose proof (ds_invariant_fold calls empty_store ds_invariant_empty)
    as (Hord & _ & _).
  fold (ds_after calls) in Hord.
  unfold ds_remove, ds_read, find_item at 1 5.
  destruct (map_find collection (ds_data (ds_after calls)))
    as [items|] eqn:Hc.
  - destruct (map_find id items) as [old|] eqn:Hold.
    + split; [|intros [=]]. intros _. cbn [fst snd ds_data].
      split; [reflexivity|].
      rewrite (find_item_erase _ _ _ _ _ _ Hord Hc), !String.eqb_refl.
      cbn [andb]. split; [reflexivity|].
      intros collection' id' Hne.
      rewrite (find_item_erase _ _ _ _ _ _ Hord Hc).
      destruct (String.eqb_spec collection collection') as [<-|_];
        [|reflexivity].
      destruct (String.eqb_spec id id') as [<-|_];
        [now destruct Hne | reflexivity].
    + split; [contradiction | reflexivity].
  - split; [contradiction | reflexivity].
Qed.

Lemma remove_deletes_witness :
  ds_read
    (snd (ds_remove (ds_after [CallCreate "users" [("name", "Ann")]])
            "users" "1"))
    "users" "1"
  = [].
Proof.
  apply (proj1 (proj2 (proj1 (remove_deletes
           [CallCreate "users" [("name", "Ann")]] "users" "1")
           ltac:(discriminate)))).
Defined.

(** [read_all] lists the items stored in the collection, all of them
    and each once, in the order of the text of their ids, each with its
    id in its [id] field: the order is that of the characters, not of
    the numbers.  For a collection that was never used the list is
    empty. *)
Theorem read_all_in_id_order (calls : list ds_call) (collection : string) :
  (exists items,
      ds_read_all (ds_after calls) collection = map snd items
      /\ ordered items
      /\ (forall id it,
             In (id, it) items
             <-> find_item (ds_data (ds_after calls)) collection id
                 = Some it)
      /\ Forall (fun e => map_find "id" (snd e) = Some (fst e)) items)
  /\ (map_find collection (ds_data (ds_after calls)) = None ->
      ds_read_all (ds_after calls) collection = []).
Proof.
  pose proof (ds_invariant_fold calls empty_store ds_invariant_empty)
    as (Hord & _ & Hitems).
  fold (ds_after calls) in Hord, Hitems. unfold ds_read_all, find_item.
  destruct (map_find collection (ds_data (ds_after calls)))
    as [items|] eqn:Hc.
  - split; [|discriminate]. exists items. split; [reflexivity|].
    assert (Ho : ordered items) by now apply inner_ordered in Hc.
    split; [exact Ho|]. split.
    + intros id it. split; [now apply in_map_find | apply map_find_in].
    + apply Forall_forall. intros [id it] Hin. cbn [fst snd].
      apply (Hitems collection id it). unfold find_item. rewrite Hc.
      now apply in_map_find.
  - split; [|reflexivity]. exists [].
    split; [reflexivity|]. split; [constructor|]. split; [|constructor].
    intros id it. split; [intros [] | discriminate].
Qed.

Lemma read_all_in_id_order_witness :
  ds_read_all (ds_after [CallCreate "users" [("name", "Ann")]]) "orders" = [].
Proof.
  apply (proj2 (read_all_in_id_order [CallCreate "users" [("name", "Ann")]]
                  "orders")).
  reflexivity.
Defined.

(** ** Form fields *)

Lemma getlines_aux_piece (d : ascii) (l cur rest : string) (started : bool) :
  no_char d l = true ->
  getlines_aux d cur started (l ++ String d rest)
  = (cur ++ l) :: getlines_aux d "" false rest.
Proof.
  revert cur started. induction l as [|c l IH]; intros cur started Hn.
  - cbn [append getlines_aux]. rewrite Ascii.eqb_refl.
    now rewrite append_nil_r.
  - cbn [no_char] in Hn. apply andb_prop in Hn. destruct Hn as [Hc Hl].
    cbn [append getlines_aux].
    destruct (Ascii.eqb c d); [discriminate Hc|].
    rewrite (IH _ _ Hl). now rewrite append_assoc.
Qed.

Lemma getlines_aux_last (d : ascii) (l cur : string) (started : bool) :
  no_char d l = true -> l <> "" ->
  getlines_aux d cur started l = [cur ++ l].
Proof.
  revert cur started. induction l as [|c l IH]; intros cur started Hn Hne;
    [contradiction|].
  cbn [no_char] in Hn. apply andb_prop in Hn. destruct Hn as [Hc Hl].
  cbn [getlines_aux]. destruct (Ascii.eqb c d); [discriminate Hc|].
  destruct l as [|c' l].
  - reflexivity.
  - rewrite (IH _ _ Hl) by discriminate. now rewrite append_assoc.
Qed.

Lemma find0_char (c : ascii) (k rest : string) :
  no_char c k = true ->
  find0 (String c "") (k ++ String c rest) = Some (String.length k).
Proof.
  induction k as [|a k IH]; intros Hn.
  - cbn [append find0 starts_with String.length].
    now rewrite Ascii.eqb_refl.
  - cbn [no_char] in Hn. apply andb_prop in Hn. destruct Hn as [Ha Hk].
    cbn [append find0 starts_with String.length].
    rewrite Ascii.eqb_sym. destruct (Ascii.eqb a c); [discriminate Ha|].
    cbn [andb]. now rewrite (IH Hk).
Qed.

Lemma no_char_encode (c : ascii) (s : string) :
  no_char c "%25B0" = true -> no_char c s = true ->
  no_char c (percent_encode s) = true.
Proof.
  intros Hc. induction s as [|a s IH]; [reflexivity|].
  cbn [no_char percent_encode]. intros Hn.
  apply andb_prop in Hn. destruct Hn as [Ha Hs]. specialize (IH Hs).
  cbn [no_char] in Hc.
  destruct (Ascii.eqb "%" c) eqn:E1; [discriminate Hc|].
  destruct (Ascii.eqb "2" c) eqn:E2; [discriminate Hc|].
  destruct (Ascii.eqb "5" c) eqn:E3; [discriminate Hc|].
  destruct (Ascii.eqb "B" c) eqn:E4; [discriminate Hc|].
  destruct (Ascii.eqb "0" c) eqn:E5; [discriminate Hc|].
  destruct (Ascii.eqb a "%"); [cbn [append no_char];
    now rewrite E1, E2, E3, IH|].
  destruct (Ascii.eqb a "+"); [cbn [append no_char];
    now rewrite E1, E2, E4, IH|].
  destruct (Ascii.eqb a " "); [cbn [append no_char];
    now rewrite E1, E2, E5, IH|].
  cbn [no_char]. now rewrite Ha, IH.
Qed.

Section FormFacts.

Variable stale : Z.

Lemma parse_param_encoded (fields : smap string) (kv : string * string) :
  no_separator (fst kv) = true ->
  parse_param stale fields (encode_pair kv)
  = map_insert (fst kv) (snd kv) fields.
Proof.
  destruct kv as [k v]. cbn [fst snd]. unfold no_separator. intros Hk.
  apply andb_prop in Hk. destruct Hk as [_ Hk].
  unfold parse_param, encode_pair. cbn [fst snd].
  rewrite find_zero.
  change (percent_encode k ++ "=" ++ percent_encode v)
    with (percent_encode k ++ String "=" (percent_encode v)).
  rewrite find0_char by (now apply no_char_encode).
  unfold substr, substr_from. cbn [skipn_str].
  rewrite firstn_str_app.
  replace (percent_encode k ++ String "=" (percent_encode v))
    with ((percent_encode k ++ "=") ++ percent_encode v)
    by (now rewrite append_assoc).
  replace (String.length (percent_encode k) + 1)
    with (String.length (percent_encode k ++ "="))
    by (rewrite length_append; reflexivity).
  rewrite skipn_str_app. now rewrite !url_decode_encode.
Qed.

Lemma encode_pair_piece (kv : string * string) :
  no_separator (fst kv) = true -> no_separator (snd kv) = true ->
  no_char "&" (encode_pair kv) = true /\ encode_pair kv <> "".
Proof.
  unfold no_separator, encode_pair. intros Hk Hv.
  apply andb_prop in Hk. destruct Hk as [Hk _].
  apply andb_prop in Hv. destruct Hv as [Hv _].
  split.
  - rewrite !no_char_app.
    rewrite (no_char_encode "&" _ eq_refl Hk).
    rewrite (no_char_encode "&" _ eq_refl Hv). reflexivity.
  - destruct (percent_encode (fst kv)); discriminate.
Qed.

Lemma parse_params_encoded (kvs : list (string * string))
  (fields : smap string) :
  Forall (fun kv => no_separator (fst kv) = true
                    /\ no_separator (snd kv) = true) kvs ->
  parse_params stale fields (form_encode kvs) = insert_all fields kvs.
Proof.
  unfold parse_params, getlines, insert_all. intros Hall. revert fields.
  induction Hall as [|kv kvs [Hk Hv] Hrest IH]; intros fields;
    [reflexivity|].
  destruct (encode_pair_piece kv Hk Hv) as [Hamp Hne].
  destruct kvs as [|kv' kvs].
  - cbn [form_encode]. rewrite (getlines_aux_last _ _ _ _ Hamp Hne).
    cbn [append fold_left]. now rewrite parse_param_encoded.
  - change (form_encode (kv :: kv' :: kvs))
      with (encode_pair kv ++ String "&" (form_encode (kv' :: kvs))).
    rewrite (getlines_aux_piece _ _ _ _ _ Hamp).
    cbn [append fold_left]. rewrite parse_param_encoded by exact Hk.
    apply IH.
Qed.

(** Decoding undoes the encoding of a form: for pairs whose keys and
    values hold neither [&] nor [=], whatever else they hold, the
    fields after parsing the encoded body are those before with every
    pair stored in order, a later pair replacing an earlier one with
    the same key. *)
Theorem form_round_trip (request : HttpRequest)
  (kvs : list (string * string)) :
  Forall (fun kv => no_separator (fst kv) = true
                    /\ no_separator (snd kv) = true) kvs ->
  req_body request = form_encode kvs ->
  form_data (parse_url_encoded_form_data stale request)
  = insert_all (form_data request) kvs
  /\ forall k v pre,
       kvs = (pre ++ [(k, v)])%list ->
       map_find k (form_data (parse_url_encoded_form_data stale request))
       = Some v.
Proof.
  intros Hall Hbody.
  assert (Hf : form_data (parse_url_encoded_form_data stale request)
               = insert_all (form_data request) kvs).
  { unfold parse_url_encoded_form_data. cbn [form_data]. rewrite Hbody.
    now apply parse_params_encoded. }
  split; [exact Hf|].
  intros k v pre ->. rewrite Hf. unfold insert_all.
  rewrite fold_left_app. cbn [fold_left fst snd].
  apply map_find_insert_same.
Qed.

End FormFacts.

Lemma form_round_trip_witness :
  form_data
    (parse_url_encoded_form_data 0
       (empty_request "name=Ann%20Lee&note=50%25%20off&name=Bob"))
  = [("name", "Bob"); ("note", "50% off")].
Proof.
  apply (proj1 (form_round_trip 0
                  (empty_request "name=Ann%20Lee&note=50%25%20off&name=Bob")
                  [("name", "Ann Lee"); ("note", "50% off"); ("name", "Bob")]
                  ltac:(repeat constructor) eq_refl)).
Defined.

(** ** Trimming *)

Lemma erase_leading_in (set : string) (c : ascii) (s : string) :
  mem_char c set = true -> erase_leading (String c s) set = erase_leading s set.
Proof.
  intros Hc. unfold erase_leading. cbn [find_first_not_of]. rewrite Hc.
  now destruct (find_first_not_of s set).
Qed.

Lemma erase_leading_out (set : string) (c : ascii) (s : string) :
  mem_char c set = false -> erase_leading (String c s) set = String c s.
Proof.
  intros Hc. unfold erase_leading. cbn [find_first_not_of]. now rewrite Hc.
Qed.

Lemma erase_leading_app (set lead s : string) :
  all_in set lead = true ->
  erase_leading (lead ++ s) set = erase_leading s set.
Proof.
  induction lead as [|c lead IH]; [reflexivity|]. cbn [all_in append].
  intros Hl. apply andb_prop in Hl. destruct Hl as [Hc Hl].
  rewrite (erase_leading_in _ _ _ Hc). now apply IH.
Qed.

Lemma find_last_not_of_all_in (set s : string) :
  all_in set s = true -> find_last_not_of s set = None.
Proof.
  induction s as [|c s IH]; [reflexivity|]. cbn [all_in find_last_not_of].
  intros Hs. apply andb_prop in Hs. destruct Hs as [Hc Hs].
  now rewrite (IH Hs), Hc.
Qed.

Lemma find_last_not_of_app (set core trail : string) :
  ends_outside set core = true -> all_in set trail = true ->
  find_last_not_of (core ++ trail) set = Some (String.length core - 1).
Proof.
  intros Hc Ht. induction core as [|c core IH]; [discriminate Hc|].
  cbn [append find_last_not_of]. destruct core as [|c' core].
  - cbn [append]. rewrite (find_last_not_of_all_in _ _ Ht).
    cbn [ends_outside] in Hc. apply negb_true_iff in Hc. now rewrite Hc.
  - rewrite IH by exact Hc. cbn [String.length]. f_equal. lia.
Qed.

Lemma erase_trailing_app (set core trail : string) :
  ends_outside set core = true -> all_in set trail = true ->
  erase_trailing (core ++ trail) set = core.
Proof.
  intros Hc Ht. unfold erase_trailing.
  rewrite (find_last_not_of_app _ _ _ Hc Ht).
  destruct core as [|c core]; [discriminate Hc|].
  cbn [String.length].
  replace (S (S (String.length core) - 1)) with (String.length (String c core))
    by (cbn [String.length]; lia).
  apply firstn_str_app.
Qed.

Lemma all_in_lead_trail (s : string) :
  all_in ws_lead s = true -> all_in ws_trail s = true.
Proof.
  induction s as [|c s IH]; [reflexivity|]. cbn [all_in].
  intros Hs. apply andb_prop in Hs. destruct Hs as [Hc Hs].
  rewrite (IH Hs), andb_true_r. unfold ws_lead, ws_trail in *.
  cbn [mem_char] in *. destruct (Ascii.eqb c " "); [reflexivity|].
  destruct (Ascii.eqb c TAB); [reflexivity | discriminate Hc].
Qed.

Lemma trim_parts (lead core trail : string) :
  all_in ws_lead lead = true -> all_in ws_trail trail = true ->
  trimmed core = true ->
  trim (lead ++ core ++ trail) = core.
Proof.
  intros Hl Ht Hc. unfold trim. rewrite (erase_leading_app _ _ _ Hl).
  destruct core as [|c core].
  - cbn [append]. unfold erase_trailing.
    assert (Hall : all_in ws_trail (erase_leading trail ws_lead) = true).
    { clear - Ht. induction trail as [|a trail IH]; [reflexivity|].
      cbn [all_in] in Ht. apply andb_prop in Ht. destruct Ht as [Ha Ht].
      destruct (mem_char a ws_lead) eqn:E.
      - rewrite (erase_leading_in _ _ _ E). now apply IH.
      - rewrite (erase_leading_out _ _ _ E). cbn [all_in].
        now rewrite Ha, Ht. }
    now rewrite (find_last_not_of_all_in _ _ Hall).
  - unfold trimmed in Hc. apply andb_prop in Hc. destruct Hc as [Hf He].
    apply negb_true_iff in Hf.
    change (String c core ++ trail) with (String c (core ++ trail)).
    rewrite (erase_leading_out _ _ _ Hf).
    change (String c (core ++ trail)) with (String c core ++ trail).
    now apply erase_trailing_app.
Qed.

(** The trimming of header names and values removes the spaces and tabs
    before the text and the spaces, tabs, carriage returns and line
    feeds after it, and nothing of the text between them, white space
    inside it included. *)
Theorem trim_spec (lead core trail : string) :
  all_in ws_lead lead = true -> all_in ws_trail trail = true ->
  trimmed core = true ->
  trim (lead ++ core ++ trail) = core.
Proof. apply trim_parts. Qed.

Lemma trim_spec_witness :
  trim (String " " (String TAB "text/html; charset=utf-8" ++ String CR ""))
  = "text/html; charset=utf-8".
Proof.
  apply (trim_spec (String " " (String TAB "")) "text/html; charset=utf-8"
           (String CR "")); reflexivity.
Defined.

(** ** The request parser *)

Lemma pop_back_snoc (s : string) (c : ascii) : pop_back (s ++ String c "") = s.
Proof.
  induction s as [|a s IH]; [reflexivity|].
  cbn [append pop_back]. rewrite IH.
  destruct s; reflexivity.
Qed.

Lemma chomp_lf_back (s : string) :
  chomp_lf s
  = match back s with
    | Some c => if Ascii.eqb c LF then pop_back s else s
    | None => s
    end.
Proof.
  induction s as [|a s IH]; [reflexivity|].
  destruct s as [|b s].
  - cbn [chomp_lf back pop_back]. reflexivity.
  - change (chomp_lf (String a (String b s)))
      with (String a (chomp_lf (String b s))).
    change (back (String a (String b s))) with (back (String b s)).
    change (pop_back (String a (String b s)))
      with (String a (pop_back (String b s))).
    rewrite IH. destruct (back (String b s)) as [c|]; [|reflexivity].
    now destruct (Ascii.eqb c LF).
Qed.

Lemma join_getlines_aux (s cur : string) (started : bool) :
  join_lines (getlines_aux LF cur started s)
  = match s with
    | EmptyString => if started then cur ++ String LF "" else ""
    | String _ _ =>
        cur ++ s ++ match back s with
                    | Some c => if Ascii.eqb c LF then "" else String LF ""
                    | None => ""
                    end
    end.
Proof.
  revert cur started. induction s as [|c s IH]; intros cur started.
  - cbn [getlines_aux]. now destruct started.
  - cbn [getlines_aux]. destruct (Ascii.eqb_spec c LF) as [->|Hc].
    + cbn [join_lines]. rewrite IH. destruct s as [|b s].
      * reflexivity.
      * change (back (String LF (String b s))) with (back (String b s)).
        reflexivity.
    + rewrite IH. destruct s as [|b s].
      * cbn [back append]. apply Ascii.eqb_neq in Hc. rewrite Hc.
        now rewrite !append_assoc.
      * change (back (String c (String b s))) with (back (String b s)).
        now rewrite !append_assoc.
Qed.

Lemma body_text_getlines (body : string) :
  body_text (getlines LF body) = chomp_lf body.
Proof.
  unfold body_text, getlines. rewrite join_getlines_aux, chomp_lf_back.
  destruct body as [|c s]; [reflexivity|]. cbn [append].
  destruct (back (String c s)) as [b|] eqn:E.
  - destruct (Ascii.eqb b LF).
    + now rewrite append_nil_r.
    + change (String c (s ++ String LF ""))
        with (String c s ++ String LF "").
      apply pop_back_snoc.
  - exfalso. clear - E. revert c E. induction s as [|a s IH]; intros c E.
    + discriminate E.
    + change (back (String c (String a s))) with (back (String a s)) in E.
      now apply IH in E.
Qed.

(** The body is read line by line and put together again with line
    feeds: every byte of it is kept, carriage returns and NUL bytes
    included, except one line feed at its very end. *)
Theorem body_lines_rejoined (body : string) :
  body_text (getlines LF body) = chomp_lf body.
Proof. apply body_text_getlines. Qed.

Lemma words_aux_word (w cur s : string) :
  no_space w = true -> words_aux cur (w ++ s) = words_aux (cur ++ w) s.
Proof.
  revert cur. induction w as [|c w IH]; intros cur Hw.
  - now rewrite append_nil_r.
  - cbn [no_space] in Hw. apply andb_prop in Hw. destruct Hw as [Hc Hw].
    apply negb_true_iff in Hc. cbn [append words_aux]. rewrite Hc.
    rewrite (IH _ Hw). now rewrite append_assoc.
Qed.

Lemma words_aux_space (w : string) (c : ascii) (s : string) :
  w <> "" -> isspace c = true ->
  words_aux w (String c s) = w :: words_aux "" s.
Proof.
  intros Hw Hc. cbn [words_aux]. rewrite Hc. destruct w; [contradiction|].
  reflexivity.
Qed.

Lemma words_request_line (m target v : string) :
  is_word m -> is_word target -> is_word v ->
  words (m ++ " " ++ target ++ " " ++ v ++ String CR "") = [m; target; v].
Proof.
  intros [Hm1 Hm2] [Ht1 Ht2] [Hv1 Hv2]. unfold words.
  rewrite (words_aux_word _ _ _ Hm2). cbn [append].
  rewrite (words_aux_space m " " _ Hm1 eq_refl).
  rewrite (words_aux_word _ _ _ Ht2). cbn [append].
  rewrite (words_aux_space target " " _ Ht1 eq_refl).
  rewrite (words_aux_word _ _ _ Hv2). cbn [append].
  rewrite (words_aux_space v CR _ Hv1 eq_refl). reflexivity.
Qed.

Lemma getlines_aux_crlf (l rest : string) :
  no_char LF l = true ->
  getlines_aux LF "" false (l ++ CRLF ++ rest)
  = (l ++ String CR "") :: getlines_aux LF "" false rest.
Proof.
  intros Hl.
  replace (l ++ CRLF ++ rest) with ((l ++ String CR "") ++ String LF rest)
    by (now rewrite append_assoc).
  rewrite getlines_aux_piece; [reflexivity|].
  rewrite no_char_app, Hl. reflexivity.
Qed.

Lemma no_space_no_lf (s : string) : no_space s = true -> no_char LF s = true.
Proof.
  induction s as [|c s IH]; [reflexivity|]. cbn [no_space no_char].
  intros Hs. apply andb_prop in Hs. destruct Hs as [Hc Hs].
  rewrite (IH Hs), andb_true_r. apply negb_true_iff.
  destruct (Ascii.eqb_spec c LF) as [->|_]; [discriminate Hc | reflexivity].
Qed.

Lemma parse_header_line (hs : smap string) (h : string * string) :
  header_ok h ->
  parse_header hs (fst h ++ ": " ++ snd h ++ String CR "")
  = map_insert (fst h) (snd h) hs.
Proof.
  destruct h as [k v]. unfold header_ok. cbn [fst snd].
  intros (Hk & _ & Hkc & Hv & _).
  unfold parse_header. rewrite find_zero.
  change (k ++ ": " ++ v ++ String CR "")
    with (k ++ String ":" (String " " (v ++ String CR ""))).
  rewrite (find0_char _ _ _ Hkc).
  unfold substr, substr_from. cbn [skipn_str]. rewrite firstn_str_app.
  replace (k ++ String ":" (String " " (v ++ String CR "")))
    with ((k ++ ":") ++ String " " (v ++ String CR ""))
    by (now rewrite append_assoc).
  replace (String.length k + 1) with (String.length (k ++ ":"))
    by (rewrite length_append; reflexivity).
  rewrite skipn_str_app.
  replace k with ("" ++ k ++ "") at 1 by (cbn [append]; apply append_nil_r).
  rewrite (trim_parts "" k "" eq_refl eq_refl Hk).
  change (String " " (v ++ String CR ""))
    with (String " " "" ++ v ++ String CR "").
  now rewrite (trim_parts (String " " "") v (String CR "") eq_refl eq_refl Hv).
Qed.

Lemma headers_read (hs : list (string * string)) (body : string)
  (acc : smap string) :
  Forall header_ok hs ->
  (let (header_lines, body_lines) :=
     split_headers (getlines_aux LF "" false (header_text hs ++ CRLF ++ body))
   in (fold_left parse_header header_lines acc, body_lines))
  = (insert_all acc hs, getlines LF body).
Proof.
  intros Hall. revert acc.
  induction Hall as [|[k v] hs Hok _ IH]; intros acc.
  - cbn [header_text].
    rewrite (getlines_aux_crlf "" body eq_refl). reflexivity.
  - cbn [header_text].
    replace ((k ++ ": " ++ v ++ CRLF ++ header_text hs) ++ CRLF ++ body)
      with ((k ++ ": " ++ v) ++ CRLF ++ header_text hs ++ CRLF ++ body)
      by (now rewrite !append_assoc).
    pose proof Hok as (_ & Hkl & _ & _ & Hvl). cbn [fst snd] in Hkl, Hvl.
    rewrite getlines_aux_crlf
      by (rewrite !no_char_app, Hkl, Hvl; reflexivity).
    cbn [split_headers].
    assert (Hline : (k ++ ": " ++ v) ++ String CR ""
                    = k ++ ": " ++ v ++ String CR "")
      by (now rewrite !append_assoc).
    rewrite Hline.
    assert (Hne : String.eqb (k ++ ": " ++ v ++ String CR "") (String CR "")
                  || String.eqb (k ++ ": " ++ v ++ String CR "") "" = false).
    { apply orb_false_intro; apply String.eqb_neq; intros E;
        apply (f_equal String.length) in E;
        rewrite !length_append in E; cbn [String.length] in E; lia. }
    rewrite Hne.
    specialize (IH (map_insert k v acc)).
    destruct (split_headers
                (getlines_aux LF "" false (header_text hs ++ CRLF ++ body)))
      as [hl bl].
    cbn [fold_left].
    pose proof (parse_header_line acc (k, v) Hok) as Hp.
    cbn [fst snd] in Hp. rewrite Hp. exact IH.
Qed.

Lemma same_head_refl (r : HttpRequest) : same_head r r.
Proof. now repeat split. Qed.

Lemma same_head_store (r : HttpRequest) (ph : part_headers) (c : string) :
  same_head r (store_part r ph c).
Proof.
  unfold store_part. destruct (negb (String.eqb (ph_filename ph) ""));
    now repeat split.
Qed.

Lemma same_head_trans (r1 r2 r3 : HttpRequest) :
  same_head r1 r2 -> same_head r2 r3 -> same_head r1 r3.
Proof.
  intros (A1 & A2 & A3 & A4 & A5 & A6) (B1 & B2 & B3 & B4 & B5 & B6).
  repeat split; congruence.
Qed.

Lemma multipart_loop_same_head (fuel : nat) (delimiter body : string)
  (pos : nat) (request r : HttpRequest) :
  multipart_loop fuel delimiter body pos request = Some r ->
  same_head request r.
Proof.
  revert pos request. induction fuel as [|fuel IH]; intros pos request;
    [discriminate|].
  cbn [multipart_loop].
  destruct (find body delimiter pos) as [found|];
    [|intros [= <-]; apply same_head_refl].
  destruct ((String.length body <=? found + String.length delimiter)
            || String.eqb (substr body (found + String.length delimiter) 2)
                 "--"); [intros [= <-]; apply same_head_refl|].
  destruct (find body (CRLF ++ CRLF) (found + String.length delimiter))
    as [header_end|]; [|intros [= <-]; apply same_head_refl].
  destruct (find body delimiter (header_end + 4)) as [content_end|];
    [|intros [= <-]; apply same_head_refl].
  intros Hr. apply IH in Hr.
  eapply same_head_trans; [apply same_head_store | exact Hr].
Qed.

Lemma decode_body_same_head (stale : Z) (request : HttpRequest) :
  exists r, decode_body stale request = Some r /\ same_head request r.
Proof.
  unfold decode_body.
  destruct (map_find "Content-Type" (req_headers request)) as [ct|];
    [|eexists; split; [reflexivity | apply same_head_refl]].
  destruct (find ct "multipart/form-data" 0).
  - destruct (boundary_of ct) as [b|];
      [|eexists; split; [reflexivity | apply same_head_refl]].
    destruct (parse_multipart_total request b) as (r & Hr).
    exists r. split; [exact Hr|].
    unfold parse_multipart_form_data in Hr.
    now apply multipart_loop_same_head in Hr.
  - destruct (find ct "application/x-www-form-urlencoded" 0);
      eexists; (split; [reflexivity|]); [|apply same_head_refl].
    now repeat split.
Qed.

Lemma find0_char_none (c : ascii) (s : string) :
  no_char c s = true -> find0 (String c "") s = None.
Proof.
  induction s as [|a s IH]; [reflexivity|]. cbn [no_char].
  intros Hs. apply andb_prop in Hs. destruct Hs as [Ha Hs].
  cbn [find0 starts_with]. rewrite Ascii.eqb_sym.
  destruct (Ascii.eqb a c); [discriminate Ha|]. cbn [andb].
  now rewrite (IH Hs).
Qed.

Lemma find0_char_prefix (c : ascii) (s : string) :
  match find0 (String c "") s with
  | Some i => no_char c (firstn_str i s) = true
  | None => no_char c s = true
  end.
Proof.
  induction s as [|a s IH]; [reflexivity|].
  cbn [find0 starts_with]. destruct (Ascii.eqb_spec c a) as [->|Hne].
  - reflexivity.
  - cbn [andb]. destruct (find0 (String c "") s) as [i|];
      cbn [option_map firstn_str no_char]; rewrite IH, andb_true_r;
      apply negb_true_iff; now apply Ascii.eqb_neq, not_eq_sym.
Qed.

Section ParseFacts.

Variable stale : Z.

Lemma parse_request_line_target (m p v : string) (query : option string) :
  is_word m -> is_word p -> is_word v ->
  no_char "?" p = true ->
  match query with Some qs => no_space qs = true | None => True end ->
  parse_request_line stale
    (m ++ " " ++ target_of p query ++ " " ++ v ++ String CR "")
  = (m, p, v,
     match query with
     | Some qs => parse_params stale [] qs
     | None => []
     end).
Proof.
  intros Hm Hp Hv Hq Hqs. unfold parse_request_line.
  assert (Ht : is_word (target_of p query)).
  { destruct Hp as [Hp1 Hp2]. destruct query as [qs|]; [|now split].
    cbn [target_of]. split; [destruct p; [contradiction | discriminate]|].
    change (String "?" qs) with ("?" ++ qs).
    clear - Hp2 Hqs. induction p as [|c p IH]; [exact Hqs|].
    cbn [no_space append] in *. apply andb_prop in Hp2.
    destruct Hp2 as [Hc Hp2]. now rewrite Hc, IH. }
  rewrite (words_request_line _ _ _ Hm Ht Hv). cbn [nth].
  rewrite find_zero. destruct query as [qs|]; cbn [target_of].
  - rewrite (find0_char _ _ _ Hq). unfold substr, substr_from.
    cbn [skipn_str]. rewrite firstn_str_app.
    replace (p ++ String "?" qs) with ((p ++ "?") ++ qs)
      by (now rewrite append_assoc).
    replace (String.length p + 1) with (String.length (p ++ "?"))
      by (rewrite length_append; reflexivity).
    now rewrite skipn_str_app.
  - now rewrite (find0_char_none _ _ Hq).
Qed.

(** A request written in the usual form is read back field by field:
    the method, the path before the question mark, the version, the
    parameters of the query string, the headers with a later line
    replacing an earlier one of the same name, and the body, of which
    every byte is kept, carriage returns and NUL bytes included, except
    one line feed at its very end. *)
Theorem parse_request_reads_back (m p v : string) (query : option string)
  (hs : list (string * string)) (body : string) :
  is_word m -> is_word p -> is_word v ->
  no_char "?" p = true ->
  match query with Some qs => no_space qs = true | None => True end ->
  Forall header_ok hs ->
  exists r,
    parse_request stale (request_text m (target_of p query) v hs body)
    = Some r
    /\ method r = m /\ path r = p /\ version r = v
    /\ query_params r
       = match query with
         | Some qs => parse_params stale [] qs
         | None => []
         end
    /\ req_headers r = insert_all [] hs
    /\ req_body r = chomp_lf body.
Proof.
  intros Hm Hp Hv Hq Hqs Hhs. unfold parse_request, request_text, getlines.
  replace (m ++ " " ++ target_of p query ++ " " ++ v ++ CRLF
             ++ header_text hs ++ CRLF ++ body)
    with ((m ++ " " ++ target_of p query ++ " " ++ v) ++ CRLF
            ++ header_text hs ++ CRLF ++ body)
    by (now rewrite !append_assoc).
  rewrite getlines_aux_crlf.
  - replace ((m ++ " " ++ target_of p query ++ " " ++ v) ++ String CR "")
      with (m ++ " " ++ target_of p query ++ " " ++ v ++ String CR "")
      by (now rewrite !append_assoc).
    rewrite (parse_request_line_target _ _ _ _ Hm Hp Hv Hq Hqs).
    pose proof (headers_read hs body [] Hhs) as Hh.
    destruct (split_headers
                (getlines_aux LF "" false (header_text hs ++ CRLF ++ body)))
      as [hl bl].
    injection Hh as Hh1 Hh2. rewrite Hh1, Hh2, body_text_getlines.
    match goal with
    | |- exists r, decode_body stale ?req = Some r /\ _ =>
        destruct (decode_body_same_head stale req)
          as (r & Hr & H1 & H2 & H3 & H4 & H5 & H6)
    end.
    exists r. split; [exact Hr|]. cbn in H1, H2, H3, H4, H5, H6.
    now repeat split.
  - destruct Hm as [_ Hm]. destruct Hv as [_ Hv].
    assert (Ht : no_char LF (target_of p query) = true).
    { destruct Hp as [_ Hp]. apply no_space_no_lf in Hp.
      destruct query as [qs|]; [|exact Hp]. cbn [target_of].
      change (String "?" qs) with ("?" ++ qs).
      rewrite !no_char_app, Hp. cbn [no_char].
      now rewrite (no_space_no_lf _ Hqs). }
    rewrite !no_char_app, Ht.
    now rewrite (no_space_no_lf _ Hm), (no_space_no_lf _ Hv).
Qed.

(** Whatever the bytes received, the parser returns a request, and the
    path of that request holds no question mark. *)
Theorem parsed_path_without_query (request_str : string) :
  exists r, parse_request stale request_str = Some r
            /\ no_char "?" (path r) = true.
Proof.
  unfold parse_request.
  destruct (getlines LF request_str) as [|line rest].
  - destruct (decode_body_same_head stale
                (mkHttpRequest "" "" "" [] "" [] [] []))
      as (r & Hr & _ & Hp & _).
    exists r. split; [exact Hr|]. now rewrite Hp.
  - assert (Hline : no_char "?"
              (snd (fst (fst (parse_request_line stale line)))) = true).
    { unfold parse_request_line. rewrite find_zero.
      pose proof (find0_char_prefix "?" (nth 1 (words line) "")) as Hf.
      destruct (find0 "?" (nth 1 (words line) "")) as [i|];
        cbn [fst snd]; exact Hf. }
    destruct (parse_request_line stale line) as [[[m p] v] query].
    cbn [fst snd] in Hline.
    destruct (split_headers rest) as [hl bl].
    match goal with
    | |- exists r, decode_body stale ?req = Some r /\ _ =>
        destruct (decode_body_same_head stale req) as (r & Hr & _ & Hp & _)
    end.
    exists r. split; [exact Hr|]. cbn [path] in Hp. now rewrite Hp.
Qed.

End ParseFacts.

Lemma parse_request_reads_back_witness :
  exists r,
    parse_request 0
      (request_text "POST" "/api/data/users?x=1" "HTTP/1.1"
         [("Host", "localhost:8080"); ("Content-Type", "text/plain")]
         ("a" ++ CRLF ++ "b" ++ String LF ""))
    = Some r
    /\ path r = "/api/data/users"
    /\ req_body r = "a" ++ CRLF ++ "b".
Proof.
  destruct (parse_request_reads_back 0 "POST" "/api/data/users" "HTTP/1.1"
              (Some "x=1")
              [("Host", "localhost:8080"); ("Content-Type", "text/plain")]
              ("a" ++ CRLF ++ "b" ++ String LF ""))
    as (r & Hr & _ & Hp & _ & _ & _ & Hb);
    try (split; [discriminate | reflexivity]); try reflexivity.
  - repeat constructor.
  - exists r. split; [exact Hr|]. split; [exact Hp | exact Hb].
Defined.

(** ** The boundary of a multipart body *)

Lemma find_first_of_prefix (s set : string) (i : nat) :
  find_first_of s set = Some i ->
  find_first_of (firstn_str i s) set = None.
Proof.
  revert i. induction s as [|c s IH]; intros i; [discriminate|].
  cbn [find_first_of]. destruct (mem_char c set) eqn:E.
  - intros [= <-]. reflexivity.
  - destruct (find_first_of s set) as [j|]; [|discriminate].
    intros [= <-]. cbn [firstn_str find_first_of]. rewrite E.
    now rewrite (IH j eq_refl).
Qed.

Lemma back_no_stop (s set : string) (c : ascii) :
  find_first_of s set = None -> back s = Some c -> mem_char c set = false.
Proof.
  induction s as [|d s IH]; [discriminate|].
  cbn [find_first_of]. destruct (mem_char d set) eqn:E; [discriminate|].
  destruct (find_first_of s set); [discriminate|]. intros _.
  destruct s as [|e s]; [intros [= <-]; exact E|].
  intros Hb. now apply IH.
Qed.

Lemma strip_quotes_id (b : string) :
  find_first_of b boundary_stop = None -> strip_quotes b = b.
Proof.
  intros Hb. unfold strip_quotes.
  assert (H1 : match b with
               | String c rest => if Ascii.eqb c DQUOTE then rest else b
               | EmptyString => b
               end = b).
  { destruct b as [|c rest]; [reflexivity|].
    cbn [find_first_of] in Hb.
    destruct (Ascii.eqb_spec c DQUOTE) as [->|]; [discriminate Hb|].
    reflexivity. }
  rewrite H1. destruct (back b) as [c|] eqn:E; [|reflexivity].
  pose proof (back_no_stop _ _ _ Hb E) as Hc.
  destruct (Ascii.eqb_spec c DQUOTE) as [->|]; [discriminate Hc|].
  reflexivity.
Qed.

(** The boundary taken from a [Content-Type] value holds no semicolon,
    no space, tab, carriage return or line feed and no double quote: it
    is cut before the first of them, so the two steps that remove a
    quote at its ends never find one. *)
Theorem boundary_holds_no_quote (content_type b : string) :
  boundary_of content_type = Some b ->
  find_first_of b boundary_stop = None
  /\ strip_quotes b = b.
Proof.
  unfold boundary_of.
  destruct (find content_type "boundary=" 0) as [boundary_pos|];
    [|discriminate].
  intros [= <-].
  assert (H : find_first_of
                match find_first_of
                        (substr_from content_type (boundary_pos + 9))
                        boundary_stop with
                | Some end_pos =>
                    substr (substr_from content_type (boundary_pos + 9))
                      0 end_pos
                | None => substr_from content_type (boundary_pos + 9)
                end boundary_stop = None).
  { destruct (find_first_of (substr_from content_type (boundary_pos + 9))
                boundary_stop) as [end_pos|] eqn:E; [|exact E].
    unfold substr. cbn [skipn_str]. now apply find_first_of_prefix. }
  rewrite (strip_quotes_id _ H). split; [exact H|].
  now apply strip_quotes_id.
Qed.

Lemma boundary_holds_no_quote_witness :
  find_first_of "X" boundary_stop = None /\ strip_quotes "X" = "X".
Proof.
  apply (boundary_holds_no_quote
           "multipart/form-data; boundary=X; charset=utf-8" "X").
  reflexivity.
Defined.

(** A boundary written between double quotes, which the media type
    grammar allows, is read as the empty boundary: the cut before the
    first quote leaves nothing. *)
Theorem quoted_boundary_is_empty (content_type : string) (i : nat) :
  find content_type "boundary=" 0 = Some i ->
  substr content_type (i + 9) 1 = String DQUOTE "" ->
  boundary_of content_type = Some "".
Proof.
  intros Hf Hq. unfold boundary_of. rewrite Hf. unfold substr_from.
  unfold substr in Hq.
  destruct (skipn_str (i + 9) content_type) as [|c rest];
    [discriminate Hq|].
  cbn [firstn_str] in Hq. injection Hq as ->.
  reflexivity.
Qed.

Lemma quoted_boundary_is_empty_witness :
  boundary_of ("multipart/form-data; boundary="
                 ++ String DQUOTE ("X" ++ String DQUOTE ""))
  = Some "".
Proof.
  apply (quoted_boundary_is_empty _ 21); reflexivity.
Defined.

(** ** The built-in routes *)

Lemma route_matches_cases (segs : list segment) (request_path : string) :
  Forall segment_ok segs ->
  (route_matches (render_template segs) request_path = Some true
   /\ serves segs request_path)
  \/ (route_matches (render_template segs) request_path = Some false
      /\ ~ serves segs request_path).
Proof.
  intros Hok. unfold route_matches, serves.
  rewrite (route_captures_tokens _ _ Hok).
  destruct (re_match (tokens_of segs ++ [REnd]) true request_path)
    as [caps|] eqn:E.
  - left. split; [reflexivity|]. apply tokens_match in E.
    destruct E as (ps & Hp & HF & _). eauto.
  - right. split; [reflexivity|]. intros (ps & Hp & HF).
    assert (Hm : re_match (tokens_of segs ++ [REnd]) true request_path
                 = Some (captured segs ps)).
    { apply tokens_match. now exists ps. }
    congruence.
Qed.

(** The loop over the routes of a method, when the templates are made
    of segments: it stops at the first template that serves the path. *)
Lemma match_routes_templates {H : Type}
  (entries : list (list segment * H)) (request_path : string) :
  Forall (fun e => Forall segment_ok (fst e)) entries ->
  match match_routes
          (map (fun e => (render_template (fst e), snd e)) entries)
          request_path with
  | Invoked h =>
      exists segs, In (segs, h) entries /\ serves segs request_path
  | NotFound => Forall (fun e => ~ serves (fst e) request_path) entries
  | OutOfFragment => False
  end.
Proof.
  induction 1 as [|[segs h] entries Hok _ IH]; [constructor|].
  cbn [map match_routes fst snd].
  destruct (route_matches_cases segs request_path Hok) as [[-> Hs]|[-> Hs]].
  - exists segs. split; [now left | exact Hs].
  - destruct (match_routes
                (map (fun e => (render_template (fst e), snd e)) entries)
                request_path) as [h0| |].
    + destruct IH as (segs0 & Hin & Hs0). exists segs0.
      split; [now right | exact Hs0].
    + now constructor.
    + exact IH.
Qed.

Lemma join_path_guard (ps : list string) :
  join_path ps = "" \/ exists r, join_path ps = String "/" r.
Proof. destruct ps; [now left | right; cbn [join_path append]; eauto]. Qed.

Lemma join_path_inj (ps ps' : list string) :
  Forall (fun p => no_char "/" p = true) ps ->
  Forall (fun p => no_char "/" p = true) ps' ->
  join_path ps = join_path ps' -> ps = ps'.
Proof.
  intros Hps. revert ps'.
  induction Hps as [|p ps Hp _ IH]; intros ps' Hps' He.
  - destruct ps'; [reflexivity | discriminate He].
  - destruct Hps' as [|p' ps' Hp' Hps']; [discriminate He|].
    cbn [join_path append] in He. injection He as He.
    destruct (segment_split_unique _ _ _ _ He Hp Hp'
                (join_path_guard ps) (join_path_guard ps')) as [-> Hj].
    now rewrite (IH ps' Hps' Hj).
Qed.

Lemma plain_no_slash (text : string) :
  plain text = true -> no_char "/" text = true.
Proof.
  induction text as [|c text IH]; [reflexivity|]. cbn [plain no_char].
  intros Hp. apply andb_prop in Hp. destruct Hp as [Hc Hp].
  apply andb_prop in Hc. destruct Hc as [_ Hc].
  rewrite (IH Hp), andb_true_r. exact Hc.
Qed.

Lemma accepted_no_slash (segs : list segment) (ps : list string) :
  Forall segment_ok segs -> Forall2 segment_accepts segs ps ->
  Forall (fun p => no_char "/" p = true) ps.
Proof.
  intros Hok HF. induction HF as [|seg p segs ps Hacc _ IH];
    [constructor|].
  inversion Hok as [|? ? Hseg Hok']; subst. constructor; [|now apply IH].
  destruct seg as [text|name]; cbn [segment_accepts segment_ok] in *.
  - subst p. now apply plain_no_slash.
  - apply Hacc.
Qed.

(** A path is cut into segments in one way only. *)
Lemma serves_same_segments (segs segs' : list segment)
  (request_path : string) :
  Forall segment_ok segs -> Forall segment_ok segs' ->
  serves segs request_path -> serves segs' request_path ->
  exists ps, Forall2 segment_accepts segs ps
             /\ Forall2 segment_accepts segs' ps.
Proof.
  intros Hok Hok' (ps & -> & HF) (ps' & He & HF').
  exists ps. split; [exact HF|].
  rewrite (join_path_inj ps ps' (accepted_no_slash _ _ Hok HF)
             (accepted_no_slash _ _ Hok' HF') He).
  exact HF'.
Qed.

Ltac segments_ok := repeat constructor; discriminate.

Ltac invert_segments :=
  repeat match goal with
    | H : Forall2 segment_accepts _ _ |- _ => inversion H; clear H; subst
    end;
  cbn [segment_accepts] in *; subst; try discriminate; try congruence.

(** No path is served by two built-in templates of one method. *)
Lemma default_templates_disjoint (m : string) (segs segs' : list segment)
  (h h' : builtin) (request_path : string) :
  In (m, segs, h) default_templates ->
  In (m, segs', h') default_templates ->
  serves segs request_path -> serves segs' request_path ->
  h = h'.
Proof.
  intros Hin Hin' Hs Hs'.
  assert (Hok : Forall segment_ok segs).
  { cbn [default_templates In] in Hin.
    repeat (destruct Hin as [[= <- <- <-]|Hin]; [segments_ok|]).
    contradiction. }
  assert (Hok' : Forall segment_ok segs').
  { cbn [default_templates In] in Hin'.
    repeat (destruct Hin' as [[= <- <- <-]|Hin']; [segments_ok|]).
    contradiction. }
  destruct (serves_same_segments _ _ _ Hok Hok' Hs Hs') as (ps & HF & HF').
  clear Hs Hs' Hok Hok'.
  cbn [default_templates In] in Hin, Hin'.
  repeat (destruct Hin as [[= <- <- <-]|Hin]);
    try contradiction;
    repeat (destruct Hin' as [Hin'|Hin']);
    try contradiction; try discriminate Hin';
    injection Hin' as <- <-; try reflexivity;
    exfalso; invert_segments.
Qed.

Ltac in_templates :=
  let Hi := fresh "Hi" in
  intros segs h; cbn [In default_templates]; split; intros Hi;
  repeat (destruct Hi as [Hi|Hi]);
  try contradiction; try discriminate Hi;
  try (injection Hi as <- <-); try (injection Hi as <- <- <-);
  try congruence; tauto.

(** The table of the built-in routes: the loop over it is the loop
    over the templates of the request's method. *)
Lemma default_find_route (m request_path : string) :
  exists entries : list (list segment * builtin),
    (forall segs h,
        In (segs, h) entries <-> In (m, segs, h) default_templates)
    /\ Forall (fun e => Forall segment_ok (fst e)) entries
    /\ find_route (setup_default_routes []) m request_path
       = match_routes
           (map (fun e => (render_template (fst e), snd e)) entries)
           request_path.
Proof.
  destruct (String.eqb_spec "DELETE" m) as [<-|Hd].
  { exists [([Literal "api"; Literal "data"; Param "collection"; Param "id"],
             CrudDelete)].
    split; [in_templates|]. split; [repeat constructor; discriminate|].
    change (find_route (setup_default_routes []) "DELETE" request_path)
      with (match match_routes
                    [("/api/data/{collection}/{id}", CrudDelete)]
                    request_path with
            | NotFound => NotFound
            | r => r
            end).
    now destruct (match_routes _ request_path). }
  destruct (String.eqb_spec "GET" m) as [<-|Hg].
  { exists [([Literal ""], ClientPage);
            ([Literal "api"; Literal "data"; Param "collection"],
             CrudReadAll);
            ([Literal "api"; Literal "data"; Param "collection"; Param "id"],
             CrudRead);
            ([Literal "api"; Literal "files"], FileList);
            ([Literal "api"; Literal "files"; Literal "download";
              Param "filename"], FileDownload)].
    split; [in_templates|]. split; [repeat constructor; discriminate|].
    change (find_route (setup_default_routes []) "GET" request_path)
      with (match match_routes
                    [("/", ClientPage);
                     ("/api/data/{collection}", CrudReadAll);
                     ("/api/data/{collection}/{id}", CrudRead);
                     ("/api/files", FileList);
                     ("/api/files/download/{filename}", FileDownload)]
                    request_path with
            | NotFound => NotFound
            | r => r
            end).
    now destruct (match_routes _ request_path). }
  destruct (String.eqb_spec "POST" m) as [<-|Hp].
  { exists [([Literal "api"; Literal "data"; Param "collection"], CrudCreate);
            ([Literal "api"; Literal "files"; Literal "upload"], FileUpload)].
    split; [in_templates|]. split; [repeat constructor; discriminate|].
    change (find_route (setup_default_routes []) "POST" request_path)
      with (match match_routes
                    [("/api/data/{collection}", CrudCreate);
                     ("/api/files/upload", FileUpload)]
                    request_path with
            | NotFound => NotFound
            | r => r
            end).
    now destruct (match_routes _ request_path). }
  destruct (String.eqb_spec "PUT" m) as [<-|Hu].
  { exists [([Literal "api"; Literal "data"; Param "collection"; Param "id"],
             CrudUpdate)].
    split; [in_templates|]. split; [repeat constructor; discriminate|].
    change (find_route (setup_default_routes []) "PUT" request_path)
      with (match match_routes
                    [("/api/data/{collection}/{id}", CrudUpdate)]
                    request_path with
            | NotFound => NotFound
            | r => r
            end).
    now destruct (match_routes _ request_path). }
  exists []. split; [in_templates|]. split; [constructor|].
  change (setup_default_routes [])
    with [("DELETE", [("/api/data/{collection}/{id}", CrudDelete)]);
          ("GET", [("/", ClientPage);
                   ("/api/data/{collection}", CrudReadAll);
                   ("/api/data/{collection}/{id}", CrudRead);
                   ("/api/files", FileList);
                   ("/api/files/download/{filename}", FileDownload)]);
          ("POST", [("/api/data/{collection}", CrudCreate);
                    ("/api/files/upload", FileUpload)]);
          ("PUT", [("/api/data/{collection}/{id}", CrudUpdate)])].
  cbn [find_route map match_routes].
  destruct (String.eqb_spec "DELETE" m); [contradiction|].
  destruct (String.eqb_spec "GET" m); [contradiction|].
  destruct (String.eqb_spec "POST" m); [contradiction|].
  destruct (String.eqb_spec "PUT" m); [contradiction|].
  reflexivity.
Qed.

(** With the built-in routes registered, a request runs a function
    exactly when the endpoint list gives that function for the
    request's method and a template that serves the path, segment by
    segment; no path is served by two of them, so the order of the
    table plays no part, and every other request finds no route. *)
Theorem default_routes_dispatch (m request_path : string) (h : builtin) :
  (find_route (setup_default_routes []) m request_path = Invoked h
   <-> exists segs, In (m, segs, h) default_templates
                    /\ serves segs request_path)
  /\ (find_route (setup_default_routes []) m request_path = NotFound
      <-> forall segs h', In (m, segs, h') default_templates ->
                          ~ serves segs request_path).
Proof.
  destruct (default_find_route m request_path) as (entries & Hin & Hok & ->).
  pose proof (match_routes_templates entries request_path Hok) as Hspec.
  destruct (match_routes _ request_path) as [h0| |].
  - destruct Hspec as (segs0 & Hi0 & Hs0). apply Hin in Hi0. split.
    + split.
      * intros [= <-]. now exists segs0.
      * intros (segs & Hi & Hs). f_equal.
        exact (default_templates_disjoint _ _ _ _ _ _ Hi0 Hi Hs0 Hs).
    + split; [discriminate|]. intros Hnone. exfalso.
      exact (Hnone segs0 h0 Hi0 Hs0).
  - split.
    + split; [discriminate|]. intros (segs & Hi & Hs). exfalso.
      apply Hin in Hi. rewrite Forall_forall in Hspec.
      exact (Hspec _ Hi Hs).
    + split; [|reflexivity]. intros _ segs h' Hi Hs.
      apply Hin in Hi. rewrite Forall_forall in Hspec.
      exact (Hspec _ Hi Hs).
  - destruct Hspec.
Qed.

Lemma default_routes_dispatch_witness :
  find_route (setup_default_routes []) "GET" "/api/files/download/a.png"
  = Invoked FileDownload.
Proof.
  apply (proj2 (proj1 (default_routes_dispatch "GET"
                         "/api/files/download/a.png" FileDownload))).
  exists [Literal "api"; Literal "files"; Literal "download";
          Param "filename"].
  split; [cbn [default_templates In]; tauto|].
  exists ["api"; "files"; "download"; "a.png"].
  split; [reflexivity|]. repeat constructor. discriminate.
Defined.

(** ** The record handlers *)

Lemma remove_if_no_noise (s : string) :
  no_noise s = true -> remove_if json_noise s = s.
Proof.
  induction s as [|c s IH]; [reflexivity|]. cbn [no_noise remove_if].
  intros Hs. apply andb_prop in Hs. destruct Hs as [Hc Hs].
  destruct (json_noise c); [discriminate Hc|]. now rewrite (IH Hs).
Qed.

Lemma no_noise_remove_if (s : string) :
  no_noise (remove_if json_noise s) = true.
Proof.
  induction s as [|c s IH]; [reflexivity|]. cbn [remove_if].
  destruct (json_noise c) eqn:E; [exact IH|].
  cbn [no_noise]. now rewrite E, IH.
Qed.

Lemma remove_if_q (s : string) :
  no_noise s = true -> remove_if json_noise (q s) = s.
Proof.
  intros Hs. unfold q. cbn [remove_if append].
  change (json_noise DQUOTE) with true. cbv iota.
  induction s as [|c s IH]; [reflexivity|].
  cbn [no_noise] in Hs. apply andb_prop in Hs. destruct Hs as [Hc Hs].
  cbn [append remove_if]. destruct (json_noise c); [discriminate Hc|].
  now rewrite (IH Hs).
Qed.

Lemma no_char_q (c : ascii) (s : string) :
  Ascii.eqb DQUOTE c = false ->
  no_char c (q s) = no_char c s.
Proof.
  intros Hc. unfold q. cbn [no_char append]. rewrite Hc. cbn [negb andb].
  rewrite no_char_app. cbn [no_char]. rewrite Hc.
  cbn [negb andb]. now rewrite andb_true_r.
Qed.

Lemma parse_pair_rendered (it : item) (k v : string) :
  field_ok (k, v) ->
  parse_pair it (q k ++ ":" ++ q v) = map_insert k v it.
Proof.
  unfold field_ok. cbn [fst snd]. intros (Hk1 & _ & Hk3 & Hv1 & _).
  unfold parse_pair. rewrite find_zero.
  change (q k ++ ":" ++ q v) with (q k ++ String ":" (q v)).
  rewrite find0_char by (rewrite no_char_q; [exact Hk3 | reflexivity]).
  unfold substr, substr_from. cbn [skipn_str]. rewrite firstn_str_app.
  replace (q k ++ String ":" (q v)) with ((q k ++ ":") ++ q v)
    by (now rewrite append_assoc).
  replace (String.length (q k) + 1) with (String.length (q k ++ ":"))
    by (rewrite length_append; reflexivity).
  rewrite skipn_str_app.
  now rewrite (remove_if_q _ Hk1), (remove_if_q _ Hv1).
Qed.

Lemma rendered_pair_no_comma (k v : string) :
  field_ok (k, v) -> no_char "," (q k ++ ":" ++ q v) = true.
Proof.
  unfold field_ok. cbn [fst snd]. intros (_ & Hk2 & _ & _ & Hv2).
  rewrite !no_char_app, !no_char_q by reflexivity.
  now rewrite Hk2, Hv2.
Qed.

Lemma rendered_pair_not_empty (k v : string) : q k ++ ":" ++ q v <> "".
Proof. unfold q. cbn [append]. discriminate. Qed.

Lemma parse_rendered_fields (kvs : list (string * string)) (acc : item) :
  Forall field_ok kvs ->
  fold_left parse_pair (getlines "," (render_fields true kvs)) acc
  = insert_all acc kvs.
Proof.
  unfold getlines.
  assert (Hgen : forall kvs acc,
             Forall field_ok kvs -> kvs <> [] ->
             fold_left parse_pair
               (getlines_aux "," "" false
                  (match kvs with
                   | [] => EmptyString
                   | (k, v) :: kvs' =>
                       q k ++ ":" ++ q v ++ render_fields false kvs'
                   end)) acc
             = insert_all acc kvs).
  { clear. induction kvs as [|[k v] kvs IH]; intros acc Hall Hne;
      [contradiction|].
    inversion Hall as [|? ? Hkv Hall']; subst.
    destruct kvs as [|[k' v'] kvs].
    - cbn [render_fields]. rewrite append_nil_r.
      rewrite (getlines_aux_last _ _ _ _ (rendered_pair_no_comma _ _ Hkv)
                 (rendered_pair_not_empty k v)).
      cbn [append fold_left insert_all fst snd].
      now rewrite (parse_pair_rendered _ _ _ Hkv).
    - cbn [render_fields].
      replace (q k ++ ":" ++ q v ++ "," ++ q k' ++ ":" ++ q v'
                 ++ render_fields false kvs)
        with ((q k ++ ":" ++ q v)
                ++ String "," (q k' ++ ":" ++ q v'
                                 ++ render_fields false kvs))
        by (now rewrite !append_assoc).
      rewrite (getlines_aux_piece _ _ _ _ _ (rendered_pair_no_comma _ _ Hkv)).
      cbn [append fold_left]. rewrite (parse_pair_rendered _ _ _ Hkv).
      rewrite (IH _ Hall') by discriminate. reflexivity. }
  intros Hall. destruct kvs as [|[k v] kvs]; [reflexivity|].
  specialize (Hgen ((k, v) :: kvs) acc Hall).
  cbn [render_fields]. cbn [append]. apply Hgen. discriminate.
Qed.

Lemma find0_char_some (c : ascii) (s t : string) :
  find0 (String c "") (s ++ String c t) <> None.
Proof.
  induction s as [|a s IH]; cbn [append find0 starts_with].
  - now rewrite Ascii.eqb_refl.
  - destruct (Ascii.eqb c a); cbn [andb]; [discriminate|].
    destruct (find0 (String c "") (s ++ String c t));
      [discriminate | contradiction].
Qed.

Lemma map_insert_last {V : Type} (k : string) (v : V) (m : smap V) :
  Forall (fun e => key_lt (fst e) k) m ->
  map_insert k v m = (m ++ [(k, v)])%list.
Proof.
  induction 1 as [|[k' v'] m Hk _ IH]; [reflexivity|].
  cbn [map_insert app]. cbn [fst] in Hk. unfold key_lt in Hk.
  rewrite String.compare_antisym, Hk. cbn [CompOpp]. now rewrite IH.
Qed.

Lemma ordered_app_below {V : Type} (m : smap V) (k : string) (v : V)
  (rest : smap V) :
  ordered (m ++ (k, v) :: rest)%list ->
  Forall (fun e => key_lt (fst e) k) m.
Proof.
  induction m as [|[k0 v0] m IH]; [constructor|].
  cbn [app]. intros Ho. inversion Ho as [|? ? ? Hab Ho']; subst.
  constructor; [|now apply IH].
  cbn [fst]. unfold keys_above in Hab. rewrite Forall_app in Hab.
  destruct Hab as [_ Hab]. inversion Hab; subst. assumption.
Qed.

Lemma insert_all_sorted (kvs acc : smap string) :
  ordered (acc ++ kvs)%list -> insert_all acc kvs = (acc ++ kvs)%list.
Proof.
  revert acc. induction kvs as [|[k v] kvs IH]; intros acc Ho.
  - now rewrite app_nil_r.
  - cbn [insert_all fold_left fst snd].
    rewrite (map_insert_last _ _ _ (ordered_app_below _ _ _ _ Ho)).
    change (fold_left (fun m kv => map_insert (fst kv) (snd kv) m) kvs
              (acc ++ [(k, v)])%list)
      with (insert_all (acc ++ [(k, v)])%list kvs).
    rewrite IH; rewrite <- app_assoc; [reflexivity | exact Ho].
Qed.

Lemma parse_rendered_item (it : item) :
  ordered it -> Forall field_ok it ->
  parse_json_body (render_item it) = it.
Proof.
  intros Ho Hall. unfold parse_json_body, render_item.
  rewrite !find_zero.
  change ("{" ++ render_fields true it ++ "}")
    with (String "{" (render_fields true it ++ "}")).
  destruct (find0 "}" (String "{" (render_fields true it ++ "}"))) eqn:E.
  - cbn [find0 starts_with Ascii.eqb Bool.eqb andb].
    unfold substr. cbn [skipn_str String.length].
    rewrite length_append. cbn [String.length].
    replace (S (String.length (render_fields true it) + 1) - 2)
      with (String.length (render_fields true it)) by lia.
    rewrite firstn_str_app, (parse_rendered_fields _ _ Hall).
    now apply (insert_all_sorted it []).
  - exfalso.
    exact (find0_char_some "}" (String "{" (render_fields true it)) "" E).
Qed.

(** What the read handler writes for an item can be sent back as the
    body of a create or an update: the item read from it is the same,
    when keys and values hold none of quote, space, tab and comma and
    the keys hold no colon. *)
Theorem rendered_item_read_back (it : item) :
  ordered it -> Forall field_ok it ->
  parse_json_body (render_item it) = it.
Proof. apply parse_rendered_item. Qed.

Lemma rendered_item_read_back_witness :
  parse_json_body
    (render_item [("id", "7"); ("name", "Ann"); ("url", "http://a/b")])
  = [("id", "7"); ("name", "Ann"); ("url", "http://a/b")].
Proof.
  apply (rendered_item_read_back
           [("id", "7"); ("name", "Ann"); ("url", "http://a/b")]).
  - repeat constructor.
  - repeat constructor.
Defined.

Lemma in_map_insert {V : Type} (k k0 : string) (v v0 : V) (m : smap V) :
  In (k, v) (map_insert k0 v0 m) -> (k, v) = (k0, v0) \/ In (k, v) m.
Proof.
  induction m as [|[k' v'] m IH]; cbn [map_insert In].
  - intros [H|[]]. now left.
  - destruct (String.compare k0 k'); cbn [In].
    + intros [H|H]; [now left | now right; right].
    + intros [H|[H|H]]; [now left | now right; left | now right; right].
    + intros [H|H]; [now right; left|].
      destruct (IH H) as [H'|H']; [now left | now right; right].
Qed.

(** Whatever the body, no key and no value read from it holds a double
    quote, a space or a tab: the value [Ann Lee] is stored as
    [AnnLee]. *)
Theorem json_fields_lose_spaces (body k v : string) :
  In (k, v) (parse_json_body body) ->
  no_noise k = true /\ no_noise v = true.
Proof.
  unfold parse_json_body.
  destruct (find body "{" 0); [|contradiction].
  destruct (find body "}" 0); [|contradiction].
  assert (Hgen : forall pairs acc,
             (forall k v, In (k, v) acc ->
                          no_noise k = true /\ no_noise v = true) ->
             forall k v, In (k, v) (fold_left parse_pair pairs acc) ->
                         no_noise k = true /\ no_noise v = true).
  { clear. induction pairs as [|pair pairs IH]; intros acc Hacc;
      [exact Hacc|].
    cbn [fold_left]. apply IH. unfold parse_pair.
    destruct (find pair ":" 0) as [colon_pos|]; [|exact Hacc].
    intros k v Hin. apply in_map_insert in Hin.
    destruct Hin as [[= -> ->]|Hin]; [|now apply Hacc].
    split; apply no_noise_remove_if. }
  apply Hgen. intros k0 v0 [].
Qed.

Lemma json_fields_lose_spaces_witness :
  parse_json_body ("{" ++ q "name" ++ ": " ++ q "Ann Lee" ++ "}")
  = [("name", "AnnLee")]
  /\ no_noise "AnnLee" = true.
Proof.
  split; [reflexivity|].
  apply (json_fields_lose_spaces
           ("{" ++ q "name" ++ ": " ++ q "Ann Lee" ++ "}") "name" "AnnLee").
  now left.
Defined.

Lemma seg_match_ext (k k' : string -> option (list string)) :
  (forall s, k s = k' s) ->
  forall s cur, seg_match k cur s = seg_match k' cur s.
Proof.
  intros Hk. induction s as [|d s IH]; intros cur; [reflexivity|].
  cbn [seg_match]. now rewrite IH, Hk.
Qed.

(** An end anchor after the last token changes nothing: the match is
    on the whole text already. *)
Lemma re_match_end (toks : list retok) :
  forall at_start s,
    re_match (toks ++ [REnd]) at_start s = re_match toks at_start s.
Proof.
  induction toks as [|t toks IH]; intros at_start s.
  - cbn [app re_match]. now destruct s.
  - destruct t; cbn [app re_match].
    + now destruct at_start.
    + now destruct s.
    + destruct s as [|d s]; [reflexivity|].
      now destruct (is_line_terminator d).
    + apply seg_match_ext. intros s0. apply IH.
    + destruct s as [|d s]; [reflexivity|]. now destruct (Ascii.eqb c d).
Qed.

Lemma collection_match (request_path : string) (caps : list string) :
  regex_match collection_regex request_path = Some caps
  <-> exists c, request_path = "/api/data/" ++ c
                /\ c <> "" /\ no_char "/" c = true /\ caps = [c].
Proof.
  unfold regex_match.
  change (regex_compile collection_regex)
    with (Some (tokens_of [Literal "api"; Literal "data";
                           Param "collection"])).
  cbv beta iota. rewrite <- re_match_end, tokens_match. split.
  - intros (ps & -> & HF & ->). invert_segments.
    match goal with H : ?c <> "" /\ _ |- _ =>
      destruct H as [Hne Hc]; exists c
    end.
    split; [cbn [join_path]; now rewrite append_nil_r|]. now repeat split.
  - intros (c & -> & Hne & Hc & ->). exists ["api"; "data"; c].
    split; [cbn [join_path]; now rewrite append_nil_r|].
    split; [|reflexivity].
    repeat constructor; assumption.
Qed.

Lemma item_match (request_path : string) (caps : list string) :
  regex_match item_regex request_path = Some caps
  <-> exists c i, request_path = "/api/data/" ++ c ++ "/" ++ i
                  /\ c <> "" /\ no_char "/" c = true
                  /\ i <> "" /\ no_char "/" i = true /\ caps = [c; i].
Proof.
  unfold regex_match.
  change (regex_compile item_regex)
    with (Some (tokens_of [Literal "api"; Literal "data";
                           Param "collection"; Param "id"])).
  cbv beta iota. rewrite <- re_match_end, tokens_match. split.
  - intros (ps & -> & HF & ->). invert_segments.
    repeat match goal with H : _ /\ _ |- _ => destruct H end.
    do 2 eexists. split; [cbn [join_path]; now rewrite append_nil_r|].
    now repeat split.
  - intros (c & i & -> & Hne & Hc & Hni & Hi & ->).
    exists ["api"; "data"; c; i].
    split; [cbn [join_path]; now rewrite append_nil_r|].
    split; [|reflexivity].
    repeat constructor; assumption.
Qed.

Lemma uint_no_slash (d : Decimal.uint) :
  no_char "/" (NilEmpty.string_of_uint d) = true.
Proof. induction d; cbn [NilEmpty.string_of_uint no_char]; auto. Qed.

Lemma int_to_string_segment (z : Z) :
  int_to_string z <> "" /\ no_char "/" (int_to_string z) = true.
Proof.
  unfold int_to_string.
  assert (Hu : forall d, NilZero.string_of_uint d <> ""
                         /\ no_char "/" (NilZero.string_of_uint d) = true).
  { intros d. pose proof (uint_no_slash d) as Hd.
    destruct d; cbn [NilZero.string_of_uint NilEmpty.string_of_uint] in *;
      (split; [discriminate | assumption || reflexivity]). }
  destruct (Z.to_int z) as [d|d]; cbn [NilZero.string_of_int].
  - apply Hu.
  - split; [discriminate|]. cbn [no_char]. apply (Hu d).
Qed.

Lemma map_insert_not_nil {V : Type} (k : string) (v : V) (m : smap V) :
  map_insert k v m <> [].
Proof.
  destruct m as [|[k' v'] m]; cbn [map_insert]; [discriminate|].
  destruct (String.compare k k'); discriminate.
Qed.

Lemma handle_crud_read_path (request : HttpRequest) (response : HttpResponse)
  (s : DataStore) (c i : string) :
  c <> "" -> no_char "/" c = true -> i <> "" -> no_char "/" i = true ->
  path request = "/api/data/" ++ c ++ "/" ++ i ->
  handle_crud_read request response s
  = match ds_read s c i with
    | [] => (send_error_response response 404 "Item not found", s)
    | (_ :: _) as it => (send_json_response response (render_item it) 200, s)
    end.
Proof.
  intros Hc1 Hc2 Hi1 Hi2 Hp. unfold handle_crud_read. rewrite Hp.
  assert (Hm : regex_match item_regex ("/api/data/" ++ c ++ "/" ++ i)
               = Some [c; i]).
  { apply item_match. exists c, i. now repeat split. }
  rewrite Hm. reflexivity.
Qed.

(** An item created from the text that the read handler writes is read
    back in full: the create request for a collection, with a body
    rendered from an item, is answered 201 with the text of the
    counter as id, and a read request for that collection and id is
    then answered 200 with the item and its [id] field, rendered the
    same way. *)
Theorem crud_create_then_read (request request' : HttpRequest)
  (response response' : HttpResponse) (s : DataStore) (c : string)
  (it : item) :
  c <> "" -> no_char "/" c = true ->
  path request = "/api/data/" ++ c ->
  form_data request = [] -> req_body request = render_item it ->
  ordered it -> Forall field_ok it ->
  path request' = "/api/data/" ++ c ++ "/" ++ int_to_string (next_id s) ->
  fst (handle_crud_create request response s)
  = send_json_response response
      (status_json (int_to_string (next_id s)) "created") 201
  /\ handle_crud_read request' response'
       (snd (handle_crud_create request response s))
     = (send_json_response response'
          (render_item (map_insert "id" (int_to_string (next_id s)) it)) 200,
        snd (handle_crud_create request response s)).
Proof.
  intros Hc1 Hc2 Hp Hform Hbody Ho Hall Hp'.
  assert (Hm : regex_match collection_regex (path request) = Some [c]).
  { rewrite Hp. apply collection_match. exists c. now repeat split. }
  assert (Hitem : request_item request = it).
  { unfold request_item. rewrite Hform, Hbody.
    now apply parse_rendered_item. }
  unfold handle_crud_create. rewrite Hm, Hitem. cbn [nth].
  unfold ds_create. cbn [fst snd]. split; [reflexivity|].
  destruct (int_to_string_segment (next_id s)) as [Hi1 Hi2].
  rewrite (handle_crud_read_path _ _ _ c _ Hc1 Hc2 Hi1 Hi2 Hp').
  unfold ds_read. cbn [ds_data].
  rewrite find_store_item, !String.eqb_refl. cbn [andb].
  destruct (map_insert "id" (int_to_string (next_id s)) it) eqn:E;
    [|reflexivity].
  now apply map_insert_not_nil in E.
Qed.

Lemma crud_create_then_read_witness :
  handle_crud_read
    (mkHttpRequest "GET" "/api/data/users/1" "HTTP/1.1" [] "" [] [] [])
    default_response
    (snd (handle_crud_create
            (mkHttpRequest "POST" "/api/data/users" "HTTP/1.1" []
               (render_item [("name", "Ann")]) [] [] [])
            default_response empty_store))
  = (send_json_response default_response
       (render_item [("id", "1"); ("name", "Ann")]) 200,
     snd (handle_crud_create
            (mkHttpRequest "POST" "/api/data/users" "HTTP/1.1" []
               (render_item [("name", "Ann")]) [] [] [])
            default_response empty_store)).
Proof.
  apply (proj2 (crud_create_then_read
           (mkHttpRequest "POST" "/api/data/users" "HTTP/1.1" []
              (render_item [("name", "Ann")]) [] [] [])
           (mkHttpRequest "GET" "/api/data/users/1" "HTTP/1.1" [] "" [] [] [])
           default_response default_response empty_store "users"
           [("name", "Ann")]
           ltac:(discriminate) eq_refl eq_refl eq_refl eq_refl
           ltac:(repeat constructor) ltac:(repeat constructor) eq_refl)).
Defined.

(** On a store reached by any calls, a read request for a collection
    and an id is answered 404 exactly when nothing is stored under
    them, and 200 with the stored item otherwise, the item carrying
    the id in its [id] field; the store is left as it is. *)
Theorem crud_read_answers (calls : list ds_call) (request : HttpRequest)
  (response : HttpResponse) (c i : string) :
  c <> "" -> no_char "/" c = true -> i <> "" -> no_char "/" i = true ->
  path request = "/api/data/" ++ c ++ "/" ++ i ->
  match find_item (ds_data (ds_after calls)) c i with
  | Some it =>
      handle_crud_read request response (ds_after calls)
      = (send_json_response response (render_item it) 200, ds_after calls)
      /\ map_find "id" it = Some i
  | None =>
      handle_crud_read request response (ds_after calls)
      = (send_error_response response 404 "Item not found", ds_after calls)
  end.
Proof.
  intros Hc1 Hc2 Hi1 Hi2 Hp.
  rewrite (handle_crud_read_path _ _ _ c i Hc1 Hc2 Hi1 Hi2 Hp).
  pose proof (ds_invariant_fold calls empty_store ds_invariant_empty)
    as (_ & _ & Hitems).
  fold (ds_after calls) in Hitems. unfold ds_read.
  destruct (find_item (ds_data (ds_after calls)) c i) as [it|] eqn:E;
    [|reflexivity].
  pose proof (proj1 (Hitems _ _ _ E)) as Hid.
  split; [|exact Hid]. destruct it; [discriminate Hid | reflexivity].
Qed.

Lemma crud_read_answers_witness :
  handle_crud_read
    (mkHttpRequest "GET" "/api/data/users/2" "HTTP/1.1" [] "" [] [] [])
    default_response (ds_after [CallCreate "users" [("name", "Ann")]])
  = (send_error_response default_response 404 "Item not found",
     ds_after [CallCreate "users" [("name", "Ann")]]).
Proof.
  apply (crud_read_answers [CallCreate "users" [("name", "Ann")]]
           (mkHttpRequest "GET" "/api/data/users/2" "HTTP/1.1" [] "" [] [] [])
           default_response "users" "2"
           ltac:(discriminate) eq_refl ltac:(discriminate) eq_refl eq_refl).
Defined.

Lemma download_filename (f : string) :
  f <> "" -> no_char "/" f = true ->
  extract_filename_from_path ("/api/files/download/" ++ f) = f.
Proof.
  intros Hne Hf. unfold extract_filename_from_path.
  change (regex_compile "/api/files/download/([^/]+)")
    with (Some (RChar "/" :: chars "api/files/download/" ++ [RSeg])%list).
  cbv beta iota.
  assert (Hm : re_match (RChar "/" :: chars "api/files/download/" ++ [RSeg])
                 true ("/api/files/download/" ++ f) = Some [f]).
  { apply download_match. exists f. now repeat split. }
  now rewrite Hm.
Qed.

(** A request that the table of the built-in routes hands to a function
    passes the test that the function makes on the path again: create
    answers 201 and list 200; read, update and delete never answer 400;
    the download function finds a file name. *)
Theorem builtin_path_tests_pass (request : HttpRequest) (h : builtin) :
  find_route (setup_default_routes []) (method request) (path request)
  = Invoked h ->
  match h with
  | CrudCreate =>
      forall response s,
        status_code (fst (handle_crud_create request response s)) = 201%Z
  | CrudReadAll =>
      forall response s,
        status_code (fst (handle_crud_read_all request response s)) = 200%Z
  | CrudRead =>
      forall response s,
        status_code (fst (handle_crud_read request response s)) <> 400%Z
  | CrudUpdate =>
      forall response s,
        status_code (fst (handle_crud_update request response s)) <> 400%Z
  | CrudDelete =>
      forall response s,
        status_code (fst (handle_crud_delete request response s)) <> 400%Z
  | FileDownload => extract_filename_from_path (path request) <> ""
  | FileUpload => path request = "/api/files/upload"
  | FileList => path request = "/api/files"
  | ClientPage => path request = "/"
  end.
Proof.
  destruct (default_find_route (method request) (path request))
    as (entries & Hin & Hok & ->).
  pose proof (match_routes_templates entries (path request) Hok) as Hspec.
  destruct (match_routes _ (path request)) as [h0| |]; try discriminate.
  intros [= ->]. destruct Hspec as (segs & Hi & ps & Hp & HF).
  apply Hin in Hi. cbn [default_templates In] in Hi.
  repeat (destruct Hi as [Hi|Hi]); try contradiction;
    injection Hi as _ <- <-; invert_segments;
    repeat match goal with H : _ /\ _ |- _ => destruct H end;
    cbn [join_path] in Hp; rewrite ?append_nil_r in Hp.
  - intros response s. unfold handle_crud_create.
    destruct (regex_match collection_regex (path request)) as [caps|] eqn:E.
    + now destruct (ds_create s (nth 0 caps "") (request_item request)).
    + exfalso. rewrite Hp in E.
      match goal with
      | Hc : no_char "/" ?c = true |- _ =>
          assert (Hm : regex_match collection_regex ("/api/data/" ++ c)
                       = Some [c])
            by (apply collection_match; exists c; now repeat split)
      end.
      cbn [append] in E, Hm. congruence.
  - intros response s. unfold handle_crud_read.
    destruct (regex_match item_regex (path request)) as [caps|] eqn:E.
    + destruct (ds_read s (nth 0 caps "") (nth 1 caps ""));
        cbn [fst send_error_response send_json_response status_code];
        discriminate.
    + exfalso. rewrite Hp in E.
      match goal with
      | Hc : no_char "/" ?c = true, Hi : no_char "/" ?i = true |- _ =>
          assert (Hm : regex_match item_regex
                         ("/api/data/" ++ c ++ "/" ++ i) = Some [c; i])
            by (apply item_match; exists c, i; now repeat split)
      end.
      cbn [append] in E, Hm. congruence.
  - intros response s. unfold handle_crud_read_all.
    destruct (regex_match collection_regex (path request)) as [caps|] eqn:E;
      [reflexivity|].
    exfalso. rewrite Hp in E.
    match goal with
    | Hc : no_char "/" ?c = true |- _ =>
        assert (Hm : regex_match collection_regex ("/api/data/" ++ c)
                     = Some [c])
          by (apply collection_match; exists c; now repeat split)
    end.
    cbn [append] in E, Hm. congruence.
  - intros response s. unfold handle_crud_update.
    destruct (regex_match item_regex (path request)) as [caps|] eqn:E.
    + destruct (ds_update s (nth 0 caps "") (nth 1 caps "")
                  (request_item request)) as [[] s'];
        cbn [fst send_error_response send_json_response status_code];
        discriminate.
    + exfalso. rewrite Hp in E.
      match goal with
      | Hc : no_char "/" ?c = true, Hi : no_char "/" ?i = true |- _ =>
          assert (Hm : regex_match item_regex
                         ("/api/data/" ++ c ++ "/" ++ i) = Some [c; i])
            by (apply item_match; exists c, i; now repeat split)
      end.
      cbn [append] in E, Hm. congruence.
  - intros response s. unfold handle_crud_delete.
    destruct (regex_match item_regex (path request)) as [caps|] eqn:E.
    + destruct (ds_remove s (nth 0 caps "") (nth 1 caps "")) as [[] s'];
        cbn [fst send_error_response send_json_response status_code];
        discriminate.
    + exfalso. rewrite Hp in E.
      match goal with
      | Hc : no_char "/" ?c = true, Hi : no_char "/" ?i = true |- _ =>
          assert (Hm : regex_match item_regex
                         ("/api/data/" ++ c ++ "/" ++ i) = Some [c; i])
            by (apply item_match; exists c, i; now repeat split)
      end.
      cbn [append] in E, Hm. congruence.
  - exact Hp.
  - rewrite Hp.
    match goal with
    | Hc : no_char "/" ?f = true, Hne : ?f <> "" |- _ =>
        change (extract_filename_from_path ("/api/files/download/" ++ f)
                <> "");
        now rewrite (download_filename f Hne Hc)
    end.
  - exact Hp.
  - exact Hp.
Qed.

Lemma builtin_path_tests_pass_witness :
  extract_filename_from_path "/api/files/download/a.png" <> "".
Proof.
  apply (builtin_path_tests_pass
           (mkHttpRequest "GET" "/api/files/download/a.png" "HTTP/1.1" [] ""
              [] [] [])
           FileDownload).
  reflexivity.
Defined.

(** ** The file handlers *)

Lemma received_sends (r : HttpResponse) :
  received (sends r) = response_head r ++ payload_sent r.
Proof.
  unfold sends, response_head, payload_sent.
  cbn [received]. rewrite build_response_layout.
  unfold announced_length.
  destruct (is_binary r); cbn [andb].
  - destruct (String.eqb_spec (binary_data r) "") as [E|_];
      cbn [negb received]; rewrite ?E, ?append_nil_r;
      repeat rewrite append_assoc; cbn [append];
      rewrite ?append_nil_r; reflexivity.
  - cbn [received]. rewrite append_nil_r.
    repeat rewrite append_assoc. reflexivity.
Qed.

Lemma c_str_app (pre s : string) :
  no_char NUL pre = true -> c_str (pre ++ s) = pre ++ c_str s.
Proof.
  induction pre as [|c pre IH]; [reflexivity|]. cbn [no_char append c_str].
  destruct (Ascii.eqb c NUL); [discriminate|]. cbn [negb andb].
  intros Hp. now rewrite (IH Hp).
Qed.

Lemma no_char_c_str (c : ascii) (s : string) :
  no_char c s = true -> no_char c (c_str s) = true.
Proof.
  induction s as [|d s IH]; [reflexivity|]. cbn [no_char c_str].
  intros Hs. apply andb_prop in Hs. destruct Hs as [Hd Hs].
  destruct (Ascii.eqb d NUL); [reflexivity|].
  cbn [no_char]. now rewrite Hd, (IH Hs).
Qed.

(** A regular file reaches the client whole: when the path opens on a
    regular file, the answer is 200, its [Content-Type] is the one of
    the path's extension, and the writes put end to end are the head
    followed by the bytes of the file, NUL bytes included, as many as
    the head announces; an HTML file goes as the text body and any
    other file as the binary payload named after the last part of the
    path.  A path that does not open is answered 404, and on one that
    opens without being a regular file an exception leaves the
    function. *)
Theorem file_response_wire (response : HttpResponse) (filepath : string)
  (fs : file_system) :
  (forall content,
      open_file fs filepath = Some (Regular content) ->
      exists r,
        send_file_response response filepath fs = Some r
        /\ status_code r = 200%Z
        /\ map_find "Content-Type" (headers r)
           = Some (get_content_type filepath)
        /\ received (sends r) = response_head r ++ content
        /\ announced_length r = String.length content
        /\ (if String.eqb (get_content_type filepath) "text/html"
            then is_binary r = false /\ body r = content
            else is_binary r = true
                 /\ map_find "Content-Disposition" (headers r)
                    = Some ("attachment; filename="
                              ++ q (path_filename filepath))))
  /\ (open_file fs filepath = None ->
      send_file_response response filepath fs
      = Some (send_error_response response 404 "File not found"))
  /\ (open_file fs filepath = Some Irregular ->
      send_file_response response filepath fs = None).
Proof.
  unfold send_file_response.
  split; [|split; intros ->; reflexivity].
  intros content ->.
  destruct (String.eqb (get_content_type filepath) "text/html");
    eexists; (split; [reflexivity|]); rewrite received_sends;
    unfold payload_sent, announced_length;
    cbn [status_code headers is_binary body binary_data].
  - split; [reflexivity|]. split; [|now repeat split].
    rewrite map_find_insert_other by discriminate.
    apply map_find_insert_same.
  - split; [reflexivity|]. split.
    + rewrite !map_find_insert_other by discriminate.
      apply map_find_insert_same.
    + repeat split. rewrite map_find_insert_other by discriminate.
      apply map_find_insert_same.
Qed.

Lemma file_response_wire_witness :
  exists r,
    send_file_response default_response "uploads/a.bin"
      (write_file (fun _ => None) "uploads/a.bin"
         (String "a" (String NUL "b")))
    = Some r
    /\ announced_length r = 3.
Proof.
  destruct (proj1 (file_response_wire default_response "uploads/a.bin"
                     (write_file (fun _ => None) "uploads/a.bin"
                        (String "a" (String NUL "b"))))
              (String "a" (String NUL "b")) eq_refl)
    as (r & Hr & _ & _ & _ & Hlen & _).
  exists r. split; [exact Hr | exact Hlen].
Defined.

(** The download handler opens files that lie directly in [uploads]
    and no other: two file systems that agree on the paths made of
    [uploads/] and a name without a slash get the same answer, for
    every request.  The name is not empty, except for a request path
    with a NUL byte, where the path opened ends before that byte. *)
Theorem download_reads_uploads_only (request : HttpRequest)
  (response : HttpResponse) (fs fs' : file_system) :
  (forall f, no_char "/" f = true ->
             f <> "" \/ no_char NUL (path request) = false ->
             fs ("uploads/" ++ f) = fs' ("uploads/" ++ f)) ->
  handle_file_download request response fs
  = handle_file_download request response fs'.
Proof.
  intros Hagree. unfold handle_file_download, extract_filename_from_path.
  change (regex_compile "/api/files/download/([^/]+)")
    with (Some (RChar "/" :: chars "api/files/download/" ++ [RSeg])%list).
  cbv beta iota.
  destruct (re_match (RChar "/" :: chars "api/files/download/" ++ [RSeg])
              true (path request)) as [caps|] eqn:E; [|reflexivity].
  apply download_match in E. destruct E as (f & Hp & Hne & Hf & ->).
  destruct (String.eqb f ""); [reflexivity|].
  unfold send_file_response, open_file.
  rewrite (c_str_app "uploads/" f eq_refl).
  rewrite (Hagree (c_str f) (no_char_c_str _ _ Hf)); [reflexivity|].
  destruct (no_char NUL (path request)) eqn:Hnul; [left | now right].
  rewrite Hp, no_char_app in Hnul. apply andb_prop in Hnul.
  destruct Hnul as [_ Hnul]. now rewrite (c_str_nul_free _ Hnul).
Qed.

Lemma download_reads_uploads_only_witness :
  handle_file_download
    (mkHttpRequest "GET" "/api/files/download/a.txt" "HTTP/1.1" [] "" [] []
       [])
    default_response (fun _ => None)
  = handle_file_download
      (mkHttpRequest "GET" "/api/files/download/a.txt" "HTTP/1.1" [] "" []
         [] [])
      default_response (write_file (fun _ => None) "client.html" "x").
Proof.
  apply (download_reads_uploads_only _ default_response (fun _ => None)
           (write_file (fun _ => None) "client.html" "x")).
  intros f _ _. reflexivity.
Defined.

Section UploadFacts.

Variable can_open : string -> bool.

(** A file sent under a name without a slash can be fetched under that
    name: after the upload of a request with one file part, answered
    201, the download of [/api/files/download/] followed by the name
    is answered 200 with the bytes of the part. *)
Theorem upload_then_download (request request' : HttpRequest)
  (response response' : HttpResponse) (fs : file_system)
  (field : string) (file : FileData) :
  files request = [(field, file)] ->
  fd_filename file <> "" -> no_char "/" (fd_filename file) = true ->
  can_open (c_str ("uploads/" ++ fd_filename file)) = true ->
  path request' = "/api/files/download/" ++ fd_filename file ->
  let uploaded := handle_file_upload can_open request response fs in
  status_code (fst uploaded) = 201%Z
  /\ exists r,
       handle_file_download request' response' (snd uploaded) = Some r
       /\ status_code r = 200%Z
       /\ payload_sent r = fd_data file
       /\ received (sends r) = response_head r ++ fd_data file.
Proof.
  intros Hfiles Hne Hslash Hopen Hp. cbn zeta.
  unfold handle_file_upload. rewrite Hfiles.
  cbn [fold_left upload_file snd]. rewrite Hopen. cbn [fst snd].
  split; [reflexivity|].
  unfold handle_file_download. rewrite Hp.
  rewrite (download_filename _ Hne Hslash).
  destruct (String.eqb_spec (fd_filename file) "") as [E|_];
    [contradiction|].
  unfold send_file_response, open_file, write_file.
  rewrite String.eqb_refl.
  destruct (String.eqb (get_content_type ("uploads/" ++ fd_filename file))
              "text/html");
    eexists; (split; [reflexivity|]); rewrite received_sends;
    now repeat split.
Qed.

End UploadFacts.

Lemma upload_then_download_witness :
  exists r,
    handle_file_download
      (mkHttpRequest "GET" "/api/files/download/a.bin" "HTTP/1.1" [] "" []
         [] [])
      default_response
      (snd (handle_file_upload (fun _ => true)
              (mkHttpRequest "POST" "/api/files/upload" "HTTP/1.1" [] "" []
                 []
                 [("file",
                   mkFileData "a.bin" "application/octet-stream"
                     (String "a" (String NUL "b")))])
              default_response (fun _ => None)))
    = Some r
    /\ payload_sent r = String "a" (String NUL "b").
Proof.
  destruct (proj2 (upload_then_download (fun _ => true)
           (mkHttpRequest "POST" "/api/files/upload" "HTTP/1.1" [] "" [] []
              [("file",
                mkFileData "a.bin" "application/octet-stream"
                  (String "a" (String NUL "b")))])
           (mkHttpRequest "GET" "/api/files/download/a.bin" "HTTP/1.1" [] ""
              [] [] [])
           default_response default_response (fun _ => None) "file"
           (mkFileData "a.bin" "application/octet-stream"
              (String "a" (String NUL "b")))
           eq_refl ltac:(discriminate) eq_refl eq_refl eq_refl))
    as (r & Hr & _ & Hpay & _).
  exists r. split; [exact Hr | exact Hpay].
Defined.

(** ** Update and delete requests *)

Lemma item_path_match (c i : string) :
  c <> "" -> no_char "/" c = true -> i <> "" -> no_char "/" i = true ->
  regex_match item_regex ("/api/data/" ++ c ++ "/" ++ i) = Some [c; i].
Proof.
  intros Hc1 Hc2 Hi1 Hi2. apply item_match. exists c, i. now repeat split.
Qed.

(** On a store reached by any calls, an update request for a stored
    collection and id is answered 200 and a read request that follows
    is answered with the item of the update request, its [id] field
    set, and nothing of the former item; for an id that is not stored
    the answer is 404 and the store is left as it is. *)
Theorem crud_update_then_read (calls : list ds_call)
  (request request' : HttpRequest) (response response' : HttpResponse)
  (c i : string) :
  c <> "" -> no_char "/" c = true -> i <> "" -> no_char "/" i = true ->
  path request = "/api/data/" ++ c ++ "/" ++ i ->
  path request' = "/api/data/" ++ c ++ "/" ++ i ->
  match find_item (ds_data (ds_after calls)) c i with
  | Some _ =>
      fst (handle_crud_update request response (ds_after calls))
      = send_json_response response (status_json i "updated") 200
      /\ handle_crud_read request' response'
           (snd (handle_crud_update request response (ds_after calls)))
         = (send_json_response response'
              (render_item (map_insert "id" i (request_item request))) 200,
            snd (handle_crud_update request response (ds_after calls)))
  | None =>
      handle_crud_update request response (ds_after calls)
      = (send_error_response response 404 "Item not found", ds_after calls)
  end.
Proof.
  intros Hc1 Hc2 Hi1 Hi2 Hp Hp'. unfold handle_crud_update.
  rewrite Hp, (item_path_match c i Hc1 Hc2 Hi1 Hi2). cbn [nth].
  unfold ds_update.
  destruct (find_item (ds_data (ds_after calls)) c i) as [old|];
    [|reflexivity].
  cbn [fst snd]. split; [reflexivity|].
  rewrite (handle_crud_read_path _ _ _ c i Hc1 Hc2 Hi1 Hi2 Hp').
  unfold ds_read. cbn [ds_data].
  rewrite find_store_item, !String.eqb_refl. cbn [andb].
  destruct (map_insert "id" i (request_item request)) eqn:E;
    [|reflexivity].
  now apply map_insert_not_nil in E.
Qed.

Lemma crud_update_then_read_witness :
  handle_crud_update
    (mkHttpRequest "PUT" "/api/data/users/7" "HTTP/1.1" []
       (render_item [("name", "Bob")]) [] [] [])
    default_response (ds_after [CallCreate "users" [("name", "Ann")]])
  = (send_error_response default_response 404 "Item not found",
     ds_after [CallCreate "users" [("name", "Ann")]]).
Proof.
  apply (crud_update_then_read [CallCreate "users" [("name", "Ann")]]
           (mkHttpRequest "PUT" "/api/data/users/7" "HTTP/1.1" []
              (render_item [("name", "Bob")]) [] [] [])
           (mkHttpRequest "GET" "/api/data/users/7" "HTTP/1.1" [] "" [] [] [])
           default_response default_response "users" "7"
           ltac:(discriminate) eq_refl ltac:(discriminate) eq_refl
           eq_refl eq_refl).
Defined.

(** On a store reached by any calls, a delete request for a stored
    collection and id is answered 200 and a read request that follows
    is answered 404; for an id that is not stored the answer to the
    delete request is 404 and the store is left as it is. *)
Theorem crud_delete_then_read (calls : list ds_call)
  (request request' : HttpRequest) (response response' : HttpResponse)
  (c i : string) :
  c <> "" -> no_char "/" c = true -> i <> "" -> no_char "/" i = true ->
  path request = "/api/data/" ++ c ++ "/" ++ i ->
  path request' = "/api/data/" ++ c ++ "/" ++ i ->
  match find_item (ds_data (ds_after calls)) c i with
  | Some _ =>
      fst (handle_crud_delete request response (ds_after calls))
      = send_json_response response (status_json i "deleted") 200
      /\ handle_crud_read request' response'
           (snd (handle_crud_delete request response (ds_after calls)))
         = (send_error_response response' 404 "Item not found",
            snd (handle_crud_delete request response (ds_after calls)))
  | None =>
      handle_crud_delete request response (ds_after calls)
      = (send_error_response response 404 "Item not found", ds_after calls)
  end.
Proof.
  intros Hc1 Hc2 Hi1 Hi2 Hp Hp'.
  pose proof (ds_invariant_fold calls empty_store ds_invariant_empty)
    as (Hord & _ & _).
  fold (ds_after calls) in Hord.
  unfold handle_crud_delete.
  rewrite Hp, (item_path_match c i Hc1 Hc2 Hi1 Hi2). cbn [nth].
  unfold ds_remove, find_item.
  destruct (map_find c (ds_data (ds_after calls))) as [items|] eqn:Hc;
    [|reflexivity].
  destruct (map_find i items) as [old|] eqn:Hold; [|reflexivity].
  cbn [fst snd]. split; [reflexivity|].
  rewrite (handle_crud_read_path _ _ _ c i Hc1 Hc2 Hi1 Hi2 Hp').
  unfold ds_read. cbn [ds_data].
  rewrite (find_item_erase _ _ _ _ _ _ Hord Hc), !String.eqb_refl.
  reflexivity.
Qed.

Lemma crud_delete_then_read_witness :
  handle_crud_read
    (mkHttpRequest "GET" "/api/data/users/1" "HTTP/1.1" [] "" [] [] [])
    default_response
    (snd (handle_crud_delete
            (mkHttpRequest "DELETE" "/api/data/users/1" "HTTP/1.1" [] "" []
               [] [])
            default_response (ds_after [CallCreate "users" [("name", "Ann")]])))
  = (send_error_response default_response 404 "Item not found",
     snd (handle_crud_delete
            (mkHttpRequest "DELETE" "/api/data/users/1" "HTTP/1.1" [] "" []
               [] [])
            default_response
            (ds_after [CallCreate "users" [("name", "Ann")]]))).
Proof.
  apply (proj2 (crud_delete_then_read [CallCreate "users" [("name", "Ann")]]
           (mkHttpRequest "DELETE" "/api/data/users/1" "HTTP/1.1" [] "" []
              [] [])
           (mkHttpRequest "GET" "/api/data/users/1" "HTTP/1.1" [] "" [] [] [])
           default_response default_response "users" "1"
           ltac:(discriminate) eq_refl ltac:(discriminate) eq_refl
           eq_refl eq_refl)).
Defined.
